(** * csvtogpx: schema normalisation and track building

    A shallow embedding of [src/csvtogpx.py].

    - A Python [str] is its sequence of code points ([pystr]).
    - A pandas [DataFrame] is its list of column labels with its rows; a
      cell is an element of a float64 column (NaN is the missing value), an
      element of an int64 column, or a text object.
    - [float] is Rocq's primitive binary64, the arithmetic of Python's
      [float] and of numpy's [float64]; an int64 is an integer, and the
      arithmetic that numpy does on two of them wraps around.
    - A pandas [Timestamp] is its signed count of nanoseconds since the
      epoch; [NaT] is [None]. What [Timedelta.total_seconds] keeps of a
      difference of instants depends on the version of pandas: all of it,
      or only its whole microseconds ([resolution]); the builder and its
      properties are stated for both. The float that [total_seconds] gives
      is only compared with whole numbers of seconds and truncated, which
      the count of nanoseconds it stands for decides.
    - Exceptions are the [Raise] results of [result]; [print] and the file
      write are entries of an event trace.
    - The numeric parser of pandas is a parameter of the normalizer, and
      the sort of pandas a parameter of the builder: the order it gives to
      rows of equal instants is not fixed.

    The file system is, for [ensure_folders_exist], the list of the paths
    that exist, and [os.makedirs] is taken to succeed. The XML header and
    the decorative prints of [main] are outside the model. *)

From Stdlib Require Import ZArith NArith List Bool Lia String Ascii.
From Stdlib Require Import Floats Sorted Permutation.
Import ListNotations.

Local Open Scope Z_scope.

(* ================================================================== *)
(** ** Python strings *)

Definition pystr := list N.

Definition str (s : string) : pystr :=
  List.map N_of_ascii (list_ascii_of_string s).

Fixpoint pystr_eqb (a b : pystr) : bool :=
  match a, b with
  | [], [] => true
  | x :: a', y :: b' => N.eqb x y && pystr_eqb a' b'
  | _, _ => false
  end.

(** [label in cols], for a list of column labels. *)
Definition contains (cols : list pystr) (label : pystr) : bool :=
  existsb (pystr_eqb label) cols.

(** [str.isspace] of one code point: the ASCII white space of CPython
    (TAB..CR, FS..US, SPACE) and the Unicode white space beyond it. *)
Definition isspace (c : N) : bool :=
  (((9 <=? c) && (c <=? 13)) || ((28 <=? c) && (c <=? 32))
   || (c =? 133) || (c =? 160) || (c =? 5760)
   || ((8192 <=? c) && (c <=? 8202))
   || (c =? 8232) || (c =? 8233) || (c =? 8239) || (c =? 8287)
   || (c =? 12288))%N.

Fixpoint lstrip (s : pystr) : pystr :=
  match s with
  | c :: s' => if isspace c then lstrip s' else s
  | [] => []
  end.

Definition rstrip (s : pystr) : pystr := rev (lstrip (rev s)).

(** [s.strip()] *)
Definition strip (s : pystr) : pystr := rstrip (lstrip s).

(* ================================================================== *)
(** ** Exceptions *)

Inductive exn : Type :=
| IndexError           (* positional access into an empty frame *)
| KeyError             (* a column label that the frame does not have *)
| TypeError            (* a one-dimensional argument was required *)
| OutOfBoundsDatetime  (* a timestamp that pd.to_datetime refuses:
                          OutOfBoundsDatetime, or OverflowError *)
| BadValue             (* TypeError or ValueError of arithmetic or formatting
                          on a value that is not one number or one instant *)
| ReadError.           (* whatever pd.read_csv raises *)

Inductive result (A : Type) : Type :=
| Ok (a : A)
| Raise (e : exn).
Arguments Ok {A} a.
Arguments Raise {A} e.

Definition rbind {A B} (r : result A) (f : A -> result B) : result B :=
  match r with
  | Ok a => f a
  | Raise e => Raise e
  end.

Declare Scope result_scope.
Delimit Scope result_scope with result.
Notation "x <- c ;; k" := (rbind c (fun x => k))
  (at level 61, c at next level, right associativity) : result_scope.

(* ================================================================== *)
(** ** Data frames *)

Inductive cell : Type :=
| Num (x : float)   (* an element of a float64 column *)
| Int (n : Z)       (* an element of an int64 column *)
| Text (s : pystr).

Record DataFrame : Type := mkDataFrame {
  columns : list pystr;
  rows : list (list cell)
}.

(** [pd.isna] of a cell. *)
Definition isna (c : cell) : bool :=
  match c with
  | Num x => PrimFloat.is_nan x
  | Int _ => false
  | Text _ => false
  end.

(** The cells of a row under one label: [row[label]] is that one cell when
    the label is unique, and a Series of them when it is repeated. *)
Fixpoint select (cols : list pystr) (label : pystr) (row : list cell)
  : list cell :=
  match cols, row with
  | c :: cols', x :: row' =>
      if pystr_eqb c label then x :: select cols' label row'
      else select cols' label row'
  | _, _ => []
  end.

(** [df.rename(columns=mapping)] on the labels. *)
Fixpoint lookup (mapping : list (pystr * pystr)) (c : pystr) : option pystr :=
  match mapping with
  | (k, v) :: mapping' => if pystr_eqb k c then Some v else lookup mapping' c
  | [] => None
  end.

Definition rename (mapping : list (pystr * pystr)) (cols : list pystr)
  : list pystr :=
  List.map (fun c => match lookup mapping c with
                     | Some c' => c'
                     | None => c
                     end) cols.

(** Apply [f] to the cells of a row that stand under [label]. *)
Fixpoint update (cols : list pystr) (label : pystr) (f : cell -> cell)
  (row : list cell) : list cell :=
  match cols, row with
  | c :: cols', x :: row' =>
      (if pystr_eqb c label then f x else x) :: update cols' label f row'
  | _, _ => row
  end.

Definition count_label (cols : list pystr) (label : pystr) : nat :=
  List.length (List.filter (pystr_eqb label) cols).

(* ================================================================== *)
(** ** Numbers *)

(** A numpy scalar, the value of a cell used as a number: a float64 or an
    int64. *)
Inductive number : Type :=
| Float64 (x : float)
| Int64 (n : Z).

(** An integer as an int64: what overflows wraps around. *)
Definition wrap64 (z : Z) : Z := (z + 2 ^ 63) mod 2 ^ 64 - 2 ^ 63.

(** [int -> float] for the integers from 0 to 2^63 - 1, rounded to the
    nearest float. *)
Definition float_of_Z (z : Z) : float := PrimFloat.of_uint63 (Uint63.of_Z z).

(** The float64 of an int64, rounded to the nearest float. *)
Definition float_of_int64 (n : Z) : float :=
  if n =? - 2 ^ 63 then (-0x1p63)%float
  else if n <? 0 then (- float_of_Z (- n))%float
  else float_of_Z n.

(** The float64 that a number is turned into where it meets a float, and
    where it is formatted. *)
Definition to_float (v : number) : float :=
  match v with
  | Float64 x => x
  | Int64 n => float_of_int64 n
  end.

(** [v2 - v1]: the difference of two int64 is an int64. *)
Definition difference (v2 v1 : number) : number :=
  match v2, v1 with
  | Int64 b, Int64 a => Int64 (wrap64 (b - a))
  | _, _ => Float64 (to_float v2 - to_float v1)
  end.

(* ================================================================== *)
(** ** The GPX document and the event trace *)

(** The arguments of one [_write_pt] call. The [trkpt] element is their
    rendering, [render_trkpt] below. *)
Record TrackPoint : Type := mkTrackPoint {
  pt_lat : number;
  pt_lon : number;
  pt_ele : number;
  pt_time : Z
}.

Definition segment := list TrackPoint.

(** The [trkseg] children of the [trk] element, in document order. *)
Definition gpx := list segment.

Inductive format_name : Type := Variflight | Footprint.

Inductive event : Type :=
| Recognized (fmt : format_name)
| Unrecognized (filename : pystr) (cols : list pystr)
| NoInput
| Processing (filename : pystr)
| Written (output_path : pystr) (doc : gpx)
| Converted (fmt : format_name) (pts_count : Z) (output_path : pystr)
| Failed (e : exn).

(** A computation that prints, writes files and may raise. *)
Definition M (A : Type) : Type := (list event * result A)%type.

Definition ret {A} (a : A) : M A := ([], Ok a).

Definition emit (e : event) : M unit := ([e], Ok tt).

Definition lift {A} (r : result A) : M A := ([], r).

Definition bind {A B} (m : M A) (f : A -> M B) : M B :=
  match m with
  | (log, Ok a) => let (log', r) := f a in (log ++ log', r)
  | (log, Raise e) => (log, Raise e)
  end.

Declare Scope M_scope.
Delimit Scope M_scope with M.
Notation "x <- c ;; k" := (bind c (fun x => k))
  (at level 61, c at next level, right associativity) : M_scope.
Notation "c ;; k" := (bind c (fun _ => k))
  (at level 61, right associativity) : M_scope.

(* ================================================================== *)
(** ** Schema Normalizer *)

Section Normalizer.

(** The numeric parser of [pd.to_numeric] on one text object: the number
    it reads, or [None] where it fails. *)
Variable parse_number : pystr -> option float.

(** [pd.to_numeric(..., errors='coerce')] on one cell. *)
Definition to_numeric (c : cell) : cell :=
  match c with
  | Num x => Num x
  | Int n => Int n
  | Text s => match parse_number s with
              | Some x => Num x
              | None => Num nan
              end
  end.

(** [df['timestamp'] = pd.to_numeric(df['timestamp'], errors='coerce')].
    With a repeated label [df['timestamp']] is a frame, which
    [pd.to_numeric] refuses. *)
Definition coerce_timestamp (df : DataFrame) : result DataFrame :=
  match count_label (columns df) (str "timestamp") with
  | O => Raise KeyError
  | S O =>
      Ok (mkDataFrame (columns df)
            (List.map (update (columns df) (str "timestamp") to_numeric)
               (rows df)))
  | _ => Raise TypeError
  end.

Definition standardize_dataframe (df : DataFrame) (filename : pystr)
  : M (option (DataFrame * format_name)) :=
  let cols := List.map strip (columns df) in
  if contains cols (str "Time") && contains cols (str "Latitude")
     && contains cols (str "Longitude")
  then
    (emit (Recognized Variflight) ;;
     let df := mkDataFrame
                 (rename [(str "Time", str "timestamp");
                          (str "Latitude", str "lat");
                          (str "Longitude", str "lon");
                          (str "Height", str "ele")] cols)
                 (rows df) in
     df <- lift (coerce_timestamp df) ;;
     ret (Some (df, Variflight)))%M
  else if contains cols (str "dataTime") && contains cols (str "latitude")
          && contains cols (str "longitude")
  then
    (emit (Recognized Footprint) ;;
     let df := mkDataFrame
                 (rename [(str "dataTime", str "timestamp");
                          (str "latitude", str "lat");
                          (str "longitude", str "lon");
                          (str "altitude", str "ele")] cols)
                 (rows df) in
     df <- lift (coerce_timestamp df) ;;
     ret (Some (df, Footprint)))%M
  else
    (emit (Unrecognized filename cols) ;;
     ret None)%M.

End Normalizer.

(* ================================================================== *)
(** ** Instants *)

Definition MAX_GAP_SECONDS : Z := 300.
Definition INTERPOLATION_STEP : Z := 1.

(** Nanoseconds in a second: the resolution of [Timestamp]. *)
Definition NS : Z := 1000000000.

(** A float, truncated toward zero ([None] for NaN and the infinities). *)
Definition trunc (x : float) : option Z :=
  match Prim2SF x with
  | S754_zero _ => Some 0
  | S754_finite s m e =>
      let a := if 0 <=? e then Z.pos m * 2 ^ e else Z.pos m / 2 ^ (- e) in
      Some (if s then - a else a)
  | _ => None
  end.

(** [pd.to_datetime(x, unit='s')] on one element of a float64 column, as
    pandas 2.0 and 2.1 do it: NaN and the float of the NaT sentinel give
    NaT; the seconds are scaled to nanoseconds in float64, checked against
    the bounds of [Timestamp] and truncated (the two bounds themselves, as
    floats, pass the check and cast to the sentinel). Later versions round
    the fraction and have other bounds. *)
Definition to_datetime (x : float) : result (option Z) :=
  if PrimFloat.is_nan x || PrimFloat.eqb x (-0x1p63)%float then Ok None
  else
    let f := (x * 1e9)%float in
    if PrimFloat.ltb f (-0x1p63)%float || PrimFloat.ltb 0x1p63%float f
    then Raise OutOfBoundsDatetime
    else match trunc f with
         | Some t => if Z.abs t =? 2 ^ 63 then Ok None else Ok (Some t)
         | None => Raise OutOfBoundsDatetime
         end.

(** [pd.to_datetime(n, unit='s')] on one element of an int64 column, as
    pandas 2 does it: the least int64 is the NaT sentinel, every other
    count of seconds is scaled exactly and refused when it leaves the
    bounds of [Timestamp]. *)
Definition to_datetime_int (n : Z) : result (option Z) :=
  if n =? - 2 ^ 63 then Ok None
  else
    let t := n * NS in
    if (t <? - 2 ^ 63) || (2 ^ 63 <=? t) then Raise OutOfBoundsDatetime
    else Ok (Some t).

(** What [Timedelta.total_seconds] keeps of a difference of instants: the
    whole count of nanoseconds, or, as pandas 1.1 to 2.3 do, its whole
    microseconds only. *)
Inductive resolution : Type :=
| Nanoseconds
| Microseconds.

Existing Class resolution.

(** The nanoseconds in one unit of the resolution. *)
Definition tick (res : resolution) : Z :=
  match res with
  | Nanoseconds => 1
  | Microseconds => 1000
  end.

Section Library.

(** The resolution of [total_seconds]: what the builder computes is
    defined for either one. *)
Context {res : resolution}.

(** [td.total_seconds()] of a difference of [d] nanoseconds, as the count
    of nanoseconds that the float stands for: the days, seconds and
    microseconds of the difference, the last ones rounded down. *)
Definition total_seconds (d : Z) : Z := d / tick res * tick res.

(** [(t2 - t1).total_seconds()]; it is NaN ([None]) when either instant is
    NaT. *)
Definition time_diff (t1 t2 : option Z) : option Z :=
  match t1, t2 with
  | Some a, Some b => Some (total_seconds (b - a))
  | _, _ => None
  end.

(** [t + datetime.timedelta(seconds=n)] *)
Definition add_seconds (t : option Z) (n : Z) : option Z :=
  option_map (fun z => z + n * NS) t.

(* ================================================================== *)
(** ** Track Builder *)

(** A row of the frame once the [dt_object] column is set. *)
Record Row : Type := mkRow {
  dt_object : option Z;
  cells : list cell
}.

(** The instant of one row: the column is float64 or int64 after
    [standardize_dataframe]. *)
Definition row_datetime (cols : list pystr) (row : list cell)
  : result Row :=
  match select cols (str "timestamp") row with
  | [Num x] => (t <- to_datetime x ;; Ok (mkRow t row))%result
  | [Int n] => (t <- to_datetime_int n ;; Ok (mkRow t row))%result
  | [] => Raise KeyError
  | _ => Raise BadValue
  end.

Fixpoint rows_datetime (cols : list pystr) (rs : list (list cell))
  : result (list Row) :=
  match rs with
  | [] => Ok []
  | r :: rs' =>
      (r1 <- row_datetime cols r ;;
       rs1 <- rows_datetime cols rs' ;;
       Ok (r1 :: rs1))%result
  end.

(** [pd.to_datetime(df['timestamp'], unit='s')]: [df['timestamp']] is one
    column where the label is there once. *)
Definition with_datetime (cols : list pystr) (rs : list (list cell))
  : result (list Row) :=
  match count_label cols (str "timestamp") with
  | O => Raise KeyError
  | S O => rows_datetime cols rs
  | _ => Raise BadValue
  end.

(** The order of rows sorted by [dt_object]: ascending instants, NaT
    last. *)
Definition key_le (a b : option Z) : bool :=
  match a, b with
  | Some x, Some y => x <=? y
  | _, None => true
  | None, Some _ => false
  end.

Fixpoint insert_row (r : Row) (l : list Row) : list Row :=
  match l with
  | [] => [r]
  | h :: t =>
      if key_le (dt_object r) (dt_object h) then r :: l
      else h :: insert_row r t
  end.

(** A sort by [dt_object] that keeps rows of equal instants in their
    original order. *)
Definition stable_sort (l : list Row) : list Row :=
  fold_right insert_row [] l.

(** The order of two rows by [dt_object]. *)
Definition key_order (a b : Row) : Prop :=
  key_le (dt_object a) (dt_object b) = true.

(** [s] is a result that sorting [l] by [dt_object] may give: the same rows,
    in ascending order, NaT last. The order among rows of equal instants is
    left open. *)
Definition sorting_of (l s : list Row) : Prop :=
  Permutation l s /\ Sorted key_order s.

(** What [df.sort_values(by='dt_object').reset_index(drop=True)] is known
    to be: a function that sorts. pandas leaves the order of rows of equal
    instants to the sorting algorithm, so the builder takes the function as
    a parameter, and its properties hold for every function that sorts. *)
Definition sorts (sort_values : list Row -> list Row) : Prop :=
  forall l, sorting_of l (sort_values l).

(** The row test of [df.dropna(subset=['lat', 'lon', 'timestamp'])]. *)
Definition notna_row (cols : list pystr) (r : Row) : bool :=
  negb (existsb isna (select cols (str "lat") (cells r)))
  && negb (existsb isna (select cols (str "lon") (cells r)))
  && negb (existsb isna (select cols (str "timestamp") (cells r))).

Definition dropna (cols : list pystr) (l : list Row) : result (list Row) :=
  if contains cols (str "lat") && contains cols (str "lon")
     && contains cols (str "timestamp")
  then Ok (List.filter (notna_row cols) l)
  else Raise KeyError.

(** A value used as a number: one float64 or one int64. *)
Definition as_number (v : list cell) : result number :=
  match v with
  | [Num x] => Ok (Float64 x)
  | [Int n] => Ok (Int64 n)
  | [] => Raise KeyError
  | _ => Raise BadValue
  end.

(** A value used as an instant: NaT has no [strftime]. *)
Definition as_instant (t : option Z) : result Z :=
  match t with
  | Some z => Ok z
  | None => Raise BadValue
  end.

Definition _write_pt (trkseg : segment) (lat lon ele : list cell)
  (time_obj : option Z) : result segment :=
  (a <- as_number lat ;;
   b <- as_number lon ;;
   c <- as_number ele ;;
   t <- as_instant time_obj ;;
   Ok (trkseg ++ [mkTrackPoint a b c t]))%result.

(** [v1 + (v2 - v1) * fraction]: the difference is taken in the type of
    the column, the product and the sum in float64. *)
Definition lerp (v1 v2 : list cell) (fraction : float) : result (list cell) :=
  (x <- as_number v1 ;;
   y <- as_number v2 ;;
   Ok [Num (to_float x + to_float (difference y x) * fraction)%float])%result.

(** The state of the loop: [trk] holds the [trkseg] children of the track
    that are closed, [trkseg] is the child the variable of that name refers
    to (the last one), [count_generated] the counter. *)
Record builder : Type := mkBuilder {
  trk : list segment;
  trkseg : segment;
  count_generated : Z
}.

(** [range(n)] *)
Definition range (n : Z) : list Z :=
  List.map Z.of_nat (seq 0 (Z.to_nat n)).

(** The loop [for step in range(steps)]. *)
Fixpoint interpolate (steps : Z) (lat1 lon1 ele1 lat2 lon2 ele2 : list cell)
  (t1 : option Z) (rng : list Z) (st : builder) : result builder :=
  match rng with
  | [] => Ok st
  | step :: rng' =>
      let fraction := (float_of_Z step / float_of_Z steps)%float in
      (i_lat <- lerp lat1 lat2 fraction ;;
       i_lon <- lerp lon1 lon2 fraction ;;
       i_ele <- lerp ele1 ele2 fraction ;;
       let i_time := add_seconds t1 step in
       seg <- _write_pt (trkseg st) i_lat i_lon i_ele i_time ;;
       interpolate steps lat1 lon1 ele1 lat2 lon2 ele2 t1 rng'
         (mkBuilder (trk st) seg (count_generated st + 1)))%result
  end.

(** The body of [for i in range(len(df) - 1)] on [curr] and [next_p]. *)
Definition visit (cols : list pystr) (curr next_p : Row) (st : builder)
  : result builder :=
  let t1 := dt_object curr in
  let t2 := dt_object next_p in
  let lat1 := select cols (str "lat") (cells curr) in
  let lon1 := select cols (str "lon") (cells curr) in
  let ele1 := select cols (str "ele") (cells curr) in
  let lat2 := select cols (str "lat") (cells next_p) in
  let lon2 := select cols (str "lon") (cells next_p) in
  let ele2 := select cols (str "ele") (cells next_p) in
  match time_diff t1 t2 with
  | Some d =>
      if d >? MAX_GAP_SECONDS * NS then
        (seg <- _write_pt (trkseg st) lat1 lon1 ele1 t1 ;;
         Ok (mkBuilder (trk st ++ [seg]) [] (count_generated st)))%result
      else if d <=? INTERPOLATION_STEP * NS then
        (seg <- _write_pt (trkseg st) lat1 lon1 ele1 t1 ;;
         Ok (mkBuilder (trk st) seg (count_generated st + 1)))%result
      else
        let steps := d / (INTERPOLATION_STEP * NS) in
        interpolate steps lat1 lon1 ele1 lat2 lon2 ele2 t1 (range steps) st
  | None => Raise BadValue   (* int(nan) *)
  end.

Fixpoint loop (cols : list pystr) (l : list Row) (st : builder)
  : result builder :=
  match l with
  | curr :: (next_p :: _) as rest =>
      (st' <- visit cols curr next_p st ;; loop cols rest st')%result
  | _ => Ok st
  end.

Section TrackBuilder.

(** [df.sort_values(by='dt_object').reset_index(drop=True)] *)
Variable sort_values : list Row -> list Row.

(** Lines 65 and 66: sort, then drop the invalid rows. *)
Definition sort_then_drop (cols : list pystr) (rs : list Row)
  : result (list Row) :=
  dropna cols (sort_values rs).

(** Lines 61 to 66: the frame the loop runs over. The new [ele] column is
    put in front; every later access is by label. More than one raw column
    named [dt_object] makes the sort key ambiguous. *)
Definition prepare (df : DataFrame) : result (list pystr * list Row) :=
  let df :=
    if contains (columns df) (str "ele") then df
    else mkDataFrame (str "ele" :: columns df)
           (List.map (cons (Int 0)) (rows df)) in
  (rs <- with_datetime (columns df) (rows df) ;;
   if (2 <=? count_label (columns df) (str "dt_object"))%nat
   then Raise BadValue
   else
     rs <- sort_then_drop (columns df) rs ;;
     Ok (columns df, rs))%result.

(** [df.iloc[-1]] *)
Fixpoint iloc_last {A} (l : list A) : result A :=
  match l with
  | [] => Raise IndexError
  | [x] => Ok x
  | _ :: l' => iloc_last l'
  end.

(** Lines 68 to 107: the loop over the frame and the write of its last
    row; the document and the counter. *)
Definition emit_track (cols : list pystr) (rs : list Row)
  : result (gpx * Z) :=
  (st <- loop cols rs (mkBuilder [] [] 0) ;;
   last <- iloc_last rs ;;
   seg <- _write_pt (trkseg st)
            (select cols (str "lat") (cells last))
            (select cols (str "lon") (cells last))
            (select cols (str "ele") (cells last))
            (dt_object last) ;;
   Ok (trk st ++ [seg], count_generated st))%result.

(** Lines 61 to 107. *)
Definition build_track (df : DataFrame) : result (gpx * Z) :=
  (p <- prepare df ;; emit_track (fst p) (snd p))%result.

Definition process_and_generate_gpx (df : DataFrame) (output_path : pystr)
  : M Z :=
  (p <- lift (build_track df) ;;
   emit (Written output_path (fst p)) ;;
   ret (snd p))%M.

End TrackBuilder.

(* ================================================================== *)
(** ** Rendering of a point *)

Fixpoint digits_from (fuel : nat) (n : Z) (acc : pystr) : pystr :=
  let acc' := Z.to_N (48 + n mod 10) :: acc in
  match fuel with
  | O => acc'
  | S fuel' => if n <? 10 then acc' else digits_from fuel' (n / 10) acc'
  end.

(** The decimal digits of a natural number. *)
Definition digits (n : Z) : pystr := digits_from (Z.to_nat (Z.log2 n)) n [].

(** [s.zfill(width)] *)
Definition zfill (width : nat) (s : pystr) : pystr :=
  repeat 48%N (width - List.length s) ++ s.

(** [num / den] rounded to the nearest integer, ties to even. *)
Definition round_half_even (num den : Z) : Z :=
  let q := num / den in
  let r := num mod den in
  if (den <? 2 * r) || ((2 * r =? den) && Z.odd q) then q + 1 else q.

Definition fixed (prec : nat) (q : Z) : pystr :=
  let unit := 10 ^ Z.of_nat prec in
  digits (q / unit) ++ str "." ++ zfill prec (digits (q mod unit)).

(** [f"{x:.<prec>f}"]: the exact value of [x] rounded to [prec] decimals.
    An int64 is formatted as its float64. *)
Definition format_f (prec : nat) (x : float) : pystr :=
  let sign (s : bool) := if s then str "-" else [] in
  match Prim2SF x with
  | S754_nan => str "nan"
  | S754_infinity s => sign s ++ str "inf"
  | S754_zero s => sign s ++ fixed prec 0
  | S754_finite s m e =>
      let n := Z.pos m * 10 ^ Z.of_nat prec in
      let q := if 0 <=? e then n * 2 ^ e else round_half_even n (2 ^ (- e)) in
      sign s ++ fixed prec q
  end.

(** [time_obj.strftime('%Y-%m-%dT%H:%M:%SZ')]: the civil date of the day
    and the time of day, to the second. *)
Definition strftime (t : Z) : pystr :=
  let secs := t / NS in
  let days := secs / 86400 in
  let sod := secs mod 86400 in
  let z := days + 719468 in
  let era := z / 146097 in
  let doe := z mod 146097 in
  let yoe := (doe - doe / 1460 + doe / 36524 - doe / 146096) / 365 in
  let doy := doe - (365 * yoe + yoe / 4 - yoe / 100) in
  let mp := (5 * doy + 2) / 153 in
  let d := doy - (153 * mp + 2) / 5 + 1 in
  let m := if mp <? 10 then mp + 3 else mp - 9 in
  let y := yoe + era * 400 + (if m <=? 2 then 1 else 0) in
  zfill 4 (digits y) ++ str "-" ++ zfill 2 (digits m) ++ str "-"
  ++ zfill 2 (digits d) ++ str "T" ++ zfill 2 (digits (sod / 3600))
  ++ str ":" ++ zfill 2 (digits (sod / 60 mod 60)) ++ str ":"
  ++ zfill 2 (digits (sod mod 60)) ++ str "Z".

(** The [trkpt] element that [_write_pt] adds: the attributes [lat] and
    [lon], the text of [ele] and the text of [time]. *)
Record trkpt : Type := mkTrkpt {
  attr_lat : pystr;
  attr_lon : pystr;
  text_ele : pystr;
  text_time : pystr
}.

Definition render_trkpt (p : TrackPoint) : trkpt :=
  mkTrkpt (format_f 6 (to_float (pt_lat p))) (format_f 6 (to_float (pt_lon p)))
    (format_f 2 (to_float (pt_ele p))) (strftime (pt_time p)).

(* ================================================================== *)
(** ** The batch *)

Definition OUTPUT_FOLDER : pystr := str "output".

(** [os.path.splitext(filename)[0]] of a base name: the name up to its last
    dot, unless only dots come before it. *)
Definition splitext_root (filename : pystr) : pystr :=
  let fix cut (r : pystr) : option pystr :=
    match r with
    | [] => None
    | c :: r' => if (c =? 46)%N then Some (rev r') else cut r'
    end in
  match cut (rev filename) with
  | Some root => if forallb (N.eqb 46) root then filename else root
  | None => filename
  end.

(** [os.path.join(OUTPUT_FOLDER, os.path.splitext(filename)[0] + ".gpx")] *)
Definition output_path_of (filename : pystr) : pystr :=
  OUTPUT_FOLDER ++ str "/" ++ splitext_root filename ++ str ".gpx".

(** A file that [glob] found: its base name and what [pd.read_csv] gives
    for it. *)
Record csv_file : Type := mkCsv {
  file_name : pystr;
  read_csv : result DataFrame
}.

Section Batch.

Variable parse_number : pystr -> option float.
Variable sort_values : list Row -> list Row.

(** The body of the [try] for one file. *)
Definition convert (f : csv_file) : M unit :=
  (df <- lift (read_csv f) ;;
   std <- standardize_dataframe parse_number df (file_name f) ;;
   match std with
   | Some (std_df, fmt_type) =>
       let output_path := output_path_of (file_name f) in
       pts_count <- process_and_generate_gpx sort_values std_df
                      output_path ;;
       emit (Converted fmt_type pts_count output_path)
   | None => ret tt
   end)%M.

(** One turn of [for file_path in csv_files], with its [except]. *)
Definition handle (f : csv_file) : list event :=
  Processing (file_name f) ::
  match convert f with
  | (log, Ok _) => log
  | (log, Raise e) => log ++ [Failed e]
  end.

Definition main (csv_files : list csv_file) : list event :=
  match csv_files with
  | [] => [NoInput]
  | _ => flat_map handle csv_files
  end.

End Batch.

(** The files that a run leaves in the output folder: for each path the
    document written last. *)
Fixpoint outputs (log : list event) : list (pystr * gpx) :=
  match log with
  | [] => []
  | Written path doc :: log' =>
      let rest := outputs log' in
      if existsb (fun p => pystr_eqb (fst p) path) rest then rest
      else (path, doc) :: rest
  | _ :: log' => outputs log'
  end.

(* ================================================================== *)
(** ** Vocabulary of the properties *)

(** The point that [_write_pt] makes of a row. *)
Definition point_of (cols : list pystr) (r : Row) : result TrackPoint :=
  (a <- as_number (select cols (str "lat") (cells r)) ;;
   b <- as_number (select cols (str "lon") (cells r)) ;;
   c <- as_number (select cols (str "ele") (cells r)) ;;
   t <- as_instant (dt_object r) ;;
   Ok (mkTrackPoint a b c t))%result.

Fixpoint points_of (cols : list pystr) (rs : list Row)
  : result (list TrackPoint) :=
  match rs with
  | [] => Ok []
  | r :: rs' =>
      (p <- point_of cols r ;;
       ps <- points_of cols rs' ;;
       Ok (p :: ps))%result
  end.

(** The point at [step] of [steps] on the way from [a] to [b]: position and
    elevation at the fraction [step / steps], time [step] seconds after
    [a]. *)
Definition interp_point (a b : TrackPoint) (steps step : Z) : TrackPoint :=
  let fraction := (float_of_Z step / float_of_Z steps)%float in
  let at_fraction (v1 v2 : number) :=
    Float64 (to_float v1 + to_float (difference v2 v1) * fraction)%float in
  mkTrackPoint
    (at_fraction (pt_lat a) (pt_lat b))
    (at_fraction (pt_lon a) (pt_lon b))
    (at_fraction (pt_ele a) (pt_ele b))
    (pt_time a + step * NS).

(** What one visit of the loop does to its state, on the points of the two
    rows. *)
Definition advance (a b : TrackPoint) (st : builder) : builder :=
  let d := total_seconds (pt_time b - pt_time a) in
  if d >? MAX_GAP_SECONDS * NS then
    mkBuilder (trk st ++ [trkseg st ++ [a]]) [] (count_generated st)
  else if d <=? INTERPOLATION_STEP * NS then
    mkBuilder (trk st) (trkseg st ++ [a]) (count_generated st + 1)
  else
    let steps := d / (INTERPOLATION_STEP * NS) in
    mkBuilder (trk st)
      (trkseg st ++ List.map (interp_point a b steps) (range steps))
      (count_generated st + Z.of_nat (List.length (range steps))).

Fixpoint advance_all (ps : list TrackPoint) (st : builder) : builder :=
  match ps with
  | a :: (b :: _) as rest => advance_all rest (advance a b st)
  | _ => st
  end.

(** Every two neighbours of a list are related by [R]. *)
Fixpoint chain {A} (R : A -> A -> Prop) (l : list A) : Prop :=
  match l with
  | x :: (y :: _) as rest => R x y /\ chain R rest
  | _ => True
  end.

(** The pairs of consecutive rows whose gap, the nanoseconds of
    [time_diff], satisfies [test]; each pair weighted by [weight] of its
    gap. *)
Fixpoint sum_gaps (test : Z -> bool) (weight : Z -> Z) (rs : list Row) : Z :=
  match rs with
  | curr :: (next_p :: _) as rest =>
      match time_diff (dt_object curr) (dt_object next_p) with
      | Some d => if test d then weight d else 0
      | None => 0
      end + sum_gaps test weight rest
  | _ => 0
  end.

(** The number of pairs that split the track. *)
Definition split_count : list Row -> Z :=
  sum_gaps (fun d => d >? MAX_GAP_SECONDS * NS) (fun _ => 1).

(** The number of points of the small-gap branch. *)
Definition small_gap_points : list Row -> Z :=
  sum_gaps (fun d => negb (d >? MAX_GAP_SECONDS * NS)
                     && (d <=? INTERPOLATION_STEP * NS))
    (fun _ => 1).

(** The number of points of the interpolation branch. *)
Definition interpolated_points : list Row -> Z :=
  sum_gaps (fun d => negb (d >? MAX_GAP_SECONDS * NS)
                     && negb (d <=? INTERPOLATION_STEP * NS))
    (fun d => d / (INTERPOLATION_STEP * NS)).

(** A row with the instant of a point. *)
Definition row_at (p : TrackPoint) : Row := mkRow (Some (pt_time p)) [].

(** [df.dropna(subset=['lat', 'lon', 'timestamp'])] on rows that have no
    instant yet. *)
Definition dropna_cells (cols : list pystr) (rows0 : list (list cell))
  : result (list (list cell)) :=
  if contains cols (str "lat") && contains cols (str "lon")
     && contains cols (str "timestamp")
  then Ok (List.filter (fun row => notna_row cols (mkRow None row)) rows0)
  else Raise KeyError.

(** Modelled on the spec's steps 1 and 2: lines 61 to 66 with the steps in
    the order of the spec. The records whose timestamp, latitude or
    longitude is missing are dropped first; the timestamps of the remaining
    ones are then converted to instants, and the records sorted. *)
Definition prepare_drop_first (sort_values : list Row -> list Row)
  (df : DataFrame) : result (list pystr * list Row) :=
  let df :=
    if contains (columns df) (str "ele") then df
    else mkDataFrame (str "ele" :: columns df)
           (List.map (cons (Int 0)) (rows df)) in
  (l <- dropna_cells (columns df) (rows df) ;;
   rs <- with_datetime (columns df) l ;;
   if (2 <=? count_label (columns df) (str "dt_object"))%nat
   then Raise BadValue
   else Ok (columns df, sort_values rs))%result.


(** A parser of non-negative decimal numerals, to run the normalizer on
    concrete frames. *)
Definition parse_digits (s : pystr) : option float :=
  match s with
  | [] => None
  | _ =>
      if forallb (fun c => (48 <=? c) && (c <=? 57))%N s
      then Some (float_of_Z
                   (fold_left (fun acc c => 10 * acc + (Z.of_N c - 48)) s 0))
      else None
  end.

(** One cell that holds a number. *)
Definition one_number (v : list cell) : Prop :=
  (exists x, v = [Num x]) \/ (exists n, v = [Int n]).


(** The document and the counter that the loop and the last write give, on
    the points of the rows. *)
Definition document (ps : list TrackPoint) : result (gpx * Z) :=
  (last <- iloc_last ps ;;
   let st := advance_all ps (mkBuilder [] [] 0) in
   Ok (trk st ++ [trkseg st ++ [last]], count_generated st))%result.

(** The order of the instants of two points. *)
Definition time_le (p q : TrackPoint) : Prop := pt_time p <= pt_time q.

(** Two instants, the second at most [MAX_GAP_SECONDS] after the first. *)
Definition max_gap (x y : Z) : Prop := y - x <= MAX_GAP_SECONDS * NS.

(** Two points in order, at most [MAX_GAP_SECONDS] apart. *)
Definition within_max_gap (p q : TrackPoint) : Prop :=
  0 <= pt_time q - pt_time p <= MAX_GAP_SECONDS * NS.

(** The segments of a state are free of gaps beyond the maximum, and so is
    the open segment with the next instant after it. *)
Definition tight (st : builder) (t : Z) : Prop :=
  Forall (fun seg => chain max_gap (List.map pt_time seg)) (trk st)
  /\ chain max_gap (List.map pt_time (trkseg st) ++ [t]).

(** All the points of a state, in the order of their emission. *)
Definition all_points (st : builder) : list TrackPoint :=
  List.concat (trk st) ++ trkseg st.

(** The points that the visit of one pair emits. *)
Definition emitted (a b : TrackPoint) : list TrackPoint :=
  all_points (advance a b (mkBuilder [] [] 0)).

(** The points that the loop emits, in order. *)
Fixpoint stream (ps : list TrackPoint) : list TrackPoint :=
  match ps with
  | a :: (b :: _) as rest => emitted a b ++ stream rest
  | _ => []
  end.



Definition frame_a : DataFrame :=
  mkDataFrame [str "Time"; str " Latitude"; str "Longitude "; str "Height"]
    [[Num 100%float; Num 1%float; Num 2%float; Num 10%float];
     [Num 110%float; Num 2%float; Num 4%float; Num 20%float]].

Definition frame_b : DataFrame :=
  mkDataFrame [str "dataTime"; str "latitude"; str "longitude"]
    [[Num 100%float; Num 1%float; Num 2%float];
     [Num 500%float; Num 2%float; Num 4%float]].

(** A Variflight frame with a column that is labelled timestamp already. *)
Definition frame_twice : DataFrame :=
  mkDataFrame [str "Time"; str "Latitude"; str "Longitude"; str "timestamp"]
    [[Num 100%float; Num 1%float; Num 2%float; Num 7%float]].

(** A normalized frame: rows out of order, one of them without latitude;
    once sorted, a gap of three seconds, one of one second and one of 396
    seconds. *)
Definition frame_std : DataFrame :=
  mkDataFrame [str "timestamp"; str "lat"; str "lon"; str "ele"]
    [[Num 500%float; Num 5%float; Num 50%float; Num 9%float];
     [Num 100%float; Num 1%float; Num 10%float; Num 3%float];
     [Num 104%float; Num 3%float; Num 30%float; Num 7%float];
     [Num 200%float; Num nan; Num 20%float; Num 0%float];
     [Num 103%float; Num 2%float; Num 20%float; Num 6%float]].

(** A normalized frame whose second row has no elevation. *)
Definition frame_nan_ele : DataFrame :=
  mkDataFrame [str "timestamp"; str "lat"; str "lon"; str "ele"]
    [[Num 100%float; Num 1%float; Num 10%float; Num 3%float];
     [Num 101%float; Num 2%float; Num 20%float; Num nan];
     [Num 500%float; Num 5%float; Num 50%float; Num 9%float]].

(** The valid rows of [frame_std], with their instants. *)
Definition row_100 : Row :=
  mkRow (Some 100000000000)
    [Num 100%float; Num 1%float; Num 10%float; Num 3%float].

Definition row_103 : Row :=
  mkRow (Some 103000000000)
    [Num 103%float; Num 2%float; Num 20%float; Num 6%float].

Definition row_104 : Row :=
  mkRow (Some 104000000000)
    [Num 104%float; Num 3%float; Num 30%float; Num 7%float].

Definition row_500 : Row :=
  mkRow (Some 500000000000)
    [Num 500%float; Num 5%float; Num 50%float; Num 9%float].

(** A normalized frame of two rows 300.0000001 seconds apart. *)
Definition frame_gap_300 : DataFrame :=
  mkDataFrame [str "timestamp"; str "lat"; str "lon"; str "ele"]
    [[Num 100%float; Num 1%float; Num 10%float; Num 3%float];
     [Num 0x1.90000001ad7f3p+8%float; Num 2%float; Num 20%float;
      Num 6%float]].

(** A normalized frame of two rows 1.0000005 seconds apart, the second
    without elevation. *)
Definition frame_gap_1 : DataFrame :=
  mkDataFrame [str "timestamp"; str "lat"; str "lon"; str "ele"]
    [[Num 100%float; Num 1%float; Num 10%float; Num 3%float];
     [Num 0x1.940000218def4p+6%float; Num 2%float; Num 20%float; Num nan]].

(** A normalized frame of two rows two seconds apart, with the greatest
    and the least int64 for elevations. *)
Definition frame_int_ele : DataFrame :=
  mkDataFrame [str "timestamp"; str "lat"; str "lon"; str "ele"]
    [[Num 100%float; Num 1%float; Num 10%float; Int (2 ^ 63 - 1)];
     [Num 102%float; Num 2%float; Num 20%float; Int (- 2 ^ 63)]].

(** A normalized frame with an infinite timestamp in a row without
    latitude. *)
Definition frame_inf_timestamp : DataFrame :=
  mkDataFrame [str "timestamp"; str "lat"; str "lon"; str "ele"]
    [[Num 100%float; Num 1%float; Num 10%float; Num 3%float];
     [Num infinity; Num nan; Num 20%float; Num 6%float]].

(** A normalized frame with two valid rows whose timestamps differ and
    fall in the same nanosecond, around a row without latitude. *)
Definition frame_same_instant : DataFrame :=
  mkDataFrame [str "timestamp"; str "lat"; str "lon"; str "ele"]
    [[Num 0x1.9000000000001p+6%float; Num 1%float; Num 10%float;
      Num 3%float];
     [Num 50%float; Num nan; Num 20%float; Num 6%float];
     [Num 0x1.9000000000002p+6%float; Num 2%float; Num 20%float;
      Num 6%float]].

(** A Footprint frame whose second row has a text for timestamp. *)
Definition frame_text_timestamp : DataFrame :=
  mkDataFrame [str "dataTime"; str "latitude"; str "longitude"]
    [[Text (str "100"); Num 1%float; Num 10%float];
     [Text (str "abc"); Num 2%float; Num 20%float];
     [Text (str "500"); Num 5%float; Num 50%float]].

(** A Variflight frame with its header and no row. *)
Definition frame_header_only : DataFrame :=
  mkDataFrame [str "Time"; str "Latitude"; str "Longitude"; str "Height"] [].

(** A Variflight frame whose only row has no latitude. *)
Definition frame_no_valid_row : DataFrame :=
  mkDataFrame [str "Time"; str "Latitude"; str "Longitude"; str "Height"]
    [[Num 100%float; Num nan; Num 10%float; Num 3%float]].

(* ================================================================== *)
(** ** Vocabulary of the further properties *)

(** The order of the instants of two points, strict. *)
Definition time_lt (p q : TrackPoint) : Prop := pt_time p < pt_time q.

(** Two instants in order, less than two interpolation steps apart. *)
Definition step_gap (x y : Z) : Prop :=
  0 <= y - x < 2 * INTERPOLATION_STEP * NS.

(** Two points in order, less than two interpolation steps apart. *)
Definition within_two_steps (p q : TrackPoint) : Prop :=
  step_gap (pt_time p) (pt_time q).

(** The segments of a state have no two neighbours two steps apart, and
    neither has the open segment with the next instant after it. *)
Definition dense (st : builder) (t : Z) : Prop :=
  Forall (fun seg => chain step_gap (List.map pt_time seg)) (trk st)
  /\ chain step_gap (List.map pt_time (trkseg st) ++ [t]).

Definition is_processing (e : event) : bool :=
  match e with
  | Processing _ => true
  | _ => false
  end.

(** The events that end the turn of a file: its document written, its
    failure reported, or its columns not recognised. *)
Definition is_outcome (e : event) : bool :=
  match e with
  | Written _ _ | Failed _ | Unrecognized _ _ => true
  | _ => false
  end.

(** The documents that a run writes, each with its path, in order. *)
Fixpoint written (log : list event) : list (pystr * gpx) :=
  match log with
  | [] => []
  | Written path doc :: log' => (path, doc) :: written log'
  | _ :: log' => written log'
  end.

(** The base names that [glob] gives for the pattern [*.csv]: they end in
    [.csv] and do not start with a dot (the comparison is that of POSIX,
    by code point). *)
Definition csv_glob (name : pystr) : bool :=
  match name with
  | c :: _ =>
      negb (c =? 46)%N
      && match rev name with
         | v :: s :: c :: d :: _ =>
             ((v =? 118) && (s =? 115) && (c =? 99) && (d =? 46))%N
         | _ => false
         end
  | [] => false
  end.

(** A code point that is a decimal digit. *)
Definition is_digit (c : N) : bool := ((48 <=? c) && (c <=? 57))%N.

(** The number that a text of decimal digits stands for. *)
Definition read_digits (s : pystr) : Z :=
  fold_left (fun acc c => 10 * acc + (Z.of_N c - 48)) s 0.

(** A text of [width] decimal digits. *)
Definition numeral (width : nat) (s : pystr) : Prop :=
  List.length s = width /\ forallb is_digit s = true.

(** The day, counted from the epoch, of a date of the civil calendar: the
    inverse of the computation of year, month and day in [strftime]. *)
Definition days_from_civil (y m d : Z) : Z :=
  let y := if m <=? 2 then y - 1 else y in
  let era := y / 400 in
  let yoe := y mod 400 in
  let mp := if 2 <? m then m - 3 else m + 9 in
  let doy := (153 * mp + 2) / 5 + d - 1 in
  let doe := yoe * 365 + yoe / 4 - yoe / 100 + doy in
  era * 146097 + doe - 719468.

(** The seconds, counted from the epoch, that the fields of a time text
    stand for. *)
Definition seconds_of_fields (y m d hh mi ss : Z) : Z :=
  ((days_from_civil y m d * 24 + hh) * 60 + mi) * 60 + ss.

(** The instants of [Timestamp]: the nanoseconds of a signed 64-bit count,
    the least one being the sentinel of NaT. *)
Definition in_timestamp_range (t : Z) : Prop := - 2 ^ 63 < t < 2 ^ 63.

(** [p] holds of the [len] integers from [start] on. *)
Fixpoint forall_from (len : nat) (start : Z) (p : Z -> bool) : bool :=
  match len with
  | O => true
  | S len' => if p start then forall_from len' (start + 1) p else false
  end.

(** The instants of a document, segment by segment. *)
Definition instants (doc : gpx) : list (list Z) :=
  List.map (List.map pt_time) doc.

(** The instants and the counter of a state of the loop. *)
Definition state_instants (st : builder) : list (list Z) * list Z * Z :=
  (instants (trk st), List.map pt_time (trkseg st), count_generated st).

(** [s.startswith(prefix)] *)
Fixpoint startswith (prefix s : pystr) : bool :=
  match prefix, s with
  | [], _ => true
  | a :: prefix', b :: s' => (a =? b)%N && startswith prefix' s'
  | _ :: _, [] => false
  end.

(** [s.replace(old, new)] for a non-empty [old]: the occurrences of [old]
    are taken from left to right, none overlapping the one before; [skip]
    counts the code points of the occurrence at hand that are still to be
    passed. *)
Fixpoint replace_from (old new : pystr) (skip : nat) (s : pystr) : pystr :=
  match s with
  | [] => []
  | c :: s' =>
      match skip with
      | S k => replace_from old new k s'
      | O =>
          if startswith old s
          then new ++ replace_from old new (List.length old - 1) s'
          else c :: replace_from old new 0 s'
      end
  end.

Definition str_replace (old new s : pystr) : pystr :=
  replace_from old new 0 s.

(** [os.path.basename(path)]: what follows the last slash. *)
Definition basename (path : pystr) : pystr :=
  let fix tail (r : pystr) : pystr :=
    match r with
    | [] => []
    | c :: r' => if (c =? 47)%N then [] else c :: tail r'
    end in
  rev (tail (rev path)).

(** The text of the [name] element of the track, line 70. *)
Definition track_name (output_path : pystr) : pystr :=
  str_replace (str ".gpx") [] (basename output_path).

(** [old] is found somewhere in [s]. *)
Definition occurs (old s : pystr) : Prop := exists a b, s = a ++ old ++ b.

Definition INPUT_FOLDER : pystr := str "input".

(** What [ensure_folders_exist] prints. *)
Inductive notice : Type :=
| InputCreated
| OutputCreated.

(** [ensure_folders_exist] on the paths that exist: what it prints and the
    paths that exist after it. [os.makedirs] is taken to succeed. *)
Definition ensure_folders_exist (fs : list pystr)
  : list notice * list pystr :=
  let (log1, fs1) :=
    if contains fs INPUT_FOLDER then ([], fs)
    else ([InputCreated], INPUT_FOLDER :: fs) in
  let (log2, fs2) :=
    if contains fs1 OUTPUT_FOLDER then ([], fs1)
    else ([OutputCreated], OUTPUT_FOLDER :: fs1) in
  (log1 ++ log2, fs2).

(** A sort by [dt_object] that puts rows of equal instants in the reverse
    of their original order. *)
Definition reversing_sort (l : list Row) : list Row := stable_sort (rev l).

(** A sort by [dt_object] whose order of rows of equal instants depends on
    how many rows there are. *)
Definition parity_sort (l : list Row) : list Row :=
  if Nat.even (List.length l) then stable_sort l else reversing_sort l.

(** A normalized frame with two rows at the same instant. *)
Definition frame_ties : DataFrame :=
  mkDataFrame [str "timestamp"; str "lat"; str "lon"; str "ele"]
    [[Num 100%float; Num 1%float; Num 10%float; Num 3%float];
     [Num 100%float; Num 2%float; Num 20%float; Num 6%float];
     [Num 103%float; Num 3%float; Num 30%float; Num 7%float]].

End Library.

(* ================================================================== *)
(** * Properties *)

(** ** Runs on the sample frames *)

Example strip_label : strip (str "  Latitude ") = str "Latitude".
Proof. reflexivity. Qed.

Example format_position :
  format_f 6 0x1.999999999999ap-4%float = str "0.100000".
Proof. vm_compute. reflexivity. Qed.

Example format_elevation_tie : format_f 2 0.125%float = str "0.12".
Proof. vm_compute. reflexivity. Qed.

Example format_negative : format_f 2 (-12.5)%float = str "-12.50".
Proof. vm_compute. reflexivity. Qed.

Example format_instant :
  strftime (1709210096 * NS + 999999999) = str "2024-02-29T12:34:56Z".
Proof. vm_compute. reflexivity. Qed.

Example instant_of_seconds :
  to_datetime 1700000000.5%float = Ok (Some 1700000000500000000).
Proof. vm_compute. reflexivity. Qed.

(** An int64 is formatted as its float64: the elevation that a frame
    without elevations gets, and an integer beyond 2^53. *)
Example format_integer :
  format_f 2 (to_float (Int64 0)) = str "0.00"
  /\ format_f 2 (to_float (Int64 9007199254740993))
     = str "9007199254740992.00".
Proof. split; vm_compute; reflexivity. Qed.

(** A column of integer seconds converts exactly, where the float64
    product does not. *)
Example instant_of_integer_seconds :
  to_datetime_int 5000000001 = Ok (Some 5000000001000000000)
  /\ to_datetime 5000000001%float = Ok (Some 5000000000999999488).
Proof. split; vm_compute; reflexivity. Qed.

(** Where a frame has the columns of both formats, the first match wins. *)
Example first_match_wins :
  fst (standardize_dataframe parse_digits
         (mkDataFrame [str "longitude"; str "Time"; str "latitude";
                       str "Latitude"; str "dataTime"; str "Longitude"] [])
         (str "both.csv"))
  = [Recognized Variflight].
Proof. vm_compute. reflexivity. Qed.

(** Two rows ten seconds apart: ten interpolated points and the last one,
    in one segment, at either resolution. *)
Example variflight_ten_seconds (res : resolution) :
  exists doc,
    main parse_digits stable_sort [mkCsv (str "a.csv") (Ok frame_a)]
    = [Processing (str "a.csv"); Recognized Variflight;
       Written (str "output/a.gpx") doc;
       Converted Variflight 10 (str "output/a.gpx")]
    /\ List.length doc = 1%nat
    /\ List.length (List.concat doc) = 11%nat.
Proof.
  destruct res; eexists; (split; [vm_compute; reflexivity|]);
    split; reflexivity.
Qed.

(** Two rows 400 seconds apart and no elevation: two segments of one point
    each, the elevation the integer 0, nothing counted. *)
Example footprint_split (res : resolution) :
  main parse_digits stable_sort [mkCsv (str "b.csv") (Ok frame_b)]
  = [Processing (str "b.csv"); Recognized Footprint;
     Written (str "output/b.gpx")
       [[mkTrackPoint (Float64 1) (Float64 2) (Int64 0) 100000000000];
        [mkTrackPoint (Float64 2) (Float64 4) (Int64 0) 500000000000]];
     Converted Footprint 0 (str "output/b.gpx")].
Proof. destruct res; vm_compute; reflexivity. Qed.

(** The rows of [frame_std]: sorted, the row without latitude dropped;
    three interpolated points, one of the small gap, a split. *)
Example sorted_interpolated_split (res : resolution) :
  let a := mkTrackPoint (Float64 1) (Float64 10) (Float64 3) 100000000000 in
  let b := mkTrackPoint (Float64 2) (Float64 20) (Float64 6) 103000000000 in
  build_track stable_sort frame_std
  = Ok ([[a; interp_point a b 3 1; interp_point a b 3 2; b;
          mkTrackPoint (Float64 3) (Float64 30) (Float64 7) 104000000000];
         [mkTrackPoint (Float64 5) (Float64 50) (Float64 9) 500000000000]],
        4).
Proof. destruct res; vm_compute; reflexivity. Qed.

(** ** Strings and labels *)

Lemma pystr_eqb_eq (a b : pystr) : pystr_eqb a b = true <-> a = b.
Proof.
  revert b; induction a as [|x a IH]; intros [|y b]; simpl;
    try (split; [discriminate | congruence]); try tauto.
  rewrite andb_true_iff, N.eqb_eq, IH.
  split; [intros [-> ->]; reflexivity | intros H; inversion H; auto].
Qed.

Lemma pystr_eqb_refl (a : pystr) : pystr_eqb a a = true.
Proof. apply pystr_eqb_eq; reflexivity. Qed.

Lemma contains_In (cols : list pystr) (label : pystr) :
  contains cols label = true <-> In label cols.
Proof.
  unfold contains. rewrite existsb_exists. split.
  - intros (x & Hin & Heq). apply pystr_eqb_eq in Heq. subst; assumption.
  - intros Hin. exists label. split; [assumption | apply pystr_eqb_refl].
Qed.

Lemma contains_false (cols : list pystr) (label : pystr) :
  contains cols label = false <-> ~ In label cols.
Proof.
  rewrite <- contains_In. destruct (contains cols label); split;
    congruence.
Qed.

Lemma count_label_In (cols : list pystr) (label : pystr) :
  In label cols -> (1 <= count_label cols label)%nat.
Proof.
  unfold count_label. induction cols as [|c cols IH]; simpl; [tauto|].
  intros [-> | Hin].
  - rewrite pystr_eqb_refl. simpl. lia.
  - destruct (pystr_eqb label c); simpl; auto with arith.
Qed.

Lemma rename_In mapping (cols : list pystr) (k v : pystr) :
  lookup mapping k = Some v -> In k cols -> In v (rename mapping cols).
Proof.
  intros Hl Hin. unfold rename. apply in_map_iff. exists k.
  rewrite Hl. auto.
Qed.

Lemma lstrip_spaces (l s : pystr) :
  Forall (fun c => isspace c = true) l -> lstrip (l ++ s) = lstrip s.
Proof.
  induction 1 as [|c l Hc _ IH]; simpl; [reflexivity|].
  rewrite Hc. exact IH.
Qed.

Lemma lstrip_fixed (c : N) (s : pystr) :
  isspace c = false -> lstrip (c :: s) = c :: s.
Proof. intros H. simpl. rewrite H. reflexivity. Qed.

(** [strip] removes the white space around a text that neither starts nor
    ends with white space. *)
Lemma strip_surrounding (l core r : pystr) :
  Forall (fun c => isspace c = true) l ->
  Forall (fun c => isspace c = true) r ->
  (forall c s, core = c :: s -> isspace c = false) ->
  (forall c s, core = s ++ [c] -> isspace c = false) ->
  strip (l ++ core ++ r) = core.
Proof.
  intros Hl Hr Hhead Hlast. unfold strip, rstrip.
  rewrite lstrip_spaces by assumption.
  destruct core as [|c core].
  - simpl. rewrite <- (app_nil_r r), lstrip_spaces by assumption.
    reflexivity.
  - rewrite <- app_comm_cons, lstrip_fixed by (eapply Hhead; reflexivity).
    rewrite app_comm_cons, rev_app_distr.
    rewrite lstrip_spaces
      by (apply Forall_forall; intros x Hx; apply in_rev in Hx;
          revert x Hx; apply Forall_forall; assumption).
    destruct (rev (c :: core)) as [|z zs] eqn:Hrev.
    + apply (f_equal (@rev N)) in Hrev. rewrite rev_involutive in Hrev.
      discriminate.
    + assert (Hz : isspace z = false).
      { apply (Hlast z (rev zs)).
        rewrite <- (rev_involutive (c :: core)), Hrev. reflexivity. }
      rewrite lstrip_fixed by assumption.
      rewrite <- Hrev. apply rev_involutive.
Qed.

(** ** Schema Normalizer *)

Lemma includes_iff (cols : list pystr) (a b c : pystr) :
  contains cols a && contains cols b && contains cols c = true
  <-> In a cols /\ In b cols /\ In c cols.
Proof.
  rewrite !andb_true_iff, !contains_In. tauto.
Qed.

Lemma includes_false (cols : list pystr) (a b c : pystr) :
  contains cols a && contains cols b && contains cols c = false
  <-> ~ (In a cols /\ In b cols /\ In c cols).
Proof.
  rewrite <- includes_iff.
  destruct (contains cols a && contains cols b && contains cols c);
    split; congruence.
Qed.

Section NormalizerFacts.

Variable parse_number : pystr -> option float.

Let variflight_map : list (pystr * pystr) :=
  [(str "Time", str "timestamp"); (str "Latitude", str "lat");
   (str "Longitude", str "lon"); (str "Height", str "ele")].

Let footprint_map : list (pystr * pystr) :=
  [(str "dataTime", str "timestamp"); (str "latitude", str "lat");
   (str "longitude", str "lon"); (str "altitude", str "ele")].

Let finish (fmt : format_name) (r : result DataFrame)
  : result (option (DataFrame * format_name)) :=
  match r with
  | Ok d => Ok (Some (d, fmt))
  | Raise e => Raise e
  end.

Lemma standardize_variflight df filename :
  let cols := List.map strip (columns df) in
  contains cols (str "Time") && contains cols (str "Latitude")
    && contains cols (str "Longitude") = true ->
  standardize_dataframe parse_number df filename =
  ([Recognized Variflight],
   finish Variflight
     (coerce_timestamp parse_number
        (mkDataFrame (rename variflight_map cols) (rows df)))).
Proof.
  intros cols H. unfold standardize_dataframe. fold cols. rewrite H.
  unfold bind, emit, lift, ret, finish, variflight_map.
  destruct (coerce_timestamp _ _); reflexivity.
Qed.

Lemma standardize_footprint df filename :
  let cols := List.map strip (columns df) in
  contains cols (str "Time") && contains cols (str "Latitude")
    && contains cols (str "Longitude") = false ->
  contains cols (str "dataTime") && contains cols (str "latitude")
    && contains cols (str "longitude") = true ->
  standardize_dataframe parse_number df filename =
  ([Recognized Footprint],
   finish Footprint
     (coerce_timestamp parse_number
        (mkDataFrame (rename footprint_map cols) (rows df)))).
Proof.
  intros cols HA HB. unfold standardize_dataframe. fold cols.
  rewrite HA, HB.
  unfold bind, emit, lift, ret, finish, footprint_map.
  destruct (coerce_timestamp _ _); reflexivity.
Qed.

Lemma standardize_unrecognized df filename :
  let cols := List.map strip (columns df) in
  contains cols (str "Time") && contains cols (str "Latitude")
    && contains cols (str "Longitude") = false ->
  contains cols (str "dataTime") && contains cols (str "latitude")
    && contains cols (str "longitude") = false ->
  standardize_dataframe parse_number df filename =
  ([Unrecognized filename cols], Ok None).
Proof.
  intros cols HA HB. unfold standardize_dataframe. fold cols.
  rewrite HA, HB. reflexivity.
Qed.

Lemma coerce_timestamp_cases (d : DataFrame) :
  In (str "timestamp") (columns d) ->
  (coerce_timestamp parse_number d =
     Ok (mkDataFrame (columns d)
           (List.map (update (columns d) (str "timestamp")
                        (to_numeric parse_number)) (rows d)))
   /\ count_label (columns d) (str "timestamp") = 1%nat)
  \/ (coerce_timestamp parse_number d = Raise TypeError
      /\ (2 <= count_label (columns d) (str "timestamp"))%nat).
Proof.
  intros Hin. apply count_label_In in Hin. unfold coerce_timestamp.
  destruct (count_label (columns d) (str "timestamp")) as [|[|n]].
  - lia.
  - left; split; reflexivity.
  - right; split; [reflexivity | lia].
Qed.

(** C5, as amended: the labels are stripped first; the normalizer then
    recognises Variflight exactly when the stripped labels include Time,
    Latitude and Longitude, whatever else is there; otherwise Footprint
    exactly when they include dataTime, latitude and longitude; otherwise
    it gives the unrecognized signal. On a recognised frame it returns the
    frame with the recognised format exactly when the renaming leaves one
    column labelled timestamp, and raises TypeError, the only exception it
    raises, exactly when the renaming leaves several. *)
Theorem standardize_dataframe_detection df filename :
  let cols := List.map strip (columns df) in
  let A := In (str "Time") cols /\ In (str "Latitude") cols
           /\ In (str "Longitude") cols in
  let B := In (str "dataTime") cols /\ In (str "latitude") cols
           /\ In (str "longitude") cols in
  let run := standardize_dataframe parse_number df filename in
  let timestamps (mapping : list (pystr * pystr)) :=
    count_label (rename mapping cols) (str "timestamp") in
  (fst run = [Recognized Variflight] <-> A) /\
  (fst run = [Recognized Footprint] <-> ~ A /\ B) /\
  (run = ([Unrecognized filename cols], Ok None) <-> ~ A /\ ~ B) /\
  (snd run = Ok None <-> ~ A /\ ~ B) /\
  ((exists std, snd run = Ok (Some (std, Variflight)))
   <-> A /\ timestamps variflight_map = 1%nat) /\
  ((exists std, snd run = Ok (Some (std, Footprint)))
   <-> ~ A /\ B /\ timestamps footprint_map = 1%nat) /\
  (snd run = Raise TypeError
   <-> (A /\ (2 <= timestamps variflight_map)%nat)
       \/ (~ A /\ B /\ (2 <= timestamps footprint_map)%nat)) /\
  (forall e, snd run = Raise e -> e = TypeError) /\
  (forall l core r,
     Forall (fun c => isspace c = true) l ->
     Forall (fun c => isspace c = true) r ->
     (forall c s, core = c :: s -> isspace c = false) ->
     (forall c s, core = s ++ [c] -> isspace c = false) ->
     In (l ++ core ++ r) (columns df) -> In core cols).
Proof.
  intros cols A B run timestamps.
  assert (Hstrip : forall l core r,
     Forall (fun c => isspace c = true) l ->
     Forall (fun c => isspace c = true) r ->
     (forall c s, core = c :: s -> isspace c = false) ->
     (forall c s, core = s ++ [c] -> isspace c = false) ->
     In (l ++ core ++ r) (columns df) -> In core cols).
  { intros l core r Hl Hr Hh Ht Hin. unfold cols. apply in_map_iff.
    exists (l ++ core ++ r). split; [|assumption].
    apply strip_surrounding; assumption. }
  destruct (contains cols (str "Time") && contains cols (str "Latitude")
            && contains cols (str "Longitude")) eqn:HA.
  - assert (Ha : A) by (apply includes_iff; exact HA).
    pose proof (standardize_variflight df filename HA) as E.
    fold cols run in E.
    destruct (coerce_timestamp_cases
                (mkDataFrame (rename variflight_map cols) (rows df)))
      as [[Hc Hn] | [Hc Hn]].
    { simpl. apply (rename_In variflight_map cols (str "Time"));
        [reflexivity | apply Ha]. }
    all: cbn [columns] in Hn; fold (timestamps variflight_map) in Hn.
    all: rewrite Hc in E; simpl in E; rewrite E; cbn [fst snd].
    all: repeat match goal with |- _ /\ _ => split end; try exact Hstrip.
    all: intuition (try discriminate; try congruence; try lia; eauto).
    all: repeat match goal with
           | H : exists _, _ |- _ => destruct H
           end; try discriminate; try congruence; try lia.
  - assert (Ha : ~ A) by (apply includes_false; exact HA).
    destruct (contains cols (str "dataTime")
              && contains cols (str "latitude")
              && contains cols (str "longitude")) eqn:HB.
    + assert (Hb : B) by (apply includes_iff; exact HB).
      pose proof (standardize_footprint df filename HA HB) as E.
      fold cols run in E.
      destruct (coerce_timestamp_cases
                  (mkDataFrame (rename footprint_map cols) (rows df)))
        as [[Hc Hn] | [Hc Hn]].
      { simpl. apply (rename_In footprint_map cols (str "dataTime"));
          [reflexivity | apply Hb]. }
      all: cbn [columns] in Hn; fold (timestamps footprint_map) in Hn.
      all: rewrite Hc in E; simpl in E; rewrite E; cbn [fst snd].
      all: repeat match goal with |- _ /\ _ => split end; try exact Hstrip.
      all: intuition (try discriminate; try congruence; try lia; eauto).
      all: repeat match goal with
             | H : exists _, _ |- _ => destruct H
             end; try discriminate; try congruence; try lia.
    + assert (Hb : ~ B) by (apply includes_false; exact HB).
      pose proof (standardize_unrecognized df filename HA HB) as E.
      fold cols run in E. rewrite E; cbn [fst snd].
      repeat match goal with |- _ /\ _ => split end; try exact Hstrip.
      all: intuition (try discriminate; try congruence; try lia; eauto).
      all: repeat match goal with
             | H : exists _, _ |- _ => destruct H
             end; try discriminate; try congruence; try lia.
Qed.

End NormalizerFacts.

(** The claim C5 as it stands fails on [frame_twice]: the stripped labels
    include Time, Latitude and Longitude, the frame is recognised as
    Variflight, and the normalizer does not return it: renaming [Time] next
    to a column that is already named [timestamp] leaves two columns of
    that name, and [pd.to_numeric] refuses the frame. *)
Lemma standardize_dataframe_detection_counterexample :
  let cols := List.map strip (columns frame_twice) in
  let run := standardize_dataframe parse_digits frame_twice
               (str "twice.csv") in
  (In (str "Time") cols /\ In (str "Latitude") cols
   /\ In (str "Longitude") cols)
  /\ run = ([Recognized Variflight], Raise TypeError)
  /\ ~ (exists std fmt, snd run = Ok (Some (std, fmt))).
Proof.
  cbv zeta. split; [apply includes_iff; vm_compute; reflexivity|].
  split; [vm_compute; reflexivity|].
  intros (std & fmt & H). vm_compute in H. discriminate H.
Qed.

(** The run of C5 on [frame_a], whose labels have white space around
    them. *)
Lemma standardize_dataframe_detection_witness :
  (exists std,
     snd (standardize_dataframe parse_digits frame_a (str "a.csv"))
     = Ok (Some (std, Variflight)))
  /\ In (str "Latitude") (List.map strip (columns frame_a))
  /\ In (str "Longitude") (List.map strip (columns frame_a)).
Proof.
  destruct (standardize_dataframe_detection parse_digits frame_a
              (str "a.csv"))
    as (_ & _ & _ & _ & H5 & _ & _ & _ & H9).
  split; [|split].
  - apply H5. split; [apply includes_iff|]; vm_compute; reflexivity.
  - apply (H9 [32%N] (str "Latitude") []).
    + repeat constructor.
    + constructor.
    + intros c s H. injection H as <- _. reflexivity.
    + intros c s H. apply (f_equal (@rev N)) in H.
      rewrite rev_app_distr in H. injection H as <- _. reflexivity.
    + simpl. auto.
  - apply (H9 [] (str "Longitude") [32%N]).
    + constructor.
    + repeat constructor.
    + intros c s H. injection H as <- _. reflexivity.
    + intros c s H. apply (f_equal (@rev N)) in H.
      rewrite rev_app_distr in H. injection H as <- _. reflexivity.
    + simpl. auto.
Defined.

(** ** The batch *)



Section BatchFacts.

(** The properties hold at either resolution of [total_seconds]. *)
Context {res : resolution}.
Variable parse_number : pystr -> option float.
Variable sort_values : list Row -> list Row.



End BatchFacts.


(** ** Track Builder: the loop, on the points of the rows *)

Ltac inv_ok :=
  repeat match goal with
    | H : Ok _ = Ok _ |- _ => injection H as H; try subst
    | H : Raise _ = Ok _ |- _ => discriminate H
    | H : Ok _ = Raise _ |- _ => discriminate H
    end.

Lemma rbind_Ok {A B} (r : result A) (f : A -> result B) (b : B) :
  rbind r f = Ok b -> exists a, r = Ok a /\ f a = Ok b.
Proof. destruct r; simpl; [eauto | discriminate]. Qed.

Section LoopFacts.

(** The properties hold at either resolution of [total_seconds]. *)
Context {res : resolution}.

(** What [total_seconds] drops is less than one unit of the resolution. *)
Lemma total_seconds_bounds (d : Z) :
  total_seconds d <= d < total_seconds d + tick res
  /\ (tick res = 1 \/ tick res = 1000).
Proof.
  unfold total_seconds. destruct res; cbn [tick];
    (split; [|auto]); Z.div_mod_to_equations; lia.
Qed.

(** It keeps the whole seconds: multiples of a second compare with it as
    with the difference itself. *)
Lemma total_seconds_whole (d k : Z) :
  k * NS <= total_seconds d <-> k * NS <= d.
Proof.
  unfold total_seconds, NS. destruct res; cbn [tick];
    Z.div_mod_to_equations; lia.
Qed.

Lemma total_seconds_floor (d : Z) :
  total_seconds d / (INTERPOLATION_STEP * NS) = d / (INTERPOLATION_STEP * NS).
Proof.
  unfold total_seconds, INTERPOLATION_STEP, NS. destruct res; cbn [tick].
  - rewrite Z.div_1_r, Z.mul_1_r. reflexivity.
  - change (1 * 1000000000) with (1000 * 1000000).
    rewrite <- Z.div_div by lia. rewrite Z.div_mul by lia.
    rewrite Z.div_div by lia. reflexivity.
Qed.

Lemma point_of_fields cols r p :
  point_of cols r = Ok p ->
  as_number (select cols (str "lat") (cells r)) = Ok (pt_lat p)
  /\ as_number (select cols (str "lon") (cells r)) = Ok (pt_lon p)
  /\ as_number (select cols (str "ele") (cells r)) = Ok (pt_ele p)
  /\ dt_object r = Some (pt_time p).
Proof.
  unfold point_of. intros H.
  apply rbind_Ok in H as (a & Ha & H).
  apply rbind_Ok in H as (b & Hb & H).
  apply rbind_Ok in H as (c & Hc & H).
  apply rbind_Ok in H as (t & Ht & H).
  inv_ok. simpl. destruct (dt_object r); simpl in Ht; inv_ok. auto.
Qed.

Lemma write_pt_point_of cols r seg :
  _write_pt seg (select cols (str "lat") (cells r))
    (select cols (str "lon") (cells r))
    (select cols (str "ele") (cells r)) (dt_object r)
  = (p <- point_of cols r ;; Ok (seg ++ [p]))%result.
Proof.
  unfold _write_pt, point_of.
  destruct (as_number (select cols (str "lat") (cells r))); [|reflexivity].
  destruct (as_number (select cols (str "lon") (cells r))); [|reflexivity].
  destruct (as_number (select cols (str "ele") (cells r))); [|reflexivity].
  destruct (as_instant (dt_object r)); reflexivity.
Qed.

Lemma interpolate_points steps a b lat1 lon1 ele1 lat2 lon2 ele2 rng :
  as_number lat1 = Ok (pt_lat a) -> as_number lon1 = Ok (pt_lon a) ->
  as_number ele1 = Ok (pt_ele a) ->
  as_number lat2 = Ok (pt_lat b) -> as_number lon2 = Ok (pt_lon b) ->
  as_number ele2 = Ok (pt_ele b) ->
  forall st,
  interpolate steps lat1 lon1 ele1 lat2 lon2 ele2 (Some (pt_time a)) rng st
  = Ok (mkBuilder (trk st)
          (trkseg st ++ List.map (interp_point a b steps) rng)
          (count_generated st + Z.of_nat (List.length rng))).
Proof.
  intros H1 H2 H3 H4 H5 H6.
  induction rng as [|step rng IH]; intros st.
  - simpl. rewrite app_nil_r, Z.add_0_r. destruct st; reflexivity.
  - cbn [interpolate]. unfold lerp. rewrite H1, H2, H3, H4, H5, H6.
    cbn [rbind _write_pt as_number as_instant add_seconds option_map].
    rewrite IH. cbn [trk trkseg count_generated List.map List.length].
    rewrite <- app_assoc, Nat2Z.inj_succ. f_equal. f_equal. lia.
Qed.

Lemma visit_points cols curr next_p a b st :
  point_of cols curr = Ok a -> point_of cols next_p = Ok b ->
  visit cols curr next_p st = Ok (advance a b st).
Proof.
  intros Ha Hb. unfold visit, advance.
  pose proof (point_of_fields _ _ _ Ha) as (A1 & A2 & A3 & A4).
  pose proof (point_of_fields _ _ _ Hb) as (B1 & B2 & B3 & B4).
  rewrite A4 at 1. rewrite B4. cbn [time_diff].
  destruct (total_seconds (pt_time b - pt_time a) >? MAX_GAP_SECONDS * NS).
  - rewrite write_pt_point_of, Ha. reflexivity.
  - destruct (total_seconds (pt_time b - pt_time a)
              <=? INTERPOLATION_STEP * NS).
    + rewrite write_pt_point_of, Ha. reflexivity.
    + rewrite A4. apply interpolate_points; assumption.
Qed.

Lemma range_succ (n : Z) :
  0 < n -> exists rng, range n = 0 :: rng.
Proof.
  intros H. unfold range. destruct (Z.to_nat n) eqn:E; [lia|].
  simpl. eauto.
Qed.

Lemma range_length (n : Z) :
  0 <= n -> Z.of_nat (List.length (range n)) = n.
Proof.
  intros H. unfold range. rewrite length_map, length_seq. lia.
Qed.

Lemma range_In (n k : Z) : In k (range n) <-> 0 <= k < n.
Proof.
  unfold range. rewrite in_map_iff. split.
  - intros (i & <- & Hi). apply in_seq in Hi. lia.
  - intros H. exists (Z.to_nat k). split; [lia|]. apply in_seq. lia.
Qed.

Lemma steps_positive (d : Z) :
  (d <=? INTERPOLATION_STEP * NS) = false ->
  0 < d / (INTERPOLATION_STEP * NS).
Proof.
  intros H. apply Z.leb_gt in H. unfold INTERPOLATION_STEP, NS in *.
  apply Z.div_str_pos. lia.
Qed.

Lemma visit_inv cols curr next_p st st' :
  visit cols curr next_p st = Ok st' ->
  exists a, point_of cols curr = Ok a.
Proof.
  unfold visit. intros H.
  destruct (time_diff (dt_object curr) (dt_object next_p)) as [d|] eqn:Hd;
    [|discriminate].
  destruct (d >? MAX_GAP_SECONDS * NS).
  { rewrite write_pt_point_of in H. apply rbind_Ok in H as (s & H & _).
    apply rbind_Ok in H as (p & H & _). eauto. }
  destruct (d <=? INTERPOLATION_STEP * NS) eqn:Hs.
  { rewrite write_pt_point_of in H. apply rbind_Ok in H as (s & H & _).
    apply rbind_Ok in H as (p & H & _). eauto. }
  cbv zeta in H.
  destruct (range_succ _ (steps_positive d Hs)) as (rng & Hr).
  rewrite Hr in H. cbn [interpolate] in H. unfold lerp in H.
  apply rbind_Ok in H as (i_lat & Hlat & H).
  apply rbind_Ok in H as (i_lon & Hlon & H).
  apply rbind_Ok in H as (i_ele & Hele & H).
  apply rbind_Ok in H as (seg & Hw & _).
  apply rbind_Ok in Hlat as (x & Hx & _).
  apply rbind_Ok in Hlon as (y & Hy & _).
  apply rbind_Ok in Hele as (e & He & _).
  unfold point_of. rewrite Hx, Hy, He.
  destruct (dt_object curr) as [z|]; [|discriminate].
  simpl. eauto.
Qed.

Lemma points_of_cons cols r rs ps :
  points_of cols (r :: rs) = Ok ps ->
  exists a ps', ps = a :: ps' /\ point_of cols r = Ok a
                /\ points_of cols rs = Ok ps'.
Proof.
  cbn [points_of]. intros H.
  apply rbind_Ok in H as (a & Ha & H).
  apply rbind_Ok in H as (ps' & Hps & H). inv_ok. eauto.
Qed.

Lemma loop_step cols r r2 rest st :
  loop cols (r :: r2 :: rest) st
  = (st' <- visit cols r r2 st ;; loop cols (r2 :: rest) st')%result.
Proof. reflexivity. Qed.

Lemma advance_all_step a b rest st :
  advance_all (a :: b :: rest) st = advance_all (b :: rest) (advance a b st).
Proof. reflexivity. Qed.

Lemma loop_points cols rs :
  forall ps st, points_of cols rs = Ok ps ->
  loop cols rs st = Ok (advance_all ps st).
Proof.
  induction rs as [|r rs IH]; intros ps st H.
  - simpl in H. inv_ok. reflexivity.
  - apply points_of_cons in H as (a & ps' & -> & Ha & Hps).
    destruct rs as [|r2 rest].
    + simpl in Hps. inv_ok. reflexivity.
    + pose proof Hps as Hps2.
      apply points_of_cons in Hps2 as (b & ps'' & -> & Hb & _).
      rewrite loop_step, advance_all_step.
      rewrite (visit_points _ _ _ _ _ _ Ha Hb). cbn [rbind].
      apply IH. exact Hps.
Qed.

Lemma iloc_last_points cols rs :
  forall ps l, points_of cols rs = Ok ps -> iloc_last rs = Ok l ->
  exists p, point_of cols l = Ok p /\ iloc_last ps = Ok p.
Proof.
  induction rs as [|r rs IH]; intros ps l H Hl; [discriminate|].
  apply points_of_cons in H as (a & ps' & -> & Ha & Hps).
  destruct rs as [|r2 rest].
  - simpl in Hps, Hl. inv_ok. eauto.
  - destruct (IH _ _ Hps Hl) as (p & Hp & Hlast).
    exists p. split; [assumption|].
    apply points_of_cons in Hps as (b & ps'' & -> & _ & _). exact Hlast.
Qed.

Lemma iloc_last_cases {A} (l : list A) :
  (l = [] /\ iloc_last l = Raise IndexError)
  \/ exists x, iloc_last l = Ok x.
Proof.
  induction l as [|x l IH]; [left; auto|right].
  destruct l as [|y l]; [simpl; eauto|].
  destruct IH as [[H _] | [z Hz]]; [discriminate | exists z; exact Hz].
Qed.

(** On rows that all have a point, the builder is [document] of the
    points. *)
Lemma emit_track_document cols rs ps :
  points_of cols rs = Ok ps -> emit_track cols rs = document ps.
Proof.
  intros H. unfold emit_track, document.
  rewrite (loop_points _ _ _ _ H). cbn [rbind].
  destruct (iloc_last_cases rs) as [[-> _] | [l Hl]].
  - simpl in H. inv_ok. reflexivity.
  - destruct (iloc_last_points _ _ _ _ H Hl) as (p & Hp & Hlast).
    rewrite Hl, Hlast. cbn [rbind].
    rewrite write_pt_point_of, Hp. reflexivity.
Qed.

Lemma loop_inv cols rs :
  forall st st' l p,
  loop cols rs st = Ok st' -> iloc_last rs = Ok l ->
  point_of cols l = Ok p ->
  exists ps, points_of cols rs = Ok ps.
Proof.
  induction rs as [|r rs IH]; intros st st' l p H Hl Hp; [discriminate|].
  destruct rs as [|r2 rest].
  - simpl in Hl. inv_ok. simpl. rewrite Hp. simpl. eauto.
  - rewrite loop_step in H. apply rbind_Ok in H as (st1 & Hv & H).
    apply visit_inv in Hv as (a & Ha).
    destruct (IH _ _ l p H Hl Hp) as (ps & Hps).
    exists (a :: ps). cbn [points_of]. cbn [points_of] in Hps.
    rewrite Ha, Hps. reflexivity.
Qed.

(** Where the builder returns, every row it ran over has a point. *)
Lemma emit_track_inv cols rs x :
  emit_track cols rs = Ok x ->
  exists ps, points_of cols rs = Ok ps /\ document ps = Ok x.
Proof.
  intros H. pose proof H as H0. unfold emit_track in H.
  apply rbind_Ok in H as (st & Hloop & H).
  apply rbind_Ok in H as (l & Hl & H).
  rewrite write_pt_point_of in H.
  apply rbind_Ok in H as (seg & H & _).
  apply rbind_Ok in H as (p & Hp & _).
  destruct (loop_inv _ _ _ _ _ _ Hloop Hl Hp) as (ps & Hps).
  exists ps. split; [assumption|].
  rewrite <- (emit_track_document _ _ _ Hps). exact H0.
Qed.

Lemma document_total (ps : list TrackPoint) :
  ps <> [] -> exists track n, document ps = Ok (track, n).
Proof.
  intros H. unfold document.
  destruct (iloc_last_cases ps) as [[-> _] | [l ->]]; [congruence|].
  simpl. eauto.
Qed.


(** ** The stream of emitted points *)

Lemma emitted_cases (a b : TrackPoint) :
  let d := total_seconds (pt_time b - pt_time a) in
  emitted a b =
  if d >? MAX_GAP_SECONDS * NS then [a]
  else if d <=? INTERPOLATION_STEP * NS then [a]
  else List.map (interp_point a b (d / (INTERPOLATION_STEP * NS)))
         (range (d / (INTERPOLATION_STEP * NS))).
Proof.
  intros d. unfold emitted, advance, all_points. fold d.
  destruct (d >? MAX_GAP_SECONDS * NS); [reflexivity|].
  destruct (d <=? INTERPOLATION_STEP * NS); reflexivity.
Qed.

Lemma all_points_advance (a b : TrackPoint) (st : builder) :
  all_points (advance a b st) = all_points st ++ emitted a b.
Proof.
  unfold emitted, advance, all_points.
  destruct (total_seconds (pt_time b - pt_time a) >? MAX_GAP_SECONDS * NS).
  { cbn [trk trkseg]. rewrite concat_app. simpl.
    rewrite !app_nil_r, app_assoc. reflexivity. }
  destruct (total_seconds (pt_time b - pt_time a) <=? INTERPOLATION_STEP * NS);
    cbn [trk trkseg]; simpl; rewrite app_assoc; reflexivity.
Qed.

Lemma all_points_advance_all (ps : list TrackPoint) :
  forall st, all_points (advance_all ps st) = all_points st ++ stream ps.
Proof.
  induction ps as [|a ps IH]; intros st.
  - simpl. rewrite app_nil_r. reflexivity.
  - destruct ps as [|b rest].
    + simpl. rewrite app_nil_r. reflexivity.
    + rewrite advance_all_step, IH, all_points_advance.
      rewrite <- app_assoc. reflexivity.
Qed.

Lemma stream_step a b rest :
  stream (a :: b :: rest) = emitted a b ++ stream (b :: rest).
Proof. reflexivity. Qed.

Lemma stream_app (before : list TrackPoint) (a : TrackPoint)
  (after : list TrackPoint) :
  stream (before ++ a :: after) = stream (before ++ [a]) ++ stream (a :: after).
Proof.
  induction before as [|x before IH].
  - reflexivity.
  - destruct before as [|y before].
    + simpl app. rewrite !stream_step. simpl (stream [a]).
      rewrite app_nil_r. reflexivity.
    + simpl app in *. rewrite !stream_step, IH, app_assoc. reflexivity.
Qed.

Lemma advance_all_app (before : list TrackPoint) (a : TrackPoint)
  (after : list TrackPoint) (st : builder) :
  advance_all (before ++ a :: after) st
  = advance_all (a :: after) (advance_all (before ++ [a]) st).
Proof.
  revert st. induction before as [|x before IH]; intros st.
  - reflexivity.
  - destruct before as [|y before].
    + simpl app. rewrite !advance_all_step. reflexivity.
    + simpl app in *. rewrite !advance_all_step, IH. reflexivity.
Qed.

Lemma iloc_last_app {A} (before : list A) (a : A) (after : list A) :
  iloc_last (before ++ a :: after) = iloc_last (a :: after).
Proof.
  induction before as [|x before IH]; [reflexivity|].
  destruct before as [|y before]; simpl app in *.
  - reflexivity.
  - rewrite <- IH. reflexivity.
Qed.

Lemma iloc_last_snoc {A} (before : list A) (a : A) :
  iloc_last (before ++ [a]) = Ok a.
Proof. rewrite iloc_last_app. reflexivity. Qed.

(** The document, flattened, is the stream of the loop and the last
    point. *)
Lemma document_points ps track n :
  document ps = Ok (track, n) ->
  exists last, iloc_last ps = Ok last
               /\ List.concat track = stream ps ++ [last].
Proof.
  unfold document. intros H. apply rbind_Ok in H as (last & Hl & H).
  cbv zeta in H. inv_ok. exists last. split; [assumption|].
  rewrite concat_app. simpl. rewrite app_nil_r, app_assoc.
  change (all_points (advance_all ps (mkBuilder [] [] 0)) ++ [last]
          = stream ps ++ [last]).
  rewrite all_points_advance_all. reflexivity.
Qed.

(** The closed segments that a state starts with stay as they are. *)
Lemma advance_all_closed (closed : list segment) (c : Z)
  (ps : list TrackPoint) :
  forall st,
  advance_all ps (mkBuilder (closed ++ trk st) (trkseg st)
                    (c + count_generated st))
  = let st' := advance_all ps st in
    mkBuilder (closed ++ trk st') (trkseg st') (c + count_generated st').
Proof.
  induction ps as [|a ps IH]; intros st; [reflexivity|].
  destruct ps as [|b rest]; [reflexivity|].
  rewrite !advance_all_step. rewrite <- IH. f_equal.
  unfold advance. cbn [trk trkseg count_generated].
  destruct (total_seconds (pt_time b - pt_time a) >? MAX_GAP_SECONDS * NS).
  { cbn [trk trkseg count_generated]. rewrite app_assoc. reflexivity. }
  destruct (total_seconds (pt_time b - pt_time a) <=? INTERPOLATION_STEP * NS);
    cbn [trk trkseg count_generated]; f_equal; lia.
Qed.

End LoopFacts.

(** ** Sorting and dropping *)

Lemma key_le_trans (a b c : option Z) :
  key_le a b = true -> key_le b c = true -> key_le a c = true.
Proof.
  destruct a, b, c; simpl; try congruence; rewrite ?Z.leb_le; lia.
Qed.

Lemma key_le_total (a b : option Z) :
  key_le a b = false -> key_le b a = true.
Proof.
  destruct a, b; simpl; try congruence.
  rewrite Z.leb_gt, Z.leb_le. lia.
Qed.

Lemma key_le_antisym (a b : option Z) :
  key_le a b = true -> key_le b a = true -> a = b.
Proof.
  destruct a, b; simpl; try congruence.
  rewrite !Z.leb_le. intros; f_equal; lia.
Qed.

#[local] Instance key_order_trans : RelationClasses.Transitive key_order.
Proof. intros a b c. unfold key_order. apply key_le_trans. Qed.

Lemma insert_row_perm (r : Row) (l : list Row) :
  Permutation (r :: l) (insert_row r l).
Proof.
  induction l as [|h t IH]; simpl; [reflexivity|].
  destruct (key_le (dt_object r) (dt_object h)); [reflexivity|].
  rewrite perm_swap. apply perm_skip. exact IH.
Qed.

Lemma insert_row_sorted (r : Row) (l : list Row) :
  Sorted key_order l -> Sorted key_order (insert_row r l).
Proof.
  induction 1 as [|h t Ht IH Hhd]; simpl.
  - repeat constructor.
  - destruct (key_le (dt_object r) (dt_object h)) eqn:E.
    + constructor; [constructor; assumption | constructor; exact E].
    + constructor; [exact IH|].
      apply key_le_total in E.
      destruct t as [|h' t']; simpl.
      * constructor. exact E.
      * destruct (key_le (dt_object r) (dt_object h')); constructor;
          [exact E | inversion Hhd; assumption].
Qed.

Lemma stable_sort_perm (l : list Row) : Permutation l (stable_sort l).
Proof.
  induction l as [|r l IH]; simpl; [reflexivity|].
  rewrite <- insert_row_perm. apply perm_skip. exact IH.
Qed.

Lemma stable_sort_sorted (l : list Row) : Sorted key_order (stable_sort l).
Proof.
  induction l as [|r l IH]; simpl; [constructor|].
  apply insert_row_sorted. exact IH.
Qed.

(** The stable sort is one of the functions that sort. *)
Lemma stable_sort_sorts : sorts stable_sort.
Proof.
  intros l. split; [apply stable_sort_perm | apply stable_sort_sorted].
Qed.

Lemma reversing_sort_sorts : sorts reversing_sort.
Proof.
  intros l. unfold reversing_sort. split.
  - rewrite <- stable_sort_perm. apply Permutation_rev.
  - apply stable_sort_sorted.
Qed.

Lemma parity_sort_sorts : sorts parity_sort.
Proof.
  intros l. unfold parity_sort. destruct (Nat.even (List.length l));
    [apply stable_sort_sorts | apply reversing_sort_sorts].
Qed.

Lemma insert_row_first (r : Row) (l : list Row) :
  Forall (key_order r) l -> insert_row r l = r :: l.
Proof.
  destruct l as [|h t]; [reflexivity|]. intros H.
  inversion H as [|? ? Hh _]; subst. simpl.
  unfold key_order in Hh. rewrite Hh. reflexivity.
Qed.

Lemma filter_insert_row (f : Row -> bool) (r : Row) (l : list Row) :
  StronglySorted key_order l ->
  List.filter f (insert_row r l)
  = if f r then insert_row r (List.filter f l) else List.filter f l.
Proof.
  induction 1 as [|h t Ht IH Hh].
  - simpl. destruct (f r); reflexivity.
  - cbn [insert_row].
    destruct (key_le (dt_object r) (dt_object h)) eqn:E.
    + cbn [List.filter]. destruct (f r); [|reflexivity].
      symmetry. apply (insert_row_first r (List.filter f (h :: t))).
      apply Forall_forall. intros y Hy. apply filter_In in Hy as [Hy _].
      destruct Hy as [<- | Hy]; [exact E|].
      apply (key_le_trans _ (dt_object h)); [exact E|].
      revert y Hy. apply Forall_forall. exact Hh.
    + cbn [List.filter]. rewrite IH.
      destruct (f h), (f r); try reflexivity.
      cbn [insert_row]. rewrite E. reflexivity.
Qed.

(** With the stable sort, dropping rows before sorting or after gives the
    same rows. *)
Lemma filter_stable_sort (f : Row -> bool) (l : list Row) :
  List.filter f (stable_sort l) = stable_sort (List.filter f l).
Proof.
  induction l as [|r l IH]; [reflexivity|].
  cbn [stable_sort fold_right List.filter].
  fold (stable_sort l).
  rewrite filter_insert_row
    by (apply Sorted_StronglySorted;
        [apply key_order_trans | apply stable_sort_sorted]).
  rewrite IH. destruct (f r); reflexivity.
Qed.

Lemma StronglySorted_filter {A} (R : A -> A -> Prop) (f : A -> bool)
  (l : list A) :
  StronglySorted R l -> StronglySorted R (List.filter f l).
Proof.
  induction 1 as [|x l Hl IH Hx]; simpl; [constructor|].
  destruct (f x); [|exact IH].
  constructor; [exact IH|].
  apply Forall_forall. intros y Hy. apply filter_In in Hy as [Hy _].
  revert y Hy. apply Forall_forall. exact Hx.
Qed.

Lemma StronglySorted_app {A} (R : A -> A -> Prop) (l1 l2 : list A) :
  StronglySorted R l1 -> StronglySorted R l2 ->
  (forall x y, In x l1 -> In y l2 -> R x y) ->
  StronglySorted R (l1 ++ l2).
Proof.
  induction 1 as [|x l1 Hl IH Hx]; intros H2 Hc; simpl; [exact H2|].
  constructor.
  - apply IH; [exact H2|]. intros a b Ha Hb. apply Hc; simpl; auto.
  - apply Forall_app. split; [exact Hx|].
    apply Forall_forall. intros y Hy. apply Hc; simpl; auto.
Qed.

Lemma StronglySorted_app_inv {A} (R : A -> A -> Prop) (l1 l2 : list A) :
  StronglySorted R (l1 ++ l2) ->
  StronglySorted R l1 /\ StronglySorted R l2
  /\ (forall x y, In x l1 -> In y l2 -> R x y).
Proof.
  induction l1 as [|x l1 IH]; simpl; intros H.
  - repeat split; [constructor | exact H | tauto].
  - inversion H as [|? ? Hs Hx]; subst.
    destruct (IH Hs) as (H1 & H2 & Hc).
    apply Forall_app in Hx as [Hx1 Hx2].
    repeat split; [constructor; assumption | assumption |].
    intros a b [<- | Ha] Hb; [|auto].
    revert b Hb. apply Forall_forall. exact Hx2.
Qed.

Section BuilderFacts.

(** The properties hold at either resolution of [total_seconds]. *)
Context {res : resolution}.
Variable sort_values : list Row -> list Row.
Hypothesis sort_values_sorts : sorts sort_values.

Lemma sort_then_drop_Ok cols l l' :
  sort_then_drop sort_values cols l = Ok l' ->
  l' = List.filter (notna_row cols) (sort_values l).
Proof.
  unfold sort_then_drop, dropna.
  destruct (contains cols (str "lat") && contains cols (str "lon")
            && contains cols (str "timestamp")); intros H; inv_ok.
  reflexivity.
Qed.

Lemma with_datetime_Ok cols rows0 rs :
  with_datetime cols rows0 = Ok rs -> rows_datetime cols rows0 = Ok rs.
Proof.
  unfold with_datetime.
  destruct (count_label cols (str "timestamp")) as [|[|k]];
    [discriminate | auto | discriminate].
Qed.

(** What [prepare] returns: the labels, with [ele] in front where the frame
    had none, and the rows with their instants, sorted, the invalid ones
    dropped. *)
Lemma prepare_inv df cols rs :
  prepare sort_values df = Ok (cols, rs) ->
  exists rows0 rs0,
    (cols, rows0)
    = (if contains (columns df) (str "ele") then (columns df, rows df)
       else (str "ele" :: columns df,
             List.map (cons (Int 0)) (rows df)))
    /\ rows_datetime cols rows0 = Ok rs0
    /\ rs = List.filter (notna_row cols) (sort_values rs0).
Proof.
  unfold prepare. intros H.
  destruct (contains (columns df) (str "ele")).
  - apply rbind_Ok in H as (rs0 & Hdt & H).
    apply with_datetime_Ok in Hdt.
    destruct (2 <=? count_label (columns df) (str "dt_object"))%nat;
      [discriminate|].
    apply rbind_Ok in H as (l & Hd & H). inv_ok.
    apply sort_then_drop_Ok in Hd. eauto.
  - cbn [columns rows] in H.
    apply rbind_Ok in H as (rs0 & Hdt & H).
    apply with_datetime_Ok in Hdt.
    destruct (2 <=? count_label (str "ele" :: columns df)
                      (str "dt_object"))%nat; [discriminate|].
    apply rbind_Ok in H as (l & Hd & H). inv_ok.
    apply sort_then_drop_Ok in Hd. eauto.
Qed.

(** The rows the loop runs over are in ascending order of their instants
    and are all valid. *)
Lemma prepare_sorted df cols rs :
  prepare sort_values df = Ok (cols, rs) ->
  StronglySorted key_order rs
  /\ Forall (fun r => notna_row cols r = true) rs.
Proof.
  intros H. apply prepare_inv in H as (rows0 & rs0 & _ & _ & ->). split.
  - apply StronglySorted_filter, Sorted_StronglySorted;
      [apply key_order_trans | apply sort_values_sorts].
  - apply Forall_forall. intros r Hr. apply filter_In in Hr. tauto.
Qed.

Lemma points_of_lower_bound cols (t : Z) :
  forall rs ps, points_of cols rs = Ok ps ->
  Forall (fun r => key_le (Some t) (dt_object r) = true) rs ->
  Forall (fun p => t <= pt_time p) ps.
Proof.
  induction rs as [|r rs IH]; intros ps H Hall.
  - simpl in H. inv_ok. constructor.
  - apply points_of_cons in H as (a & ps' & -> & Ha & Hps).
    inversion Hall as [|? ? Hr Hrs]; subst.
    constructor; [|apply IH; assumption].
    apply point_of_fields in Ha as (_ & _ & _ & Hdt).
    rewrite Hdt in Hr. simpl in Hr. apply Z.leb_le. exact Hr.
Qed.

Lemma points_of_sorted cols :
  forall rs ps, points_of cols rs = Ok ps ->
  StronglySorted key_order rs -> StronglySorted time_le ps.
Proof.
  induction rs as [|r rs IH]; intros ps H Hs.
  - simpl in H. inv_ok. constructor.
  - apply points_of_cons in H as (a & ps' & -> & Ha & Hps).
    inversion Hs as [|? ? Hs' Hr]; subst.
    constructor; [apply IH; assumption|].
    apply point_of_fields in Ha as (_ & _ & _ & Hdt).
    apply (points_of_lower_bound cols (pt_time a) rs); [assumption|].
    unfold key_order in Hr. rewrite Hdt in Hr. exact Hr.
Qed.

(** ** Order of the emitted points *)

Lemma range_sorted (n : Z) : StronglySorted Z.lt (range n).
Proof.
  unfold range. generalize (Z.to_nat n) as len. intros len.
  generalize 0%nat as start.
  induction len as [|len IH]; intros start; simpl; constructor.
  - apply IH.
  - apply Forall_forall. intros k Hk. apply in_map_iff in Hk as (i & <- & Hi).
    apply in_seq in Hi. lia.
Qed.

Lemma StronglySorted_map {A B} (R : A -> A -> Prop) (Q : B -> B -> Prop)
  (f : A -> B) (l : list A) :
  (forall x y, R x y -> Q (f x) (f y)) ->
  StronglySorted R l -> StronglySorted Q (List.map f l).
Proof.
  intros Hf. induction 1 as [|x l Hl IH Hx]; simpl; constructor.
  - exact IH.
  - apply Forall_forall. intros y Hy. apply in_map_iff in Hy as (z & <- & Hz).
    apply Hf. revert z Hz. apply Forall_forall. exact Hx.
Qed.

Lemma steps_bounds (d : Z) :
  0 <= d ->
  let steps := total_seconds d / (INTERPOLATION_STEP * NS) in
  steps * NS <= d < (steps + 1) * NS.
Proof.
  intros Hd steps. unfold steps. rewrite total_seconds_floor.
  unfold INTERPOLATION_STEP, NS.
  pose proof (Z.div_mod d 1000000000 ltac:(lia)).
  pose proof (Z.mod_pos_bound d 1000000000 ltac:(lia)).
  change (1 * 1000000000) with 1000000000. lia.
Qed.

(** The points of one visit lie between the two instants, in order, and the
    first is at the instant of the current row. *)
Lemma emitted_between (a b : TrackPoint) :
  pt_time a <= pt_time b ->
  StronglySorted time_le (emitted a b)
  /\ Forall (fun p => pt_time a <= pt_time p <= pt_time b) (emitted a b)
  /\ exists p rest, emitted a b = p :: rest /\ pt_time p = pt_time a.
Proof.
  intros Hab. rewrite emitted_cases. cbv zeta.
  destruct (total_seconds (pt_time b - pt_time a) >? MAX_GAP_SECONDS * NS).
  { repeat split; [repeat constructor | repeat constructor; lia | eauto]. }
  destruct (total_seconds (pt_time b - pt_time a)
            <=? INTERPOLATION_STEP * NS) eqn:Hs.
  { repeat split; [repeat constructor | repeat constructor; lia | eauto]. }
  pose proof (steps_bounds (pt_time b - pt_time a) ltac:(lia)) as Hb.
  cbv zeta in Hb.
  set (steps := total_seconds (pt_time b - pt_time a)
                / (INTERPOLATION_STEP * NS)) in *.
  repeat split.
  - apply (StronglySorted_map Z.lt); [|apply range_sorted].
    intros x y Hxy. unfold time_le, interp_point, NS. simpl. lia.
  - apply Forall_forall. intros p Hp.
    apply in_map_iff in Hp as (k & <- & Hk). apply range_In in Hk.
    unfold interp_point, NS in *. simpl. lia.
  - destruct (range_succ steps (steps_positive _ Hs)) as (rng & ->).
    simpl. eexists _, _. split; [reflexivity|]. simpl. lia.
Qed.

(** The stream of the loop followed by the last point. *)
Lemma emission_sorted (ps : list TrackPoint) :
  StronglySorted time_le ps ->
  forall a rest last, ps = a :: rest -> iloc_last ps = Ok last ->
  StronglySorted time_le (stream ps ++ [last])
  /\ Forall (fun p => pt_time a <= pt_time p) (stream ps ++ [last]).
Proof.
  induction 1 as [|x ps Hs IH Hx]; intros a rest last E Hl; [discriminate|].
  injection E as <- <-.
  destruct ps as [|b rest].
  - simpl in Hl. inv_ok. simpl. split; repeat constructor. lia.
  - assert (Hab : pt_time x <= pt_time b) by (inversion Hx; assumption).
    destruct (IH b rest last eq_refl Hl) as (IH1 & IH2).
    destruct (emitted_between x b Hab) as (E1 & E2 & _).
    rewrite stream_step, <- app_assoc. split.
    + apply StronglySorted_app; [assumption | assumption |].
      intros p q Hp Hq. unfold time_le.
      pose proof (proj1 (Forall_forall _ _) E2 p Hp) as Hp'.
      pose proof (proj1 (Forall_forall _ _) IH2 q Hq) as Hq'.
      simpl in *. lia.
    + apply Forall_app. split.
      * revert E2. apply Forall_impl. intros; lia.
      * revert IH2. apply Forall_impl. intros; lia.
Qed.

Lemma process_and_generate_gpx_run df output_path :
  process_and_generate_gpx sort_values df output_path
  = match build_track sort_values df with
    | Ok p => ([Written output_path (fst p)], Ok (snd p))
    | Raise e => ([], Raise e)
    end.
Proof.
  unfold process_and_generate_gpx, bind, lift, emit, ret.
  destruct (build_track sort_values df); reflexivity.
Qed.

(** The function writes the document and returns the counter exactly
    where lines 61 to 107 give them. *)
Lemma process_and_generate_gpx_inv df output_path track n :
  process_and_generate_gpx sort_values df output_path
  = ([Written output_path track], Ok n) ->
  build_track sort_values df = Ok (track, n).
Proof.
  rewrite process_and_generate_gpx_run.
  destruct (build_track sort_values df) as [[t c]|]; [|discriminate].
  cbn [fst snd]. intros H. injection H as -> ->. reflexivity.
Qed.

Lemma build_track_inv df track n :
  build_track sort_values df = Ok (track, n) ->
  exists cols rs ps,
    prepare sort_values df = Ok (cols, rs) /\ emit_track cols rs = Ok (track, n)
    /\ points_of cols rs = Ok ps /\ document ps = Ok (track, n)
    /\ StronglySorted time_le ps.
Proof.
  unfold build_track. intros H. apply rbind_Ok in H as ([cols rs] & Hp & H).
  cbn [fst snd] in H.
  destruct (emit_track_inv _ _ _ H) as (ps & Hps & Hdoc).
  exists cols, rs, ps. repeat split; try assumption.
  apply (points_of_sorted cols rs); [assumption|].
  apply (prepare_sorted df cols rs Hp).
Qed.

Lemma StronglySorted_concat {A} (R : A -> A -> Prop) (segs : list (list A)) :
  StronglySorted R (List.concat segs) ->
  Forall (StronglySorted R) segs
  /\ forall before seg1 seg2 after x y,
       segs = before ++ seg1 :: seg2 :: after ->
       In x seg1 -> In y seg2 -> R x y.
Proof.
  induction segs as [|seg segs IH]; simpl; intros H.
  - split; [constructor|]. intros [|? ?]; discriminate.
  - apply StronglySorted_app_inv in H as (H1 & H2 & Hc).
    destruct (IH H2) as (IH1 & IH2). split; [constructor; assumption|].
    intros before seg1 seg2 after x y E Hx Hy.
    destruct before as [|s0 before]; simpl in E; injection E as -> ->.
    + apply Hc; [assumption|]. simpl. apply in_or_app. auto.
    + eapply IH2; eauto.
Qed.

(** C3: the points of the document, read in the order of their emission
    across all segments, have non-decreasing instants; so have the points
    of each segment, and no point of a segment is later than a point of the
    segment after it. *)
Theorem track_times_nondecreasing df output_path track n :
  process_and_generate_gpx sort_values df output_path
  = ([Written output_path track], Ok n) ->
  StronglySorted time_le (List.concat track)
  /\ Forall (StronglySorted time_le) track
  /\ forall before seg1 seg2 after p q,
       track = before ++ seg1 :: seg2 :: after ->
       In p seg1 -> In q seg2 -> time_le p q.
Proof.
  intros H. apply process_and_generate_gpx_inv in H.
  apply build_track_inv in H as (cols & rs & ps & _ & _ & _ & Hdoc & Hs).
  apply document_points in Hdoc as (last & Hl & Hc).
  assert (Hsorted : StronglySorted time_le (List.concat track)).
  { rewrite Hc. destruct ps as [|a rest]; [discriminate|].
    apply (emission_sorted (a :: rest) Hs a rest last eq_refl Hl). }
  split; [exact Hsorted|]. apply StronglySorted_concat. exact Hsorted.
Qed.

(** ** Gaps inside a segment *)

Lemma chain_map {A B} (R : B -> B -> Prop) (f : A -> B) (l : list A) :
  chain R (List.map f l) <-> chain (fun x y => R (f x) (f y)) l.
Proof.
  induction l as [|x l IH]; [simpl; tauto|].
  destruct l as [|y l]; [simpl; tauto|].
  change (R (f x) (f y) /\ chain R (List.map f (y :: l))
          <-> R (f x) (f y) /\ chain (fun x y => R (f x) (f y)) (y :: l)).
  rewrite IH. tauto.
Qed.

Lemma chain_link {A} (R : A -> A -> Prop) (l : list A) (x : A)
  (m : list A) :
  chain R (l ++ [x]) -> chain R (x :: m) -> chain R (l ++ x :: m).
Proof.
  induction l as [|y l IH]; intros H1 H2; [exact H2|].
  destruct l as [|z l].
  - simpl in *. tauto.
  - change (R y z /\ chain R ((z :: l) ++ [x])) in H1.
    change (R y z /\ chain R ((z :: l) ++ x :: m)).
    split; [tauto | apply IH; tauto].
Qed.

Lemma chain_conj {A} (R S : A -> A -> Prop) (l : list A) :
  chain R l -> chain S l -> chain (fun x y => R x y /\ S x y) l.
Proof.
  induction l as [|x l IH]; [simpl; tauto|].
  destruct l as [|y l]; [simpl; tauto|].
  intros [H1 H2] [H3 H4]. split; [tauto | apply IH; assumption].
Qed.

Lemma StronglySorted_chain {A} (R : A -> A -> Prop) (l : list A) :
  StronglySorted R l -> chain R l.
Proof.
  induction 1 as [|x l Hl IH Hx]; [exact I|].
  destruct l as [|y l]; [exact I|].
  split; [inversion Hx; assumption | exact IH].
Qed.

Lemma interp_times_chain (ta tb steps : Z) :
  tb - ta < (steps + 1) * NS ->
  forall len start,
  Z.of_nat (start + len) = steps ->
  chain max_gap
    (List.map (fun k => ta + k * NS) (List.map Z.of_nat (seq start len))
     ++ [tb]).
Proof.
  intros Hb. induction len as [|len IH]; intros start E; [exact I|].
  destruct len as [|len].
  - simpl. split; [|exact I].
    unfold max_gap, MAX_GAP_SECONDS, NS in *. lia.
  - change (max_gap (ta + Z.of_nat start * NS)
              (ta + Z.of_nat (S start) * NS)
            /\ chain max_gap
                 (List.map (fun k => ta + k * NS)
                    (List.map Z.of_nat (seq (S start) (S len))) ++ [tb])).
    split; [unfold max_gap, MAX_GAP_SECONDS, NS; lia|].
    apply IH. lia.
Qed.

Lemma advance_tight (a b : TrackPoint) (st : builder) :
  tight st (pt_time a) -> tight (advance a b st) (pt_time b).
Proof.
  intros [Hclosed Hopen]. unfold advance, tight.
  destruct (total_seconds (pt_time b - pt_time a)
            >? MAX_GAP_SECONDS * NS) eqn:Hsplit.
  { cbn [trk trkseg]. split; [|exact I].
    apply Forall_app. split; [exact Hclosed|].
    constructor; [|constructor]. rewrite map_app. exact Hopen. }
  rewrite Z.gtb_ltb in Hsplit. apply Z.ltb_ge in Hsplit.
  destruct (total_seconds (pt_time b - pt_time a)
            <=? INTERPOLATION_STEP * NS) eqn:Hsmall;
    cbn [trk trkseg]; (split; [exact Hclosed|]).
  { rewrite map_app, <- app_assoc. apply chain_link; [exact Hopen|].
    split; [|exact I]. apply Z.leb_le in Hsmall.
    pose proof (total_seconds_bounds (pt_time b - pt_time a)) as [Hd Ht].
    unfold max_gap, MAX_GAP_SECONDS, INTERPOLATION_STEP, NS in *. lia. }
  pose proof (steps_positive _ Hsmall) as Hpos.
  apply Z.leb_gt in Hsmall.
  pose proof (total_seconds_bounds (pt_time b - pt_time a)) as [Hd _].
  pose proof (steps_bounds (pt_time b - pt_time a)
                ltac:(unfold INTERPOLATION_STEP, NS in *; lia)) as Hb.
  cbv zeta in Hb.
  set (steps := total_seconds (pt_time b - pt_time a)
                / (INTERPOLATION_STEP * NS)) in *.
  rewrite map_app, <- app_assoc, map_map.
  pose proof (interp_times_chain (pt_time a) (pt_time b) steps
                (proj2 Hb) (Z.to_nat steps) 0%nat ltac:(lia)) as Hc.
  change (List.map (fun x => pt_time (interp_point a b steps x))
            (range steps))
    with (List.map (fun k => pt_time a + k * NS) (range steps)).
  unfold range in *. rewrite map_map in *.
  destruct (Z.to_nat steps) as [|len] eqn:El; [lia|].
  cbn [seq List.map app] in *.
  replace (pt_time a + Z.of_nat 0 * NS) with (pt_time a) in * by lia.
  apply chain_link; assumption.
Qed.

Lemma advance_all_tight (ps : list TrackPoint) :
  forall st a rest last,
  ps = a :: rest -> iloc_last ps = Ok last ->
  tight st (pt_time a) -> tight (advance_all ps st) (pt_time last).
Proof.
  induction ps as [|x ps IH]; intros st a rest last E Hl Ht; [discriminate|].
  injection E as <- <-.
  destruct ps as [|b rest].
  - simpl in Hl. inv_ok. exact Ht.
  - rewrite advance_all_step.
    apply (IH _ b rest last eq_refl Hl). apply advance_tight. exact Ht.
Qed.

(** No two neighbours in a segment of the document are more than the
    maximal gap apart. *)
Lemma document_tight ps track n :
  document ps = Ok (track, n) ->
  Forall (fun seg => chain max_gap (List.map pt_time seg)) track.
Proof.
  unfold document. intros H. apply rbind_Ok in H as (last & Hl & H).
  cbv zeta in H. inv_ok.
  destruct ps as [|a rest]; [discriminate|].
  destruct (advance_all_tight (a :: rest) (mkBuilder [] [] 0) a rest last
              eq_refl Hl) as [H1 H2].
  { split; [constructor | exact I]. }
  apply Forall_app. split; [exact H1|].
  constructor; [|constructor]. rewrite map_app. exact H2.
Qed.

(** ** Segments of the document *)

Lemma advance_all_nonempty (ps : list TrackPoint) :
  forall st,
  Forall (fun seg : segment => seg <> []) (trk st) ->
  Forall (fun seg : segment => seg <> []) (trk (advance_all ps st)).
Proof.
  induction ps as [|a ps IH]; intros st H; [exact H|].
  destruct ps as [|b rest]; [exact H|].
  rewrite advance_all_step. apply IH. unfold advance.
  destruct (total_seconds (pt_time b - pt_time a) >? MAX_GAP_SECONDS * NS).
  { cbn [trk]. apply Forall_app. split; [exact H|].
    constructor; [|constructor]. destruct (trkseg st); discriminate. }
  destruct (total_seconds (pt_time b - pt_time a)
            <=? INTERPOLATION_STEP * NS); exact H.
Qed.

(** No segment of the document is empty. *)
Lemma document_nonempty ps track n :
  document ps = Ok (track, n) ->
  Forall (fun seg : segment => seg <> []) track.
Proof.
  unfold document. intros H. apply rbind_Ok in H as (last & Hl & H).
  cbv zeta in H. inv_ok. apply Forall_app. split.
  - apply advance_all_nonempty. constructor.
  - constructor; [|constructor].
    destruct (trkseg (advance_all ps (mkBuilder [] [] 0))); discriminate.
Qed.

Lemma emitted_head (a b : TrackPoint) :
  exists p rest, emitted a b = p :: rest /\ pt_time p = pt_time a.
Proof.
  rewrite emitted_cases. cbv zeta.
  destruct (total_seconds (pt_time b - pt_time a)
            >? MAX_GAP_SECONDS * NS); [eauto|].
  destruct (total_seconds (pt_time b - pt_time a)
            <=? INTERPOLATION_STEP * NS) eqn:Hs;
    [eauto|].
  destruct (range_succ _ (steps_positive _ Hs)) as (rng & ->).
  simpl. eexists _, _. split; [reflexivity|]. simpl. lia.
Qed.

(** The document of rows that start with [b] starts with a point at the
    instant of [b]. *)
Lemma document_head b rest track n :
  document (b :: rest) = Ok (track, n) ->
  exists q seg segs, track = (q :: seg) :: segs /\ pt_time q = pt_time b.
Proof.
  intros H. pose proof (document_nonempty _ _ _ H) as Hne.
  apply document_points in H as (last & Hl & Hc).
  destruct track as [|seg segs].
  { destruct (stream (b :: rest)); simpl in Hc; discriminate. }
  inversion Hne as [|? ? Hseg _]; subst.
  destruct seg as [|q seg]; [congruence|].
  exists q, seg, segs. split; [reflexivity|].
  destruct rest as [|c rest].
  - simpl in Hl, Hc. inv_ok. injection Hc as -> _. reflexivity.
  - rewrite stream_step in Hc.
    destruct (emitted_head b c) as (p & ps & Hp & Ht).
    rewrite Hp in Hc. simpl in Hc. injection Hc as -> _. exact Ht.
Qed.

(** A gap that [total_seconds] reports beyond the maximum cuts the document
    in two: the document of the rows up to the gap, which ends with the
    point of the row before the gap, and the document of the rows after
    it. *)
Lemma document_split before a b after track n :
  document (before ++ a :: b :: after) = Ok (track, n) ->
  total_seconds (pt_time b - pt_time a) > MAX_GAP_SECONDS * NS ->
  exists tr1 n1 tr2 n2,
    document (before ++ [a]) = Ok (tr1, n1)
    /\ document (b :: after) = Ok (tr2, n2)
    /\ track = tr1 ++ tr2 /\ n = n1 + n2
    /\ exists segs seg, tr1 = segs ++ [seg ++ [a]].
Proof.
  unfold document. intros H Hgap.
  apply rbind_Ok in H as (last & Hl & H). cbv zeta in H. inv_ok.
  rewrite iloc_last_app in Hl.
  change (iloc_last (b :: after) = Ok last) in Hl.
  rewrite iloc_last_snoc, Hl. cbn [rbind].
  set (s1 := advance_all (before ++ [a]) (mkBuilder [] [] 0)).
  set (s2 := advance_all (b :: after) (mkBuilder [] [] 0)).
  assert (E : advance_all (before ++ a :: b :: after) (mkBuilder [] [] 0)
              = mkBuilder ((trk s1 ++ [trkseg s1 ++ [a]]) ++ trk s2)
                  (trkseg s2) (count_generated s1 + count_generated s2)).
  { rewrite advance_all_app, advance_all_step. fold s1.
    unfold advance. apply Z.gtb_gt in Hgap. rewrite Hgap.
    rewrite <- (app_nil_r (trk s1 ++ [trkseg s1 ++ [a]])) at 1.
    rewrite <- (Z.add_0_r (count_generated s1)) at 1.
    apply (advance_all_closed (trk s1 ++ [trkseg s1 ++ [a]])
             (count_generated s1) (b :: after) (mkBuilder [] [] 0)). }
  rewrite E. cbn [trk trkseg count_generated].
  eexists _, _, _, _. split; [reflexivity|]. split; [reflexivity|].
  split; [rewrite app_assoc; reflexivity|]. split; [reflexivity|].
  eauto.
Qed.

Lemma points_of_app cols rs1 :
  forall rs2 ps,
  points_of cols (rs1 ++ rs2) = Ok ps ->
  exists ps1 ps2, ps = ps1 ++ ps2 /\ points_of cols rs1 = Ok ps1
                  /\ points_of cols rs2 = Ok ps2.
Proof.
  induction rs1 as [|r rs1 IH]; intros rs2 ps H.
  - exists [], ps. auto.
  - simpl app in H. apply points_of_cons in H as (a & ps' & -> & Ha & H).
    destruct (IH _ _ H) as (ps1 & ps2 & -> & H1 & H2).
    exists (a :: ps1), ps2. repeat split; [|assumption].
    cbn [points_of]. rewrite Ha, H1. reflexivity.
Qed.

Lemma points_of_snoc cols rs r ps a :
  points_of cols rs = Ok ps -> point_of cols r = Ok a ->
  points_of cols (rs ++ [r]) = Ok (ps ++ [a]).
Proof.
  revert ps. induction rs as [|x rs IH]; intros ps H Ha.
  - simpl in H. inv_ok. simpl. rewrite Ha. reflexivity.
  - apply points_of_cons in H as (p & ps' & -> & Hp & H).
    simpl app. cbn [points_of]. rewrite Hp, (IH _ H Ha). reflexivity.
Qed.

(** The points of rows around two neighbours. *)
Lemma points_of_neighbours cols before curr next_p after ps :
  points_of cols (before ++ curr :: next_p :: after) = Ok ps ->
  exists ps1 a b ps2,
    ps = ps1 ++ a :: b :: ps2
    /\ point_of cols curr = Ok a /\ point_of cols next_p = Ok b
    /\ points_of cols (before ++ [curr]) = Ok (ps1 ++ [a])
    /\ points_of cols (next_p :: after) = Ok (b :: ps2).
Proof.
  intros H. apply points_of_app in H as (ps1 & ps' & -> & H1 & H).
  apply points_of_cons in H as (a & ps'' & -> & Ha & H).
  pose proof H as H2.
  apply points_of_cons in H as (b & ps2 & -> & Hb & _).
  exists ps1, a, b, ps2. repeat split; try assumption.
  apply points_of_snoc; assumption.
Qed.

Lemma document_sorted ps track n :
  StronglySorted time_le ps -> document ps = Ok (track, n) ->
  StronglySorted time_le (List.concat track).
Proof.
  intros Hs Hdoc. apply document_points in Hdoc as (last & Hl & Hc).
  rewrite Hc. destruct ps as [|a rest]; [discriminate|].
  apply (emission_sorted (a :: rest) Hs a rest last eq_refl Hl).
Qed.

Lemma build_track_emit df cols rs :
  prepare sort_values df = Ok (cols, rs) ->
  build_track sort_values df = emit_track cols rs.
Proof. intros H. unfold build_track. rewrite H. reflexivity. Qed.

(** The gaps that [total_seconds] reports beyond the maximum: those of the
    maximum and one unit of the resolution, or more. *)
Lemma split_threshold (d : Z) :
  total_seconds d > MAX_GAP_SECONDS * NS
  <-> d >= MAX_GAP_SECONDS * NS + tick res.
Proof.
  pose proof (total_seconds_whole d MAX_GAP_SECONDS) as Hw.
  pose proof (total_seconds_bounds d) as [Hb Ht].
  unfold total_seconds, MAX_GAP_SECONDS, NS in *.
  destruct res; cbn [tick] in *; Z.div_mod_to_equations; lia.
Qed.

(** C2, as amended: where [total_seconds] reports more than
    MAX_GAP_SECONDS between two consecutive rows of the sorted valid frame,
    which it does for every gap of MAX_GAP_SECONDS and one unit of its
    resolution or more, the document is the document of the rows up to the
    earlier one, whose last segment ends with the point of that row,
    followed by the document of the rows from the later one on, which
    starts a segment with a point at the instant of the later row: the
    earlier row is emitted into the current segment, a new segment starts,
    and no point lies between the two. In every segment of the document,
    any two neighbours are in order and at most MAX_GAP_SECONDS apart. *)
Theorem gap_starts_new_segment df output_path cols rs track n :
  prepare sort_values df = Ok (cols, rs) ->
  process_and_generate_gpx sort_values df output_path
  = ([Written output_path track], Ok n) ->
  Forall (chain within_max_gap) track
  /\ (forall d, total_seconds d > MAX_GAP_SECONDS * NS
                <-> d >= MAX_GAP_SECONDS * NS + tick res)
  /\ forall before curr next_p after t1 t2,
       rs = before ++ curr :: next_p :: after ->
       dt_object curr = Some t1 -> dt_object next_p = Some t2 ->
       total_seconds (t2 - t1) > MAX_GAP_SECONDS * NS ->
       exists tr1 n1 tr2 n2 a,
         emit_track cols (before ++ [curr]) = Ok (tr1, n1)
         /\ emit_track cols (next_p :: after) = Ok (tr2, n2)
         /\ track = tr1 ++ tr2 /\ n = n1 + n2
         /\ point_of cols curr = Ok a
         /\ (exists segs seg, tr1 = segs ++ [seg ++ [a]])
         /\ (exists q seg segs, tr2 = (q :: seg) :: segs /\ pt_time q = t2).
Proof.
  intros Hprep Hbuild. apply process_and_generate_gpx_inv in Hbuild.
  pose proof Hbuild as Hemit. rewrite (build_track_emit _ _ _ Hprep) in Hemit.
  destruct (emit_track_inv _ _ _ Hemit) as (ps & Hps & Hdoc).
  assert (Hs : StronglySorted time_le ps).
  { apply (points_of_sorted cols rs); [assumption|].
    apply (prepare_sorted df cols rs Hprep). }
  split.
  - pose proof (document_tight _ _ _ Hdoc) as Ht.
    pose proof (proj1 (StronglySorted_concat _ _
                         (document_sorted _ _ _ Hs Hdoc))) as Ho.
    apply Forall_forall. intros seg Hseg.
    pose proof (proj1 (Forall_forall _ _) Ht seg Hseg) as H1.
    pose proof (proj1 (Forall_forall _ _) Ho seg Hseg) as H2.
    apply (proj1 (chain_map max_gap pt_time seg)) in H1.
    apply StronglySorted_chain in H2.
    pose proof (chain_conj _ _ _ H2 H1) as H3.
    clear - H3. revert H3. unfold within_max_gap, time_le, max_gap.
    induction seg as [|x seg IH]; [simpl; tauto|].
    destruct seg as [|y seg]; [simpl; tauto|].
    intros [H H']. split; [lia | apply IH; exact H'].
  - split; [exact split_threshold|].
    intros before curr next_p after t1 t2 -> Ht1 Ht2 Hgap'.
    destruct (points_of_neighbours _ _ _ _ _ _ Hps)
      as (ps1 & a & b & ps2 & -> & Ha & Hb & Hp1 & Hp2).
    pose proof (point_of_fields _ _ _ Ha) as (_ & _ & _ & Hta).
    pose proof (point_of_fields _ _ _ Hb) as (_ & _ & _ & Htb).
    assert (pt_time a = t1) by congruence.
    assert (pt_time b = t2) by congruence. subst t1 t2.
    destruct (document_split _ _ _ _ _ _ Hdoc Hgap')
      as (tr1 & n1 & tr2 & n2 & D1 & D2 & -> & -> & Hlast).
    exists tr1, n1, tr2, n2, a.
    rewrite (emit_track_document _ _ _ Hp1), (emit_track_document _ _ _ Hp2).
    repeat split; try assumption.
    apply (document_head _ _ _ _ D2).
Qed.

(** ** Interpolation *)

Lemma nth_error_range (n k : Z) :
  0 <= k < n -> nth_error (range n) (Z.to_nat k) = Some k.
Proof.
  intros H. unfold range.
  rewrite nth_error_map, nth_error_seq.
  destruct (Nat.ltb_spec (Z.to_nat k) (Z.to_nat n)); [|lia].
  simpl. f_equal. lia.
Qed.

(** C1, as amended: for two consecutive rows of the sorted valid frame
    whose gap g, as [total_seconds] reports it, is above INTERPOLATION_STEP
    and at most MAX_GAP_SECONDS, the points of the document are those
    emitted up to the earlier row, then floor (g / INTERPOLATION_STEP)
    interpolated points (as many as for the gap itself), then the points of
    the document from the later row on, the first of which is at the
    instant of the later row. The interpolated point of index step has for
    latitude, longitude and elevation the float v1 + (v2 - v1) * (step /
    steps), the difference being that of the type of the column, and is
    step seconds after the earlier row. *)
Theorem interpolation_between_rows df output_path cols before curr next_p
  after track n t1 t2 :
  prepare sort_values df = Ok (cols, before ++ curr :: next_p :: after) ->
  process_and_generate_gpx sort_values df output_path
  = ([Written output_path track], Ok n) ->
  dt_object curr = Some t1 -> dt_object next_p = Some t2 ->
  INTERPOLATION_STEP * NS < total_seconds (t2 - t1)
                         <= MAX_GAP_SECONDS * NS ->
  let steps := total_seconds (t2 - t1) / (INTERPOLATION_STEP * NS) in
  let at_fraction (v1 v2 : number) (step : Z) :=
    Float64 (to_float v1
             + to_float (difference v2 v1)
               * (float_of_Z step / float_of_Z steps))%float in
  exists a b tr1 n1 tr2 n2 pts,
    point_of cols curr = Ok a /\ point_of cols next_p = Ok b
    /\ emit_track cols (before ++ [curr]) = Ok (tr1, n1)
    /\ emit_track cols (next_p :: after) = Ok (tr2, n2)
    /\ List.concat tr1 = removelast (List.concat tr1) ++ [a]
    /\ List.concat track
       = removelast (List.concat tr1) ++ pts ++ List.concat tr2
    /\ Z.of_nat (List.length pts) = steps
    /\ steps = (t2 - t1) / (INTERPOLATION_STEP * NS)
    /\ (forall step, 0 <= step < steps ->
        nth_error pts (Z.to_nat step)
        = Some (mkTrackPoint
                  (at_fraction (pt_lat a) (pt_lat b) step)
                  (at_fraction (pt_lon a) (pt_lon b) step)
                  (at_fraction (pt_ele a) (pt_ele b) step)
                  (t1 + step * NS)))
    /\ exists q rest, List.concat tr2 = q :: rest /\ pt_time q = t2.
Proof.
  intros Hprep Hbuild Ht1 Ht2 Hgap steps at_fraction.
  apply process_and_generate_gpx_inv in Hbuild.
  rewrite (build_track_emit _ _ _ Hprep) in Hbuild.
  destruct (emit_track_inv _ _ _ Hbuild) as (ps & Hps & Hdoc).
  destruct (points_of_neighbours _ _ _ _ _ _ Hps)
    as (ps1 & a & b & ps2 & -> & Ha & Hb & Hp1 & Hp2).
  pose proof (point_of_fields _ _ _ Ha) as (_ & _ & _ & Hta).
  pose proof (point_of_fields _ _ _ Hb) as (_ & _ & _ & Htb).
  assert (Ea : pt_time a = t1) by congruence.
  assert (Eb : pt_time b = t2) by congruence.
  destruct (document_total (ps1 ++ [a])) as (tr1 & n1 & D1).
  { destruct ps1; discriminate. }
  destruct (document_total (b :: ps2)) as (tr2 & n2 & D2); [discriminate|].
  exists a, b, tr1, n1, tr2, n2,
    (List.map (interp_point a b steps) (range steps)).
  rewrite (emit_track_document _ _ _ Hp1), (emit_track_document _ _ _ Hp2).
  destruct (document_points _ _ _ Hdoc) as (last & Hl & Hc).
  destruct (document_points _ _ _ D1) as (last1 & Hl1 & Hc1).
  destruct (document_points _ _ _ D2) as (last2 & Hl2 & Hc2).
  rewrite iloc_last_snoc in Hl1. injection Hl1 as <-.
  rewrite iloc_last_app in Hl.
  change (iloc_last (b :: ps2) = Ok last) in Hl.
  rewrite Hl in Hl2. injection Hl2 as <-.
  assert (Hsteps : 0 <= steps).
  { unfold steps, INTERPOLATION_STEP, NS in *. apply Z.div_pos; lia. }
  assert (Hem : emitted a b
                = List.map (interp_point a b steps) (range steps)).
  { rewrite emitted_cases. cbv zeta. rewrite Ea, Eb.
    destruct (total_seconds (t2 - t1) >? MAX_GAP_SECONDS * NS) eqn:E1;
      [apply Z.gtb_gt in E1; lia|].
    destruct (total_seconds (t2 - t1) <=? INTERPOLATION_STEP * NS) eqn:E2;
      [apply Z.leb_le in E2; lia|].
    reflexivity. }
  repeat split; try assumption.
  - rewrite Hc1, removelast_last. reflexivity.
  - rewrite Hc, Hc1, Hc2, removelast_last.
    rewrite stream_app, stream_step, Hem, <- !app_assoc. reflexivity.
  - rewrite length_map. apply range_length. exact Hsteps.
  - apply total_seconds_floor.
  - intros step Hstep. rewrite nth_error_map, nth_error_range by assumption.
    simpl. unfold interp_point. rewrite Ea. reflexivity.
  - rewrite <- Eb. destruct (document_head _ _ _ _ D2)
      as (q & seg & segs & -> & Hq).
    simpl. eauto.
Qed.

(** ** The counter *)

Lemma sum_gaps_step test weight r1 r2 rest :
  sum_gaps test weight (r1 :: r2 :: rest)
  = match time_diff (dt_object r1) (dt_object r2) with
    | Some d => if test d then weight d else 0
    | None => 0
    end + sum_gaps test weight (r2 :: rest).
Proof. reflexivity. Qed.

Lemma sum_gaps_points test weight cols :
  forall rs ps, points_of cols rs = Ok ps ->
  sum_gaps test weight rs = sum_gaps test weight (List.map row_at ps).
Proof.
  induction rs as [|r rs IH]; intros ps H.
  - simpl in H. inv_ok. reflexivity.
  - apply points_of_cons in H as (a & ps' & -> & Ha & Hps).
    destruct rs as [|r2 rest].
    + simpl in Hps. inv_ok. reflexivity.
    + pose proof Hps as Hps2.
      apply points_of_cons in Hps2 as (b & ps'' & -> & Hb & _).
      apply point_of_fields in Ha as (_ & _ & _ & Hta).
      apply point_of_fields in Hb as (_ & _ & _ & Htb).
      cbn [List.map]. rewrite !sum_gaps_step.
      rewrite (IH _ Hps). cbn [List.map row_at dt_object].
      rewrite Hta, Htb. reflexivity.
Qed.

Lemma emitted_length (a b : TrackPoint) :
  let d := total_seconds (pt_time b - pt_time a) in
  Z.of_nat (List.length (emitted a b))
  = if d >? MAX_GAP_SECONDS * NS then 1
    else if d <=? INTERPOLATION_STEP * NS then 1
    else d / (INTERPOLATION_STEP * NS).
Proof.
  intros d. rewrite emitted_cases. fold d.
  destruct (d >? MAX_GAP_SECONDS * NS); [reflexivity|].
  destruct (d <=? INTERPOLATION_STEP * NS) eqn:Hs; [reflexivity|].
  rewrite length_map. apply range_length.
  pose proof (steps_positive _ Hs). lia.
Qed.

Lemma stream_length (ps : list TrackPoint) :
  Z.of_nat (List.length (stream ps))
  = small_gap_points (List.map row_at ps)
    + interpolated_points (List.map row_at ps)
    + split_count (List.map row_at ps).
Proof.
  unfold small_gap_points, interpolated_points, split_count.
  induction ps as [|a ps IH]; [reflexivity|].
  destruct ps as [|b rest]; [reflexivity|].
  rewrite stream_step, length_app, Nat2Z.inj_add, IH, emitted_length.
  cbn [List.map]. rewrite !sum_gaps_step.
  cbn [row_at dt_object time_diff]. cbv zeta.
  destruct (total_seconds (pt_time b - pt_time a) >? MAX_GAP_SECONDS * NS);
    destruct (total_seconds (pt_time b - pt_time a)
              <=? INTERPOLATION_STEP * NS);
    cbn [negb andb]; lia.
Qed.

Lemma advance_all_counts (ps : list TrackPoint) :
  forall st,
  count_generated (advance_all ps st)
  = count_generated st + small_gap_points (List.map row_at ps)
    + interpolated_points (List.map row_at ps)
  /\ Z.of_nat (List.length (trk (advance_all ps st)))
     = Z.of_nat (List.length (trk st)) + split_count (List.map row_at ps).
Proof.
  unfold small_gap_points, interpolated_points, split_count.
  induction ps as [|a ps IH]; intros st; [simpl; lia|].
  destruct ps as [|b rest]; [simpl; lia|].
  rewrite advance_all_step. destruct (IH (advance a b st)) as [-> ->].
  cbn [List.map]. rewrite !sum_gaps_step.
  cbn [row_at dt_object time_diff]. unfold advance.
  destruct (total_seconds (pt_time b - pt_time a) >? MAX_GAP_SECONDS * NS).
  { cbn [trk count_generated negb andb].
    rewrite length_app, Nat2Z.inj_add. simpl List.length.
    destruct (total_seconds (pt_time b - pt_time a)
              <=? INTERPOLATION_STEP * NS); lia. }
  destruct (total_seconds (pt_time b - pt_time a)
            <=? INTERPOLATION_STEP * NS) eqn:Hs;
    cbn [trk count_generated negb andb]; [lia|].
  rewrite range_length by (pose proof (steps_positive _ Hs); lia). lia.
Qed.

(** C6: the counter that the builder returns is the number of points of
    the small-gap branch plus the number of points of the interpolation
    branch, the branches being those that the loop takes on the gap that
    [total_seconds] reports; the document has, besides these, one point for
    every split and the last point, so the counter is the number of emitted
    points minus the number of splits minus one. The document has one
    segment more than there are splits, so the counter is also the number
    of points minus the number of segments. *)
Theorem count_generated_counts df output_path cols rs track n :
  prepare sort_values df = Ok (cols, rs) ->
  process_and_generate_gpx sort_values df output_path
  = ([Written output_path track], Ok n) ->
  n = small_gap_points rs + interpolated_points rs
  /\ Z.of_nat (List.length (List.concat track))
     = small_gap_points rs + interpolated_points rs + split_count rs + 1
  /\ n = Z.of_nat (List.length (List.concat track)) - split_count rs - 1
  /\ Z.of_nat (List.length track) = split_count rs + 1
  /\ n = Z.of_nat (List.length (List.concat track))
         - Z.of_nat (List.length track).
Proof.
  intros Hprep Hbuild. apply process_and_generate_gpx_inv in Hbuild.
  rewrite (build_track_emit _ _ _ Hprep) in Hbuild.
  destruct (emit_track_inv _ _ _ Hbuild) as (ps & Hps & Hdoc).
  unfold small_gap_points, interpolated_points, split_count.
  rewrite !(sum_gaps_points _ _ cols rs ps Hps).
  fold (small_gap_points (List.map row_at ps)).
  fold (interpolated_points (List.map row_at ps)).
  fold (split_count (List.map row_at ps)).
  destruct (document_points _ _ _ Hdoc) as (last & Hl & Hc).
  pose proof (stream_length ps) as Hlen.
  unfold document in Hdoc. rewrite Hl in Hdoc. cbn [rbind] in Hdoc.
  cbv zeta in Hdoc. injection Hdoc as Htrack Hn.
  destruct (advance_all_counts ps (mkBuilder [] [] 0)) as [Hcount Hsegs].
  cbn [count_generated trk List.length] in Hcount, Hsegs.
  assert (Hpoints : Z.of_nat (List.length (List.concat track))
                    = Z.of_nat (List.length (stream ps)) + 1).
  { rewrite Hc, length_app. simpl List.length. lia. }
  assert (Hlt : Z.of_nat (List.length track)
                = Z.of_nat (List.length
                     (trk (advance_all ps (mkBuilder [] [] 0)))) + 1).
  { rewrite <- Htrack, length_app. simpl List.length. lia. }
  lia.
Qed.

(** ** Missing elevations *)

Lemma SFcompare_refl (f : spec_float) :
  f <> S754_nan -> SFcompare f f = Some Eq.
Proof.
  destruct f as [s|s| |s m e]; intros H; try congruence.
  - reflexivity.
  - destruct s; reflexivity.
  - simpl. rewrite Z.compare_refl, Pos.compare_cont_refl.
    destruct s; reflexivity.
Qed.

Lemma is_nan_spec (x : float) :
  PrimFloat.is_nan x = true <-> Prim2SF x = S754_nan.
Proof.
  unfold PrimFloat.is_nan. rewrite eqb_spec. unfold SFeqb. split.
  - intros H. destruct (Prim2SF x) eqn:E; try reflexivity;
      rewrite SFcompare_refl in H by discriminate; discriminate.
  - intros ->. reflexivity.
Qed.

Lemma is_nan_add (x y : float) :
  PrimFloat.is_nan x = true -> PrimFloat.is_nan (x + y) = true.
Proof.
  rewrite !is_nan_spec. intros H. rewrite add_spec, H. reflexivity.
Qed.

Lemma format_f_nan (prec : nat) (x : float) :
  PrimFloat.is_nan x = true -> format_f prec x = str "nan".
Proof.
  intros H. apply is_nan_spec in H. unfold format_f. rewrite H. reflexivity.
Qed.

Lemma emitted_head_ele (a b : TrackPoint) :
  exists p rest,
    emitted a b = p :: rest /\ pt_time p = pt_time a
    /\ (PrimFloat.is_nan (to_float (pt_ele a)) = true ->
        PrimFloat.is_nan (to_float (pt_ele p)) = true).
Proof.
  rewrite emitted_cases. cbv zeta.
  destruct (total_seconds (pt_time b - pt_time a)
            >? MAX_GAP_SECONDS * NS); [eauto|].
  destruct (total_seconds (pt_time b - pt_time a)
            <=? INTERPOLATION_STEP * NS) eqn:Hs;
    [eauto|].
  destruct (range_succ _ (steps_positive _ Hs)) as (rng & ->).
  cbn [List.map]. eexists _, _. split; [reflexivity|]. split.
  - simpl. lia.
  - cbn [interp_point pt_ele to_float]. apply is_nan_add.
Qed.

(** Every row the loop runs over has a point in the document, at its
    instant; where the row has no elevation, neither has that point. *)
Lemma document_contains ps track n a :
  In a ps -> document ps = Ok (track, n) ->
  exists p, In p (List.concat track) /\ pt_time p = pt_time a
            /\ (PrimFloat.is_nan (to_float (pt_ele a)) = true ->
                PrimFloat.is_nan (to_float (pt_ele p)) = true).
Proof.
  intros Hin Hdoc. apply in_split in Hin as (before & after & ->).
  apply document_points in Hdoc as (last & Hl & Hc). rewrite Hc.
  rewrite iloc_last_app in Hl.
  destruct after as [|b after].
  - simpl in Hl. injection Hl as <-. exists a.
    split; [apply in_or_app; right; simpl; auto | auto].
  - rewrite stream_app, stream_step.
    destruct (emitted_head_ele a b) as (p & rest & -> & Ht & He).
    exists p. split; [|auto].
    apply in_or_app; left. apply in_or_app; right. simpl; auto.
Qed.

Lemma rows_datetime_In cols rows0 :
  forall rs row, rows_datetime cols rows0 = Ok rs -> In row rows0 ->
  exists r, In r rs /\ cells r = row.
Proof.
  induction rows0 as [|x rows0 IH]; intros rs row H Hin; [contradiction|].
  cbn [rows_datetime] in H.
  apply rbind_Ok in H as (r1 & Hr1 & H).
  apply rbind_Ok in H as (rs1 & Hrs1 & H). inv_ok.
  destruct Hin as [-> | Hin].
  - exists r1. split; [simpl; auto|].
    unfold row_datetime in Hr1.
    destruct (select cols (str "timestamp") row) as [|[y|k|] [|]];
      try discriminate;
      apply rbind_Ok in Hr1 as (t & _ & Hr1); inv_ok; reflexivity.
  - destruct (IH _ _ Hrs1 Hin) as (r & Hr & Hc).
    exists r. split; [simpl; auto | exact Hc].
Qed.

Lemma rows_datetime_cells cols rows0 :
  forall rs r, rows_datetime cols rows0 = Ok rs -> In r rs ->
  In (cells r) rows0.
Proof.
  induction rows0 as [|x rows0 IH]; intros rs r H Hin.
  - simpl in H. inv_ok. contradiction.
  - cbn [rows_datetime] in H.
    apply rbind_Ok in H as (r1 & Hr1 & H).
    apply rbind_Ok in H as (rs1 & Hrs1 & H). inv_ok.
    destruct Hin as [<- | Hin]; [left | right; eapply IH; eauto].
    unfold row_datetime in Hr1.
    destruct (select cols (str "timestamp") x) as [|[y|k|] [|]];
      try discriminate;
      apply rbind_Ok in Hr1 as (t & _ & Hr1); inv_ok; reflexivity.
Qed.

Lemma points_of_In cols rs :
  forall ps r, points_of cols rs = Ok ps -> In r rs ->
  exists a, In a ps /\ point_of cols r = Ok a.
Proof.
  induction rs as [|x rs IH]; intros ps r H Hin; [contradiction|].
  apply points_of_cons in H as (a & ps' & -> & Ha & Hps).
  destruct Hin as [-> | Hin].
  - exists a. simpl; auto.
  - destruct (IH _ _ Hps Hin) as (a' & Ha' & Hp). exists a'. simpl; auto.
Qed.

Lemma select_absent cols label row :
  contains cols label = false -> select cols label row = [].
Proof.
  revert row. induction cols as [|c cols IH]; intros row H; [reflexivity|].
  unfold contains in H. simpl in H. apply orb_false_iff in H as [Hc H].
  destruct row as [|x row]; [reflexivity|]. simpl.
  assert (E : pystr_eqb c label = false).
  { destruct (pystr_eqb c label) eqn:E; [|reflexivity].
    apply pystr_eqb_eq in E. subst. rewrite pystr_eqb_refl in Hc.
    discriminate. }
  rewrite E. apply IH. exact H.
Qed.

Lemma prepare_In df cols rs r :
  prepare sort_values df = Ok (cols, rs) -> In r rs ->
  notna_row cols r = true
  /\ exists rows0,
       (cols, rows0)
       = (if contains (columns df) (str "ele") then (columns df, rows df)
          else (str "ele" :: columns df,
                List.map (cons (Int 0)) (rows df)))
       /\ In (cells r) rows0.
Proof.
  intros H Hin. apply prepare_inv in H as (rows0 & rs0 & E & Hdt & ->).
  apply filter_In in Hin as [Hin Hn]. split; [exact Hn|].
  exists rows0. split; [exact E|].
  apply (rows_datetime_cells cols rows0 rs0); [exact Hdt|].
  apply (Permutation_in _
           (Permutation_sym (proj1 (sort_values_sorts rs0)))).
  exact Hin.
Qed.

(** C10: in a frame that has an elevation column, a row whose elevation is
    NaN and whose timestamp, latitude and longitude are not is kept by the
    filter, and the document has its point, at its instant, with the
    elevation NaN, which is rendered as the text nan. The elevation 0 is
    what every row gets in a frame without an elevation column. *)
Theorem nan_elevation_is_emitted df output_path track n row x :
  contains (columns df) (str "ele") = true ->
  process_and_generate_gpx sort_values df output_path
  = ([Written output_path track], Ok n) ->
  In row (rows df) ->
  select (columns df) (str "ele") row = [Num x] ->
  PrimFloat.is_nan x = true ->
  existsb isna (select (columns df) (str "lat") row) = false ->
  existsb isna (select (columns df) (str "lon") row) = false ->
  existsb isna (select (columns df) (str "timestamp") row) = false ->
  (exists rs r p,
     prepare sort_values df = Ok (columns df, rs)
     /\ In r rs /\ cells r = row
     /\ In p (List.concat track)
     /\ dt_object r = Some (pt_time p)
     /\ PrimFloat.is_nan (to_float (pt_ele p)) = true
     /\ text_ele (render_trkpt p) = str "nan")
  /\ (forall df' cols' rs',
        contains (columns df') (str "ele") = false ->
        prepare sort_values df' = Ok (cols', rs') ->
        Forall (fun r => select cols' (str "ele") (cells r)
                         = [Int 0]) rs').
Proof.
  intros Hele Hbuild Hin Hx Hnan Hlat Hlon Hts. split.
  - apply process_and_generate_gpx_inv in Hbuild.
    apply build_track_inv in Hbuild
      as (cols & rs & ps & Hprep & _ & Hps & Hdoc & _).
    pose proof Hprep as Hinv.
    apply prepare_inv in Hinv as (rows0 & rs0 & E & Hdt & Hrs).
    rewrite Hele in E. injection E as -> ->.
    destruct (rows_datetime_In _ _ _ _ Hdt Hin) as (r & Hr & Hcells).
    assert (Hkept : In r rs).
    { rewrite Hrs. apply filter_In. split.
      - apply (Permutation_in _ (proj1 (sort_values_sorts rs0))).
        exact Hr.
      - unfold notna_row. rewrite Hcells, Hlat, Hlon, Hts. reflexivity. }
    destruct (points_of_In _ _ _ _ Hps Hkept) as (a & Ha & Hpa).
    destruct (point_of_fields _ _ _ Hpa) as (_ & _ & He & Hta).
    rewrite Hcells, Hx in He. simpl in He. injection He as He.
    destruct (document_contains _ _ _ _ Ha Hdoc) as (p & Hp & Htp & Hep).
    exists rs, r, p. repeat split; try assumption.
    + congruence.
    + apply Hep. rewrite <- He. exact Hnan.
    + unfold render_trkpt. cbn [text_ele]. apply format_f_nan.
      apply Hep. rewrite <- He. exact Hnan.
  - intros df' cols' rs' Habs Hprep. apply Forall_forall. intros r Hr.
    destruct (prepare_In _ _ _ _ Hprep Hr) as (_ & rows0 & E & Hc).
    rewrite Habs in E. injection E as -> ->.
    apply in_map_iff in Hc as (row' & <- & _).
    cbn [select]. rewrite pystr_eqb_refl.
    rewrite select_absent by exact Habs. reflexivity.
Qed.

(** ** Dropping and sorting *)

Lemma NoDup_map_inj {A B} (f : A -> B) (l : list A) (x y : A) :
  NoDup (List.map f l) -> In x l -> In y l -> f x = f y -> x = y.
Proof.
  induction l as [|z l IH]; intros Hnd Hx Hy E; [contradiction|].
  simpl in Hnd. inversion Hnd as [|? ? Hz Hl]; subst.
  destruct Hx as [-> | Hx], Hy as [-> | Hy]; auto.
  - exfalso. apply Hz. rewrite E. apply in_map. exact Hy.
  - exfalso. apply Hz. rewrite <- E. apply in_map. exact Hx.
Qed.

(** Rows of pairwise distinct instants have one sorted arrangement. *)
Lemma sorting_unique (s1 : list Row) :
  forall s2,
  Permutation s1 s2 ->
  StronglySorted key_order s1 -> StronglySorted key_order s2 ->
  NoDup (List.map dt_object s1) -> s1 = s2.
Proof.
  induction s1 as [|x s1 IH]; intros s2 Hp H1 H2 Hnd.
  - apply Permutation_nil in Hp. subst. reflexivity.
  - destruct s2 as [|y s2].
    { apply Permutation_sym, Permutation_nil in Hp. discriminate. }
    inversion H1 as [|? ? Hs1 Hx]; subst.
    inversion H2 as [|? ? Hs2 Hy]; subst.
    assert (Hyin : In y (x :: s1)).
    { apply (Permutation_in _ (Permutation_sym Hp)). simpl; auto. }
    assert (Hxin : In x (y :: s2)).
    { apply (Permutation_in _ Hp). simpl; auto. }
    assert (E : x = y).
    { destruct Hyin as [E | Hyin]; [exact E|].
      destruct Hxin as [E | Hxin]; [symmetry; exact E|].
      apply (NoDup_map_inj dt_object (x :: s1)); simpl; auto.
      apply key_le_antisym.
      - apply (proj1 (Forall_forall _ _) Hx y Hyin).
      - apply (proj1 (Forall_forall _ _) Hy x Hxin). }
    subst y. f_equal. apply IH; try assumption.
    + apply Permutation_cons_inv in Hp. exact Hp.
    + simpl in Hnd. inversion Hnd; assumption.
Qed.

Lemma Permutation_filter {A} (f : A -> bool) (l l' : list A) :
  Permutation l l' -> Permutation (List.filter f l) (List.filter f l').
Proof.
  induction 1 as [| x l l' _ IH | x y l | l l' l'' _ IH1 _ IH2]; simpl.
  - constructor.
  - destruct (f x); [constructor|]; exact IH.
  - destruct (f x), (f y); try reflexivity. constructor.
  - etransitivity; eassumption.
Qed.

Lemma rows_datetime_filter cols rows0 :
  forall rs0, rows_datetime cols rows0 = Ok rs0 ->
  rows_datetime cols
    (List.filter (fun row => notna_row cols (mkRow None row)) rows0)
  = Ok (List.filter (notna_row cols) rs0).
Proof.
  induction rows0 as [|x rows0 IH]; intros rs0 H.
  - simpl in H. inv_ok. reflexivity.
  - cbn [rows_datetime] in H.
    apply rbind_Ok in H as (r1 & Hr1 & H).
    apply rbind_Ok in H as (rs1 & Hrs1 & H). inv_ok.
    assert (Hc : cells r1 = x).
    { unfold row_datetime in Hr1.
      destruct (select cols (str "timestamp") x) as [|[y|k|] [|]];
        try discriminate;
        apply rbind_Ok in Hr1 as (t & _ & Hr1); inv_ok; reflexivity. }
    cbn [List.filter].
    replace (notna_row cols (mkRow None x)) with (notna_row cols r1)
      by (unfold notna_row; rewrite Hc; reflexivity).
    destruct (notna_row cols r1).
    + cbn [rows_datetime]. rewrite Hr1, (IH _ Hrs1). reflexivity.
    + apply IH. exact Hrs1.
Qed.

(** What lines 61 to 66 give in the order of the spec, where they return
    in the order of the code. *)
Lemma prepare_drop_first_sorted sort' df cols rs :
  prepare sort_values df = Ok (cols, rs) ->
  exists rs0,
    rs = List.filter (notna_row cols) (sort_values rs0)
    /\ prepare sort' df = Ok (cols, List.filter (notna_row cols) (sort' rs0))
    /\ prepare_drop_first sort' df
       = Ok (cols, sort' (List.filter (notna_row cols) rs0)).
Proof.
  unfold prepare, prepare_drop_first, sort_then_drop, dropna, dropna_cells,
    with_datetime.
  set (d := if contains (columns df) (str "ele") then df
            else mkDataFrame (str "ele" :: columns df)
                   (List.map (cons (Int 0)) (rows df))).
  intros H.
  destruct (count_label (columns d) (str "timestamp")) as [|[|k]];
    try discriminate.
  apply rbind_Ok in H as (rs0 & Hdt & H).
  destruct (2 <=? count_label (columns d) (str "dt_object"))%nat;
    [discriminate|].
  destruct (contains (columns d) (str "lat")
            && contains (columns d) (str "lon")
            && contains (columns d) (str "timestamp")); [|discriminate].
  cbn [rbind] in H. injection H as <- <-.
  exists rs0. rewrite Hdt. cbn [rbind].
  rewrite (rows_datetime_filter _ _ _ Hdt). auto.
Qed.

(** C9, as amended: on a frame for which lines 61 to 66 return, so that
    every timestamp converts to an instant, and whose valid rows have
    pairwise distinct instants, the order of the spec (drop the invalid
    rows, convert, sort) gives the rows that the order of the code gives
    (convert, sort, drop the invalid rows), whatever arrangement of equal
    instants the sort picks, and hence the same document and counter. *)
Theorem drop_and_sort_commute df cols rs :
  prepare sort_values df = Ok (cols, rs) ->
  NoDup (List.map dt_object rs) ->
  prepare_drop_first sort_values df = Ok (cols, rs)
  /\ (forall sort', sorts sort' ->
      prepare sort' df = Ok (cols, rs)
      /\ prepare_drop_first sort' df = Ok (cols, rs))
  /\ (p <- prepare_drop_first sort_values df ;;
      emit_track (fst p) (snd p))%result
     = build_track sort_values df.
Proof.
  intros Hprep Hnd.
  assert (Hany : forall sort', sorts sort' ->
            prepare sort' df = Ok (cols, rs)
            /\ prepare_drop_first sort' df = Ok (cols, rs)).
  { intros sort' Hsort'.
    destruct (prepare_drop_first_sorted sort' _ _ _ Hprep)
      as (rs0 & Hrs & -> & ->).
    assert (Hs : StronglySorted key_order rs).
    { rewrite Hrs. apply StronglySorted_filter, Sorted_StronglySorted;
        [apply key_order_trans | apply sort_values_sorts]. }
    assert (Hp : Permutation rs (List.filter (notna_row cols) rs0)).
    { rewrite Hrs. apply Permutation_filter, Permutation_sym.
      apply sort_values_sorts. }
    split; do 2 f_equal; symmetry; apply sorting_unique;
      try assumption.
    - rewrite Hp. apply Permutation_filter, Hsort'.
    - apply StronglySorted_filter, Sorted_StronglySorted;
        [apply key_order_trans | apply Hsort'].
    - rewrite Hp. apply Hsort'.
    - apply Sorted_StronglySorted; [apply key_order_trans | apply Hsort']. }
  destruct (Hany sort_values sort_values_sorts) as [_ Hspec].
  split; [exact Hspec|]. split; [exact Hany|].
  unfold build_track. rewrite Hspec, Hprep. reflexivity.
Qed.

(** ** Timestamps that are not numbers *)

Lemma select_update cols label (f : cell -> cell) :
  forall row,
  select cols label (update cols label f row)
  = List.map f (select cols label row).
Proof.
  induction cols as [|c cols IH]; intros row; [destruct row; reflexivity|].
  destruct row as [|x row]; [reflexivity|]. cbn [update select].
  destruct (pystr_eqb c label); cbn [List.map]; rewrite IH; reflexivity.
Qed.







Lemma points_of_returns cols rs :
  (exists ps, points_of cols rs = Ok ps)
  <-> Forall (fun r => exists p, point_of cols r = Ok p) rs.
Proof.
  induction rs as [|r rs IH].
  - split; [constructor | exists []; reflexivity].
  - split.
    + intros (ps & H).
      apply points_of_cons in H as (a & ps' & _ & Ha & Hps).
      constructor; [eauto | apply IH; eauto].
    + intros H. inversion H as [|? ? (p & Hp) Hrs]; subst.
      apply IH in Hrs as (ps & Hps). exists (p :: ps).
      cbn [points_of]. rewrite Hp, Hps. reflexivity.
Qed.




Section CoercionFacts.

Variable parse_number : pystr -> option float.




End CoercionFacts.

(** ** The frame without a valid row *)




Lemma no_valid_row_raises df cols :
  prepare sort_values df = Ok (cols, []) ->
  build_track sort_values df = Raise IndexError.
Proof. intros H. unfold build_track. rewrite H. reflexivity. Qed.

(** C4: on a frame that has no valid row the builder does not return: the
    access to the last row raises IndexError, the turn of the file reports
    the failure and writes no document. *)
Theorem empty_frame_raises :
  (forall df cols output_path,
     prepare sort_values df = Ok (cols, []) ->
     process_and_generate_gpx sort_values df output_path
     = ([], Raise IndexError))
  /\ main parse_digits stable_sort
       [mkCsv (str "empty.csv") (Ok frame_header_only)]
     = [Processing (str "empty.csv"); Recognized Variflight;
        Failed IndexError]
  /\ main parse_digits stable_sort
       [mkCsv (str "gaps.csv") (Ok frame_no_valid_row)]
     = [Processing (str "gaps.csv"); Recognized Variflight;
        Failed IndexError].
Proof.
  split.
  - intros df cols output_path H.
    rewrite process_and_generate_gpx_run, (no_valid_row_raises _ _ H).
    reflexivity.
  - split; vm_compute; reflexivity.
Qed.

End BuilderFacts.

(** ** Runs of the properties on the sample frames, with the stable sort *)

Lemma track_times_nondecreasing_witness :
  exists track n,
    process_and_generate_gpx (res := Microseconds) stable_sort frame_std
      (str "output/std.gpx")
    = ([Written (str "output/std.gpx") track], Ok n)
    /\ StronglySorted time_le (List.concat track).
Proof.
  eexists _, _. split; [vm_compute; reflexivity|].
  eapply proj1,
    (track_times_nondecreasing (res := Microseconds) stable_sort
       stable_sort_sorts frame_std (str "output/std.gpx")).
  vm_compute. reflexivity.
Defined.

(** The run on [frame_std]: the gap of 396 seconds between the rows at 104
    and at 500 seconds starts a new segment. *)
Lemma gap_starts_new_segment_witness :
  exists cols track n tr1 n1 tr2 n2 a,
    prepare stable_sort frame_std
    = Ok (cols, [row_100; row_103] ++ row_104 :: row_500 :: [])
    /\ process_and_generate_gpx (res := Microseconds) stable_sort frame_std
         (str "output/std.gpx")
       = ([Written (str "output/std.gpx") track], Ok n)
    /\ Forall (chain within_max_gap) track
    /\ emit_track (res := Microseconds) cols ([row_100; row_103] ++ [row_104])
       = Ok (tr1, n1)
    /\ emit_track (res := Microseconds) cols (row_500 :: []) = Ok (tr2, n2)
    /\ track = tr1 ++ tr2 /\ n = n1 + n2
    /\ point_of cols row_104 = Ok a
    /\ (exists segs seg, tr1 = segs ++ [seg ++ [a]])
    /\ (exists q seg segs,
          tr2 = (q :: seg) :: segs /\ pt_time q = 500000000000).
Proof.
  destruct (gap_starts_new_segment (res := Microseconds) stable_sort
              stable_sort_sorts frame_std (str "output/std.gpx")
              [str "timestamp"; str "lat"; str "lon"; str "ele"]
              ([row_100; row_103] ++ row_104 :: row_500 :: []) _ _
              ltac:(vm_compute; reflexivity) ltac:(vm_compute; reflexivity))
    as (Hchain & _ & Hsplit).
  destruct (Hsplit [row_100; row_103] row_104 row_500 []
              104000000000 500000000000 eq_refl eq_refl eq_refl
              ltac:(vm_compute; reflexivity))
    as (tr1 & n1 & tr2 & n2 & a & H1 & H2 & H3 & H4 & H5 & H6 & H7).
  eexists _, _, _, tr1, n1, tr2, n2, a.
  split; [vm_compute; reflexivity|].
  split; [vm_compute; reflexivity|].
  repeat split; assumption.
Defined.

(** The run on [frame_std]: three points for the gap of three seconds
    between the rows at 100 and at 103 seconds. *)
Lemma interpolation_between_rows_witness :
  let cols := [str "timestamp"; str "lat"; str "lon"; str "ele"] in
  exists a b tr1 n1 tr2 n2 pts,
    point_of cols row_100 = Ok a /\ point_of cols row_103 = Ok b
    /\ emit_track (res := Microseconds) cols ([] ++ [row_100]) = Ok (tr1, n1)
    /\ emit_track (res := Microseconds) cols (row_103 :: [row_104; row_500])
       = Ok (tr2, n2)
    /\ List.concat tr1 = removelast (List.concat tr1) ++ [a]
    /\ List.concat
         [[mkTrackPoint (Float64 1) (Float64 10) (Float64 3) 100000000000;
           mkTrackPoint (Float64 0x1.5555555555555p+0)
             (Float64 0x1.aaaaaaaaaaaaap+3) (Float64 4) 101000000000;
           mkTrackPoint (Float64 0x1.aaaaaaaaaaaaap+0)
             (Float64 0x1.0aaaaaaaaaaaap+4) (Float64 5) 102000000000;
           mkTrackPoint (Float64 2) (Float64 20) (Float64 6) 103000000000;
           mkTrackPoint (Float64 3) (Float64 30) (Float64 7) 104000000000];
          [mkTrackPoint (Float64 5) (Float64 50) (Float64 9) 500000000000]]
       = removelast (List.concat tr1) ++ pts ++ List.concat tr2
    /\ Z.of_nat (List.length pts) = 3.
Proof.
  intros cols.
  destruct (interpolation_between_rows (res := Microseconds) stable_sort
              frame_std (str "output/std.gpx") cols [] row_100 row_103
              [row_104; row_500] _ _ 100000000000 103000000000
              ltac:(vm_compute; reflexivity) ltac:(vm_compute; reflexivity)
              eq_refl eq_refl ltac:(vm_compute; split; congruence))
    as (a & b & tr1 & n1 & tr2 & n2 & pts & H1 & H2 & H3 & H4 & H5 & H6
        & H7 & _).
  exists a, b, tr1, n1, tr2, n2, pts. repeat split; assumption.
Defined.

Lemma count_generated_counts_witness :
  exists cols rs track n,
    prepare stable_sort frame_std = Ok (cols, rs)
    /\ process_and_generate_gpx (res := Microseconds) stable_sort frame_std
         (str "output/std.gpx")
       = ([Written (str "output/std.gpx") track], Ok n)
    /\ n = Z.of_nat (List.length (List.concat track))
           - split_count (res := Microseconds) rs - 1.
Proof.
  eexists _, _, _, _. split; [vm_compute; reflexivity|].
  split; [vm_compute; reflexivity|].
  eapply (fun H1 H2 =>
            proj1 (proj2 (proj2
              (count_generated_counts (res := Microseconds) stable_sort
                 frame_std (str "output/std.gpx") _ _ _ _ H1 H2)))).
  - vm_compute. reflexivity.
  - vm_compute. reflexivity.
Defined.

Lemma nan_elevation_is_emitted_witness :
  exists rs r p,
    prepare stable_sort frame_nan_ele = Ok (columns frame_nan_ele, rs)
    /\ In r rs
    /\ cells r = [Num 101%float; Num 2%float; Num 20%float; Num nan]
    /\ In p (List.concat
               [[mkTrackPoint (Float64 1) (Float64 10) (Float64 3)
                   100000000000;
                 mkTrackPoint (Float64 2) (Float64 20) (Float64 nan)
                   101000000000];
                [mkTrackPoint (Float64 5) (Float64 50) (Float64 9)
                   500000000000]])
    /\ dt_object r = Some (pt_time p)
    /\ PrimFloat.is_nan (to_float (pt_ele p)) = true
    /\ text_ele (render_trkpt p) = str "nan".
Proof.
  refine (proj1 (nan_elevation_is_emitted (res := Microseconds) stable_sort
                   stable_sort_sorts frame_nan_ele (str "output/nan.gpx")
                   _ 1
                   [Num 101%float; Num 2%float; Num 20%float; Num nan] nan
                   eq_refl _ _ eq_refl eq_refl eq_refl eq_refl eq_refl)).
  - vm_compute. reflexivity.
  - simpl. auto.
Defined.

Lemma drop_and_sort_commute_witness :
  prepare_drop_first stable_sort frame_std
  = Ok ([str "timestamp"; str "lat"; str "lon"; str "ele"],
        [row_100; row_103; row_104; row_500]).
Proof.
  apply (proj1 (drop_and_sort_commute (res := Microseconds) stable_sort
                  stable_sort_sorts
                  frame_std _ _ ltac:(vm_compute; reflexivity)
                  ltac:(vm_compute;
                        repeat (constructor;
                                [simpl; intuition discriminate|]);
                        constructor))).
Defined.


(** ** Where the claims as they stand fail *)

(** The claim C2 as it stands fails where [total_seconds] drops what is
    below a microsecond: the two rows of [frame_gap_300] are more than
    MAX_GAP_SECONDS apart, by 100 nanoseconds, and the document has one
    segment, with 300 interpolated points from the one row to the other. *)
Lemma gap_starts_new_segment_counterexample :
  let t1 := 100000000000 in
  let t2 := 400000000100 in
  exists r1 r2 track,
    prepare stable_sort frame_gap_300
    = Ok ([str "timestamp"; str "lat"; str "lon"; str "ele"], [r1; r2])
    /\ dt_object r1 = Some t1 /\ dt_object r2 = Some t2
    /\ t2 - t1 > MAX_GAP_SECONDS * NS
    /\ build_track (res := Microseconds) stable_sort frame_gap_300
       = Ok (track, 300)
    /\ List.length track = 1%nat
    /\ List.length (List.concat track) = 301%nat.
Proof.
  cbv zeta. eexists _, _, _.
  split; [vm_compute; reflexivity|].
  split; [reflexivity|]. split; [reflexivity|].
  split; [reflexivity|].
  split; [vm_compute; reflexivity|]. split; reflexivity.
Qed.

(** The claim C1 as it stands fails in two places. Where [total_seconds]
    drops what is below a microsecond, the two rows of [frame_gap_1], which
    are more than INTERPOLATION_STEP apart, by 500 nanoseconds, go through
    the branch of the small gap: the point emitted for the earlier row has
    its elevation, where the interpolated point of fraction 0 has none, the
    later row having none. In [frame_int_ele], whose elevations are int64,
    their difference wraps around, and the point half way has the elevation
    2^63, where the two elevations, as floats, have 0 half way. *)
Lemma interpolation_between_rows_counterexample :
  (let a := mkTrackPoint (Float64 1) (Float64 10) (Float64 3) 100000000000 in
   let b := mkTrackPoint (Float64 2) (Float64 20) (Float64 nan)
              101000000500 in
   build_track (res := Microseconds) stable_sort frame_gap_1
   = Ok ([[a; b]], 1)
   /\ INTERPOLATION_STEP * NS < pt_time b - pt_time a
                              <= MAX_GAP_SECONDS * NS
   /\ (pt_time b - pt_time a) / (INTERPOLATION_STEP * NS) = 1
   /\ PrimFloat.is_nan (to_float (pt_ele (interp_point a b 1 0))) = true
   /\ PrimFloat.is_nan (to_float (pt_ele a)) = false)
  /\ (let v1 := Int64 (2 ^ 63 - 1) in
      let v2 := Int64 (- 2 ^ 63) in
      exists p0 p1 p2,
        build_track (res := Nanoseconds) stable_sort frame_int_ele
        = Ok ([[p0; p1; p2]], 2)
        /\ pt_time p0 = 100000000000 /\ pt_time p1 = 101000000000
        /\ pt_time p2 = 102000000000 /\ pt_ele p2 = v2
        /\ pt_ele p1 = Float64 0x1p63
        /\ (to_float v1
            + (to_float v2 - to_float v1)
              * (float_of_Z 1 / float_of_Z 2))%float
           = 0%float).
Proof.
  split.
  - cbv zeta. split; [vm_compute; reflexivity|].
    split; [vm_compute; split; congruence|].
    repeat split; vm_compute; reflexivity.
  - cbv zeta. eexists _, _, _.
    split; [vm_compute; reflexivity|].
    repeat split; vm_compute; reflexivity.
Qed.

(** The claim C9 as it stands fails in two places. In
    [frame_inf_timestamp] the row without latitude has a timestamp that
    does not convert: the code, which converts before it drops, raises,
    where the order of the spec gives the valid row and its document. In
    [frame_same_instant] the two valid rows have distinct timestamps that
    fall in the same nanosecond, and a sort whose order of equal instants
    depends on the number of rows gives them in one order after the drop
    and in the other before it. *)
Lemma drop_and_sort_commute_counterexample :
  let cols := [str "timestamp"; str "lat"; str "lon"; str "ele"] in
  (prepare stable_sort frame_inf_timestamp = Raise OutOfBoundsDatetime
   /\ prepare_drop_first stable_sort frame_inf_timestamp
      = Ok (cols, [row_100])
   /\ build_track (res := Microseconds) stable_sort frame_inf_timestamp
      = Raise OutOfBoundsDatetime
   /\ exists track n,
        emit_track (res := Microseconds) cols [row_100] = Ok (track, n))
  /\ (let x1 := 0x1.9000000000001p+6%float in
      let x2 := 0x1.9000000000002p+6%float in
      let r1 := mkRow (Some 100000000000)
                  [Num x1; Num 1%float; Num 10%float; Num 3%float] in
      let r2 := mkRow (Some 100000000000)
                  [Num x2; Num 2%float; Num 20%float; Num 6%float] in
      sorts parity_sort
      /\ x1 <> x2
      /\ prepare parity_sort frame_same_instant = Ok (cols, [r2; r1])
      /\ prepare_drop_first parity_sort frame_same_instant
         = Ok (cols, [r1; r2])).
Proof.
  cbv zeta. split.
  - split; [vm_compute; reflexivity|]. split; [vm_compute; reflexivity|].
    split; [vm_compute; reflexivity|].
    eexists _, _. vm_compute. reflexivity.
  - split; [exact parity_sort_sorts|]. split.
    + intros H. apply (f_equal Prim2SF) in H. vm_compute in H.
      discriminate H.
    + split; vm_compute; reflexivity.
Qed.

(* ================================================================== *)
(** ** Where the builder returns *)


Section BuilderOutcome.

(** The properties hold at either resolution of [total_seconds]. *)
Context {res : resolution}.
Variable sort_values : list Row -> list Row.


End BuilderOutcome.

(* ================================================================== *)
(** ** The shape of the document *)

Section ShapeFacts.

(** The properties hold at either resolution of [total_seconds]. *)
Context {res : resolution}.

Lemma document_last ps track n :
  document ps = Ok (track, n) ->
  exists last segs seg,
    iloc_last ps = Ok last /\ track = segs ++ [seg ++ [last]].
Proof.
  unfold document. intros H. apply rbind_Ok in H as (last & Hl & H).
  cbv zeta in H. inv_ok. eauto.
Qed.

Lemma points_of_length cols :
  forall rs ps, points_of cols rs = Ok ps -> List.length ps = List.length rs.
Proof.
  induction rs as [|r rs IH]; intros ps H.
  - simpl in H. inv_ok. reflexivity.
  - apply points_of_cons in H as (a & ps' & -> & _ & H).
    simpl. rewrite (IH _ H). reflexivity.
Qed.

Lemma emitted_length_bounds (a b : TrackPoint) :
  1 <= Z.of_nat (List.length (emitted a b))
    <= MAX_GAP_SECONDS / INTERPOLATION_STEP.
Proof.
  rewrite emitted_length. cbv zeta.
  destruct (total_seconds (pt_time b - pt_time a)
            >? MAX_GAP_SECONDS * NS) eqn:Hsplit;
    [vm_compute; split; discriminate|].
  destruct (total_seconds (pt_time b - pt_time a)
            <=? INTERPOLATION_STEP * NS) eqn:Hs;
    [vm_compute; split; discriminate|].
  pose proof (steps_positive _ Hs) as Hpos.
  rewrite Z.gtb_ltb in Hsplit. apply Z.ltb_ge in Hsplit.
  split; [lia|].
  change (MAX_GAP_SECONDS / INTERPOLATION_STEP) with 300.
  unfold MAX_GAP_SECONDS, INTERPOLATION_STEP, NS in *.
  apply Z.div_le_upper_bound; lia.
Qed.

Lemma stream_length_bounds (ps : list TrackPoint) :
  Z.of_nat (List.length ps) <= Z.of_nat (List.length (stream ps)) + 1
  /\ (ps <> [] ->
      Z.of_nat (List.length (stream ps))
      <= MAX_GAP_SECONDS / INTERPOLATION_STEP
         * (Z.of_nat (List.length ps) - 1)).
Proof.
  change (MAX_GAP_SECONDS / INTERPOLATION_STEP) with 300.
  induction ps as [|a ps IH]; [simpl; split; [lia | congruence]|].
  destruct ps as [|b rest]; [simpl; split; lia|].
  rewrite stream_step, length_app, Nat2Z.inj_add.
  pose proof (emitted_length_bounds a b) as Hb.
  change (MAX_GAP_SECONDS / INTERPOLATION_STEP) with 300 in Hb.
  destruct IH as [IH1 IH2]. specialize (IH2 ltac:(discriminate)).
  cbn [List.length] in *. split; [lia | intros _; lia].
Qed.

Lemma sum_gaps_nonneg test weight (rs : list Row) :
  (forall d, test d = true -> 0 <= weight d) ->
  0 <= sum_gaps test weight rs.
Proof.
  intros Hw. induction rs as [|r rs IH]; [simpl; lia|].
  destruct rs as [|r2 rest]; [simpl; lia|].
  rewrite sum_gaps_step.
  destruct (time_diff (dt_object r) (dt_object r2)) as [d|]; [|lia].
  destruct (test d) eqn:E; [apply Hw in E|]; lia.
Qed.

Section DocumentShape.

Variable sort_values : list Row -> list Row.

Lemma process_document df output_path cols rs track n :
  prepare sort_values df = Ok (cols, rs) ->
  process_and_generate_gpx sort_values df output_path
  = ([Written output_path track], Ok n) ->
  exists ps, points_of cols rs = Ok ps /\ document ps = Ok (track, n).
Proof.
  intros Hprep Hbuild. apply process_and_generate_gpx_inv in Hbuild.
  rewrite (build_track_emit _ _ _ _ Hprep) in Hbuild.
  apply emit_track_inv. exact Hbuild.
Qed.

(** No segment of the document is empty. The document starts with a point
    at the instant of the first row the loop runs over, and its last
    segment ends with the point of the last row, as that row has it. *)
Theorem segments_and_endpoints df output_path cols rs track n :
  prepare sort_values df = Ok (cols, rs) ->
  process_and_generate_gpx sort_values df output_path
  = ([Written output_path track], Ok n) ->
  Forall (fun seg : segment => seg <> []) track
  /\ (exists first rest q seg segs,
        rs = first :: rest /\ track = (q :: seg) :: segs
        /\ dt_object first = Some (pt_time q))
  /\ (exists last p segs seg,
        iloc_last rs = Ok last /\ point_of cols last = Ok p
        /\ track = segs ++ [seg ++ [p]]).
Proof.
  intros Hprep Hbuild.
  destruct (process_document _ _ _ _ _ _ Hprep Hbuild) as (ps & Hps & Hdoc).
  split; [apply (document_nonempty _ _ _ Hdoc)|]. split.
  - destruct rs as [|first rest]; [simpl in Hps; inv_ok; discriminate|].
    apply points_of_cons in Hps as (a & ps' & -> & Ha & _).
    destruct (document_head _ _ _ _ Hdoc) as (q & seg & segs & -> & Hq).
    apply point_of_fields in Ha as (_ & _ & _ & Ht).
    exists first, rest, q, seg, segs. rewrite Hq. auto.
  - destruct (document_last _ _ _ Hdoc) as (l & segs & seg & Hl & ->).
    destruct (iloc_last_cases rs) as [[-> _] | [last Hlast]].
    { simpl in Hps. inv_ok. discriminate. }
    destruct (iloc_last_points _ _ _ _ Hps Hlast) as (p & Hp & Hlp).
    assert (l = p) by congruence. subst l.
    exists last, p, segs, seg. auto.
Qed.

(** Every row the loop runs over has a point at its own instant in the
    document, rows of equal instants included: the document has at least as
    many points as there are rows, and at most
    MAX_GAP_SECONDS / INTERPOLATION_STEP for each pair of neighbours and one
    more. The counter that is returned is below the number of points. *)
Theorem every_row_is_emitted df output_path cols rs track n :
  prepare sort_values df = Ok (cols, rs) ->
  process_and_generate_gpx sort_values df output_path
  = ([Written output_path track], Ok n) ->
  (forall r, In r rs ->
     exists p, In p (List.concat track) /\ dt_object r = Some (pt_time p))
  /\ Z.of_nat (List.length rs) <= Z.of_nat (List.length (List.concat track))
  /\ Z.of_nat (List.length (List.concat track))
     <= MAX_GAP_SECONDS / INTERPOLATION_STEP
        * (Z.of_nat (List.length rs) - 1) + 1
  /\ 0 <= n < Z.of_nat (List.length (List.concat track)).
Proof.
  intros Hprep Hbuild.
  destruct (process_document _ _ _ _ _ _ Hprep Hbuild) as (ps & Hps & Hdoc).
  split.
  { intros r Hr. destruct (points_of_In _ _ _ _ Hps Hr) as (a & Ha & Hp).
    destruct (document_contains _ _ _ _ Ha Hdoc) as (p & Hin & Ht & _).
    exists p. split; [exact Hin|].
    apply point_of_fields in Hp as (_ & _ & _ & Hdt). congruence. }
  destruct (document_points _ _ _ Hdoc) as (last & Hl & Hc).
  assert (Hne : ps <> []) by (intros ->; discriminate).
  destruct (stream_length_bounds ps) as [H1 H2]. specialize (H2 Hne).
  rewrite <- (points_of_length _ _ _ Hps).
  assert (Hlen : Z.of_nat (List.length (List.concat track))
                 = Z.of_nat (List.length (stream ps)) + 1).
  { rewrite Hc, length_app. simpl List.length. lia. }
  split; [lia|]. split; [lia|].
  pose proof (stream_length ps) as Hs.
  unfold document in Hdoc. rewrite Hl in Hdoc. cbn [rbind] in Hdoc.
  cbv zeta in Hdoc. injection Hdoc as _ Hn.
  destruct (advance_all_counts ps (mkBuilder [] [] 0)) as [Hcount _].
  cbn [count_generated] in Hcount.
  assert (0 <= small_gap_points (List.map row_at ps))
    by (apply sum_gaps_nonneg; intros; lia).
  assert (0 <= split_count (List.map row_at ps))
    by (apply sum_gaps_nonneg; intros; lia).
  assert (0 <= interpolated_points (List.map row_at ps)).
  { apply sum_gaps_nonneg. intros d Hd.
    apply andb_true_iff in Hd as [_ Hd]. apply negb_true_iff in Hd.
    pose proof (steps_positive _ Hd). lia. }
  lia.
Qed.

End DocumentShape.

End ShapeFacts.

(* ================================================================== *)
(** ** Neighbours in a segment *)

Section DenseFacts.

(** The properties hold at either resolution of [total_seconds]. *)
Context {res : resolution}.

Lemma interp_times_dense (ta tb steps : Z) :
  steps * NS <= tb - ta < (steps + 1) * NS ->
  forall len start,
  Z.of_nat (start + len) = steps ->
  chain step_gap
    (List.map (fun k => ta + k * NS) (List.map Z.of_nat (seq start len))
     ++ [tb]).
Proof.
  intros Hb. induction len as [|len IH]; intros start E; [exact I|].
  destruct len as [|len].
  - simpl. split; [|exact I].
    unfold step_gap, INTERPOLATION_STEP, NS in *. lia.
  - change (step_gap (ta + Z.of_nat start * NS)
              (ta + Z.of_nat (S start) * NS)
            /\ chain step_gap
                 (List.map (fun k => ta + k * NS)
                    (List.map Z.of_nat (seq (S start) (S len))) ++ [tb])).
    split; [unfold step_gap, INTERPOLATION_STEP, NS; lia|].
    apply IH. lia.
Qed.

Lemma advance_dense (a b : TrackPoint) (st : builder) :
  pt_time a <= pt_time b ->
  dense st (pt_time a) -> dense (advance a b st) (pt_time b).
Proof.
  intros Hab [Hclosed Hopen]. unfold advance, dense.
  destruct (total_seconds (pt_time b - pt_time a)
            >? MAX_GAP_SECONDS * NS) eqn:Hsplit.
  { cbn [trk trkseg]. split; [|exact I].
    apply Forall_app. split; [exact Hclosed|].
    constructor; [|constructor]. rewrite map_app. exact Hopen. }
  destruct (total_seconds (pt_time b - pt_time a)
            <=? INTERPOLATION_STEP * NS) eqn:Hsmall;
    cbn [trk trkseg]; (split; [exact Hclosed|]).
  { rewrite map_app, <- app_assoc. apply chain_link; [exact Hopen|].
    apply Z.leb_le in Hsmall. split; [|exact I].
    pose proof (total_seconds_bounds (pt_time b - pt_time a)) as [Hd Ht].
    unfold step_gap, INTERPOLATION_STEP, NS in *. lia. }
  pose proof (steps_positive _ Hsmall) as Hpos.
  pose proof (steps_bounds (pt_time b - pt_time a) ltac:(lia)) as Hb.
  cbv zeta in Hb.
  set (steps := total_seconds (pt_time b - pt_time a)
                / (INTERPOLATION_STEP * NS)) in *.
  rewrite map_app, <- app_assoc, map_map.
  pose proof (interp_times_dense (pt_time a) (pt_time b) steps
                Hb (Z.to_nat steps) 0%nat ltac:(lia)) as Hc.
  change (List.map (fun x => pt_time (interp_point a b steps x))
            (range steps))
    with (List.map (fun k => pt_time a + k * NS) (range steps)).
  unfold range in *. rewrite map_map in *.
  destruct (Z.to_nat steps) as [|len] eqn:El; [lia|].
  cbn [seq List.map app] in *.
  replace (pt_time a + Z.of_nat 0 * NS) with (pt_time a) in * by lia.
  apply chain_link; assumption.
Qed.

Lemma advance_all_dense (ps : list TrackPoint) :
  StronglySorted time_le ps ->
  forall st a rest last,
  ps = a :: rest -> iloc_last ps = Ok last ->
  dense st (pt_time a) -> dense (advance_all ps st) (pt_time last).
Proof.
  induction 1 as [|x ps Hs IH Hx]; intros st a rest last E Hl Ht;
    [discriminate|].
  injection E as <- <-.
  destruct ps as [|b rest].
  - simpl in Hl. inv_ok. exact Ht.
  - rewrite advance_all_step.
    apply (IH _ b rest last eq_refl Hl). apply advance_dense; [|exact Ht].
    inversion Hx; assumption.
Qed.

Lemma document_dense ps track n :
  StronglySorted time_le ps ->
  document ps = Ok (track, n) ->
  Forall (fun seg => chain step_gap (List.map pt_time seg)) track.
Proof.
  unfold document. intros Hs H. apply rbind_Ok in H as (last & Hl & H).
  cbv zeta in H. inv_ok.
  destruct ps as [|a rest]; [discriminate|].
  destruct (advance_all_dense (a :: rest) Hs (mkBuilder [] [] 0) a rest last
              eq_refl Hl) as [H1 H2].
  { split; [constructor | exact I]. }
  apply Forall_app. split; [exact H1|].
  constructor; [|constructor]. rewrite map_app. exact H2.
Qed.

(* ================================================================== *)
(** ** Rows of distinct instants *)

Lemma points_of_instants cols :
  forall rs ps, points_of cols rs = Ok ps ->
  List.map dt_object rs = List.map Some (List.map pt_time ps).
Proof.
  induction rs as [|r rs IH]; intros ps H.
  - simpl in H. inv_ok. reflexivity.
  - apply points_of_cons in H as (a & ps' & -> & Ha & H).
    apply point_of_fields in Ha as (_ & _ & _ & Ht).
    simpl. rewrite Ht, (IH _ H). reflexivity.
Qed.

Lemma NoDup_map_Some {A} (l : list A) :
  NoDup (List.map Some l) <-> NoDup l.
Proof.
  split; [apply NoDup_map_inv|].
  induction 1 as [|x l Hx _ IH]; simpl; constructor; [|exact IH].
  rewrite in_map_iff. intros (y & E & Hy). injection E as ->. auto.
Qed.

Lemma sorted_distinct_strict (ps : list TrackPoint) :
  StronglySorted time_le ps -> NoDup (List.map pt_time ps) ->
  StronglySorted time_lt ps.
Proof.
  induction 1 as [|x ps Hs IH Hx]; intros Hnd; [constructor|].
  simpl in Hnd. inversion Hnd as [|? ? Hnot Hnd']; subst.
  constructor; [apply IH; exact Hnd'|].
  apply Forall_forall. intros y Hy.
  pose proof (proj1 (Forall_forall _ _) Hx y Hy) as Hle.
  unfold time_le, time_lt in *.
  assert (pt_time x <> pt_time y).
  { intros E. apply Hnot. rewrite E. apply in_map. exact Hy. }
  lia.
Qed.

Lemma strict_distinct (ps : list TrackPoint) :
  StronglySorted time_lt ps -> NoDup (List.map pt_time ps).
Proof.
  induction 1 as [|x ps Hs IH Hx]; simpl; constructor; [|exact IH].
  rewrite in_map_iff. intros (y & E & Hy).
  pose proof (proj1 (Forall_forall _ _) Hx y Hy) as Hlt.
  unfold time_lt in Hlt. lia.
Qed.

(** The points of one visit are before the instant of the next row, in
    strict order, where the two rows are. *)
Lemma emitted_before (a b : TrackPoint) :
  pt_time a < pt_time b ->
  StronglySorted time_lt (emitted a b)
  /\ Forall (fun p => pt_time a <= pt_time p < pt_time b) (emitted a b).
Proof.
  intros Hab. rewrite emitted_cases. cbv zeta.
  destruct (total_seconds (pt_time b - pt_time a) >? MAX_GAP_SECONDS * NS).
  { split; repeat constructor; lia. }
  destruct (total_seconds (pt_time b - pt_time a)
            <=? INTERPOLATION_STEP * NS) eqn:Hs.
  { split; repeat constructor; lia. }
  pose proof (steps_bounds (pt_time b - pt_time a) ltac:(lia)) as Hb.
  cbv zeta in Hb.
  set (steps := total_seconds (pt_time b - pt_time a)
                / (INTERPOLATION_STEP * NS)) in *.
  split.
  - apply (StronglySorted_map Z.lt); [|apply range_sorted].
    intros x y Hxy. unfold time_lt, interp_point, NS. simpl. lia.
  - apply Forall_forall. intros p Hp.
    apply in_map_iff in Hp as (k & <- & Hk). apply range_In in Hk.
    unfold interp_point, NS in *. simpl. lia.
Qed.

Lemma emission_strict (ps : list TrackPoint) :
  StronglySorted time_lt ps ->
  forall a rest last, ps = a :: rest -> iloc_last ps = Ok last ->
  StronglySorted time_lt (stream ps ++ [last])
  /\ Forall (fun p => pt_time a <= pt_time p) (stream ps ++ [last]).
Proof.
  induction 1 as [|x ps Hs IH Hx]; intros a rest last E Hl; [discriminate|].
  injection E as <- <-.
  destruct ps as [|b rest].
  - simpl in Hl. inv_ok. simpl. split; repeat constructor. lia.
  - assert (Hab : pt_time x < pt_time b) by (inversion Hx; assumption).
    destruct (IH b rest last eq_refl Hl) as (IH1 & IH2).
    destruct (emitted_before x b Hab) as (E1 & E2).
    rewrite stream_step, <- app_assoc. split.
    + apply StronglySorted_app; [assumption | assumption |].
      intros p q Hp Hq. unfold time_lt.
      pose proof (proj1 (Forall_forall _ _) E2 p Hp) as Hp'.
      pose proof (proj1 (Forall_forall _ _) IH2 q Hq) as Hq'.
      simpl in *. lia.
    + apply Forall_app. split.
      * revert E2. apply Forall_impl. intros; lia.
      * revert IH2. apply Forall_impl. intros; lia.
Qed.

(** Every row has a point at its instant among the points of the loop and
    the last one. *)
Lemma stream_contains (ps : list TrackPoint) (last c : TrackPoint) :
  iloc_last ps = Ok last -> In c ps ->
  In (pt_time c) (List.map pt_time (stream ps ++ [last])).
Proof.
  intros Hl Hin. apply in_split in Hin as (before & after & ->).
  rewrite iloc_last_app in Hl. apply in_map_iff.
  destruct after as [|b after].
  - simpl in Hl. injection Hl as <-. exists c.
    split; [reflexivity | apply in_or_app; right; simpl; auto].
  - rewrite stream_app, stream_step.
    destruct (emitted_head c b) as (p & rest & -> & Ht).
    exists p. split; [exact Ht|].
    apply in_or_app; left. apply in_or_app; right. simpl; auto.
Qed.

Lemma stream_distinct (ps : list TrackPoint) :
  forall last, iloc_last ps = Ok last ->
  NoDup (List.map pt_time (stream ps ++ [last])) ->
  NoDup (List.map pt_time ps).
Proof.
  induction ps as [|a ps IH]; intros last Hl Hnd; [constructor|].
  destruct ps as [|b rest]; [repeat constructor; simpl; tauto|].
  rewrite stream_step, <- app_assoc in Hnd.
  destruct (emitted_head a b) as (p & e & Hp & Ht).
  rewrite Hp in Hnd. simpl in Hnd. rewrite Ht in Hnd.
  inversion Hnd as [|? ? Hnot Hnd']; subst.
  rewrite map_app in Hnot, Hnd'.
  apply NoDup_app_remove_l in Hnd'.
  change (iloc_last (b :: rest) = Ok last) in Hl.
  constructor; [|apply (IH last Hl Hnd')].
  intros Hin. apply Hnot. apply in_or_app. right.
  change (In (pt_time a) (List.map pt_time (b :: rest))) in Hin.
  apply in_map_iff in Hin as (c & <- & Hc).
  apply (stream_contains (b :: rest) last c Hl Hc).
Qed.

Section SortedDocument.

Variable sort_values : list Row -> list Row.
Hypothesis sort_values_sorts : sorts sort_values.

Lemma process_sorted_document df output_path cols rs track n :
  prepare sort_values df = Ok (cols, rs) ->
  process_and_generate_gpx sort_values df output_path
  = ([Written output_path track], Ok n) ->
  exists ps,
    points_of cols rs = Ok ps /\ document ps = Ok (track, n)
    /\ StronglySorted time_le ps.
Proof.
  intros Hprep Hbuild.
  destruct (process_document _ _ _ _ _ _ _ Hprep Hbuild) as (ps & Hps & Hdoc).
  exists ps. repeat split; try assumption.
  apply (points_of_sorted cols rs); [assumption|].
  apply (prepare_sorted sort_values sort_values_sorts df cols rs Hprep).
Qed.

(** In every segment of the document, two neighbours are in order and less
    than two interpolation steps apart: the loop leaves no gap of two
    seconds inside a segment. *)
Theorem segments_are_dense df output_path track n :
  process_and_generate_gpx sort_values df output_path
  = ([Written output_path track], Ok n) ->
  Forall (chain within_two_steps) track.
Proof.
  intros Hbuild. apply process_and_generate_gpx_inv in Hbuild.
  apply (build_track_inv sort_values sort_values_sorts) in Hbuild
    as (cols & rs & ps & _ & _ & _ & Hdoc & Hs).
  pose proof (document_dense _ _ _ Hs Hdoc) as Hd.
  revert Hd. apply Forall_impl. intros seg H.
  apply (proj1 (chain_map step_gap pt_time seg)) in H. exact H.
Qed.

(** The points of the document have pairwise distinct instants exactly
    where the rows the loop runs over have: rows of equal instants are not
    merged, and the loop adds no instant twice. With distinct instants the
    points are in strictly ascending order. *)
Theorem distinct_instants_stay_distinct df output_path cols rs track n :
  prepare sort_values df = Ok (cols, rs) ->
  process_and_generate_gpx sort_values df output_path
  = ([Written output_path track], Ok n) ->
  (NoDup (List.map dt_object rs)
   <-> NoDup (List.map pt_time (List.concat track)))
  /\ (NoDup (List.map dt_object rs) ->
      StronglySorted time_lt (List.concat track)).
Proof.
  intros Hprep Hbuild.
  destruct (process_sorted_document _ _ _ _ _ _ Hprep Hbuild)
    as (ps & Hps & Hdoc & Hs).
  destruct (document_points _ _ _ Hdoc) as (last & Hl & Hc).
  rewrite (points_of_instants _ _ _ Hps), NoDup_map_Some, Hc.
  assert (Hstrict : NoDup (List.map pt_time ps) ->
                    StronglySorted time_lt (stream ps ++ [last])).
  { intros Hnd. destruct ps as [|a rest]; [discriminate|].
    apply (emission_strict (a :: rest)
             (sorted_distinct_strict _ Hs Hnd) a rest last eq_refl Hl). }
  split; [split|exact Hstrict].
  - intros Hnd. apply strict_distinct, Hstrict, Hnd.
  - apply stream_distinct. exact Hl.
Qed.

End SortedDocument.

End DenseFacts.

(* ================================================================== *)
(** ** The turns of the batch *)

Lemma written_app (l1 l2 : list event) :
  written (l1 ++ l2) = written l1 ++ written l2.
Proof.
  induction l1 as [|e l1 IH]; [reflexivity|].
  destruct e; simpl; rewrite ?IH; reflexivity.
Qed.

Lemma outputs_written (log : list event) :
  NoDup (List.map fst (written log)) -> outputs log = written log.
Proof.
  induction log as [|e log IH]; [reflexivity|].
  destruct e; simpl; try exact IH.
  intros Hnd. inversion Hnd as [|? ? Hnot Hnd']; subst.
  rewrite (IH Hnd').
  destruct (existsb (fun p => pystr_eqb (fst p) output_path) (written log))
    eqn:E; [|reflexivity].
  exfalso. apply Hnot. apply existsb_exists in E as (p & Hp & Heq).
  apply pystr_eqb_eq in Heq. subst. apply in_map. exact Hp.
Qed.

Lemma csv_glob_root (name : pystr) :
  csv_glob name = true ->
  exists c root, name = (c :: root) ++ str ".csv" /\ c <> 46%N.
Proof.
  unfold csv_glob. destruct name as [|c0 name0]; [discriminate|].
  intros H. apply andb_true_iff in H as [Hdot H].
  destruct (rev (c0 :: name0)) as [|v [|s [|c [|d r]]]] eqn:Hrev;
    try discriminate.
  rewrite !andb_true_iff, !N.eqb_eq in H. destruct H as [[[-> ->] ->] ->].
  apply (f_equal (@rev N)) in Hrev. rewrite rev_involutive in Hrev.
  simpl in Hrev. rewrite <- !app_assoc in Hrev. simpl in Hrev.
  apply negb_true_iff, N.eqb_neq in Hdot.
  destruct (rev r) as [|c1 root] eqn:Hr.
  - simpl in Hrev. injection Hrev as -> _. congruence.
  - simpl in Hrev. injection Hrev as -> ->. exists c1, root. auto.
Qed.

Lemma splitext_root_csv (c : N) (root : pystr) :
  c <> 46%N -> splitext_root ((c :: root) ++ str ".csv") = c :: root.
Proof.
  intros Hc. unfold splitext_root. rewrite rev_app_distr.
  change (rev (str ".csv")) with [118; 115; 99; 46]%N. cbn [app].
  cbn [N.eqb Pos.eqb]. rewrite rev_involutive. cbn [forallb].
  apply N.eqb_neq in Hc. rewrite N.eqb_sym, Hc. reflexivity.
Qed.

Lemma output_path_of_csv (c : N) (root : pystr) :
  c <> 46%N ->
  output_path_of ((c :: root) ++ str ".csv")
  = str "output/" ++ (c :: root) ++ str ".gpx".
Proof.
  intros Hc. unfold output_path_of. rewrite (splitext_root_csv c root Hc).
  reflexivity.
Qed.

Lemma output_path_of_inj (n1 n2 : pystr) :
  csv_glob n1 = true -> csv_glob n2 = true ->
  output_path_of n1 = output_path_of n2 -> n1 = n2.
Proof.
  intros H1 H2 E.
  apply csv_glob_root in H1 as (c1 & r1 & -> & Hc1).
  apply csv_glob_root in H2 as (c2 & r2 & -> & Hc2).
  rewrite !output_path_of_csv in E by assumption.
  apply app_inv_head, app_inv_tail in E. rewrite E. reflexivity.
Qed.

(** Two names that [glob] gives for [*.csv] have different output paths:
    the path is the folder, the name without its extension, and [.gpx]. *)
Theorem output_paths_are_distinct (n1 n2 : pystr) :
  csv_glob n1 = true -> csv_glob n2 = true ->
  (exists root, n1 = root ++ str ".csv"
                /\ output_path_of n1 = str "output/" ++ root ++ str ".gpx")
  /\ (output_path_of n1 = output_path_of n2 <-> n1 = n2).
Proof.
  intros H1 H2. split.
  - apply csv_glob_root in H1 as (c1 & r1 & -> & Hc1).
    exists (c1 :: r1). split; [reflexivity|].
    apply output_path_of_csv. exact Hc1.
  - split; [apply output_path_of_inj; assumption | congruence].
Qed.

Lemma output_paths_are_distinct_witness :
  output_path_of (str "a.b.csv") = output_path_of (str "a.csv")
  <-> str "a.b.csv" = str "a.csv".
Proof.
  apply (proj2 (output_paths_are_distinct (str "a.b.csv") (str "a.csv")
                  eq_refl eq_refl)).
Defined.

Lemma output_paths_NoDup (files : list csv_file) :
  NoDup (List.map file_name files) ->
  Forall (fun f => csv_glob (file_name f) = true) files ->
  NoDup (List.map (fun f => output_path_of (file_name f)) files).
Proof.
  induction files as [|f files IH]; intros Hnd Hglob; [constructor|].
  simpl in Hnd. inversion Hnd as [|? ? Hnot Hnd']; subst.
  inversion Hglob as [|? ? Hf Hglob']; subst.
  simpl. constructor; [|apply IH; assumption].
  rewrite in_map_iff. intros (g & E & Hg). apply Hnot.
  apply output_path_of_inj in E;
    [|exact (proj1 (Forall_forall _ _) Hglob' g Hg) | exact Hf].
  rewrite <- E. apply in_map. exact Hg.
Qed.

Section BatchOutcome.

(** The properties hold at either resolution of [total_seconds]. *)
Context {res : resolution}.
Variable parse_number : pystr -> option float.
Variable sort_values : list Row -> list Row.

Lemma handle_cases (f : csv_file) :
  let name := file_name f in
  (exists e,
     read_csv f = Raise e
     /\ handle parse_number sort_values f = [Processing name; Failed e])
  \/ (exists df cols,
        read_csv f = Ok df
        /\ handle parse_number sort_values f
           = [Processing name; Unrecognized name cols])
  \/ (exists df fmt e,
        read_csv f = Ok df
        /\ handle parse_number sort_values f
           = [Processing name; Recognized fmt; Failed e])
  \/ (exists df fmt doc n,
        read_csv f = Ok df
        /\ handle parse_number sort_values f
           = [Processing name; Recognized fmt;
              Written (output_path_of name) doc;
              Converted fmt n (output_path_of name)]).
Proof.
  intros name.
  remember (handle parse_number sort_values f) as h eqn:Hh.
  unfold handle, convert in Hh. fold name in Hh.
  destruct (read_csv f) as [df|e]; [|left; exists e; auto]. right.
  unfold lift at 1 in Hh. unfold bind at 1 in Hh.
  unfold standardize_dataframe in Hh. cbv zeta in Hh.
  set (cols := List.map strip (columns df)) in Hh.
  destruct (contains cols (str "Time") && contains cols (str "Latitude")
            && contains cols (str "Longitude")).
  { cbn [lift bind emit ret app] in Hh.
    destruct (coerce_timestamp _ _) as [std|e];
      [|right; left; exists df, Variflight, e; auto].
    cbn [lift bind emit ret app] in Hh.
    rewrite process_and_generate_gpx_run in Hh.
    destruct (build_track sort_values std) as [[doc n]|e];
      cbn [fst snd] in Hh.
    - right; right. exists df, Variflight, doc, n. auto.
    - right; left. exists df, Variflight, e. auto. }
  destruct (contains cols (str "dataTime") && contains cols (str "latitude")
            && contains cols (str "longitude")).
  { cbn [lift bind emit ret app] in Hh.
    destruct (coerce_timestamp _ _) as [std|e];
      [|right; left; exists df, Footprint, e; auto].
    cbn [lift bind emit ret app] in Hh.
    rewrite process_and_generate_gpx_run in Hh.
    destruct (build_track sort_values std) as [[doc n]|e];
      cbn [fst snd] in Hh.
    - right; right. exists df, Footprint, doc, n. auto.
    - right; left. exists df, Footprint, e. auto. }
  left. exists df, cols. auto.
Qed.


Lemma handle_events (f : csv_file) :
  let log := handle parse_number sort_values f in
  List.filter is_processing log = [Processing (file_name f)]
  /\ List.length (List.filter is_outcome log) = 1%nat
  /\ (List.map fst (written log) = []
      \/ List.map fst (written log) = [output_path_of (file_name f)]).
Proof.
  cbv zeta. destruct (handle_cases f)
    as [(e & _ & H) | [(df & cols & _ & H) | [(df & fmt & e & _ & H)
       | (df & fmt & doc & n & _ & H)]]]; rewrite H; simpl; auto.
Qed.

Lemma main_flat (files : list csv_file) :
  files <> [] ->
  main parse_number sort_values files
  = flat_map (handle parse_number sort_values) files.
Proof. destruct files; [congruence | reflexivity]. Qed.


Lemma written_paths (files : list csv_file) :
  forall path,
  In path (List.map fst
             (written (flat_map (handle parse_number sort_values) files))) ->
  In path (List.map (fun f => output_path_of (file_name f)) files).
Proof.
  induction files as [|f files IH]; intros path Hin; [contradiction|].
  cbn [flat_map] in Hin. rewrite written_app, map_app in Hin.
  apply in_app_or in Hin as [Hin | Hin].
  - destruct (handle_events f) as (_ & _ & [E | E]); rewrite E in Hin.
    + contradiction.
    + destruct Hin as [<- | []]. simpl; auto.
  - right. apply IH. exact Hin.
Qed.

Lemma written_paths_distinct (files : list csv_file) :
  NoDup (List.map (fun f => output_path_of (file_name f)) files) ->
  NoDup (List.map fst
           (written (flat_map (handle parse_number sort_values) files))).
Proof.
  induction files as [|f files IH]; intros Hnd; [constructor|].
  simpl in Hnd. inversion Hnd as [|? ? Hnot Hnd']; subst.
  cbn [flat_map]. rewrite written_app, map_app.
  destruct (handle_events f) as (_ & _ & [E | E]); rewrite E.
  - apply IH. exact Hnd'.
  - simpl. constructor; [|apply IH; exact Hnd'].
    intros Hin. apply Hnot. apply written_paths. exact Hin.
Qed.

(** In a batch of files of distinct names, as [glob] gives them, no
    document is written over another: what the run leaves in the output
    folder are all the documents it wrote. *)
Theorem no_output_is_overwritten (files : list csv_file) :
  NoDup (List.map file_name files) ->
  Forall (fun f => csv_glob (file_name f) = true) files ->
  let log := main parse_number sort_values files in
  outputs log = written log /\ NoDup (List.map fst (written log)).
Proof.
  intros Hnd Hglob log.
  assert (H : NoDup (List.map fst (written log))).
  { unfold log. destruct files as [|f0 files0]; [constructor|].
    rewrite main_flat by discriminate.
    apply written_paths_distinct, output_paths_NoDup; assumption. }
  split; [apply outputs_written; exact H | exact H].
Qed.

End BatchOutcome.

(* ================================================================== *)
(** ** What the normalizer changes *)

Lemma length_update cols label (f : cell -> cell) :
  forall row, List.length (update cols label f row) = List.length row.
Proof.
  induction cols as [|c cols IH]; intros row; [destruct row; reflexivity|].
  destruct row as [|x row]; [reflexivity|]. cbn [update List.length].
  rewrite IH. reflexivity.
Qed.

Lemma select_update_other cols label other (f : cell -> cell) :
  other <> label ->
  forall row,
  select cols other (update cols label f row) = select cols other row.
Proof.
  intros Hne. induction cols as [|c cols IH]; intros row;
    [destruct row; reflexivity|].
  destruct row as [|x row]; [reflexivity|]. cbn [update select].
  destruct (pystr_eqb c other) eqn:E1; [|apply IH].
  destruct (pystr_eqb c label) eqn:E2; [|rewrite IH; reflexivity].
  apply pystr_eqb_eq in E1, E2. congruence.
Qed.

Lemma count_label_filter (p q : pystr -> bool) (cols : list pystr) :
  (forall c, p c && q c = false) ->
  List.length (List.filter (fun c => p c || q c) cols)
  = (List.length (List.filter p cols) + List.length (List.filter q cols))%nat.
Proof.
  intros Hpq. induction cols as [|c cols IH]; [reflexivity|].
  cbn [List.filter]. specialize (Hpq c).
  destruct (p c), (q c); cbn [orb List.length]; try discriminate; lia.
Qed.

Lemma count_label_rename mapping (cols : list pystr) (label : pystr) :
  count_label (rename mapping cols) label
  = List.length
      (List.filter (fun c => pystr_eqb label
                               match lookup mapping c with
                               | Some c' => c'
                               | None => c
                               end) cols).
Proof.
  unfold count_label, rename.
  induction cols as [|c cols IH]; [reflexivity|].
  cbn [List.map List.filter].
  destruct (pystr_eqb label _); cbn [List.length]; rewrite IH; reflexivity.
Qed.

Lemma filter_ext_length {A} (p q : A -> bool) (l : list A) :
  (forall x, p x = q x) ->
  List.length (List.filter p l) = List.length (List.filter q l).
Proof. intros H. rewrite (filter_ext _ _ H). reflexivity. Qed.

Lemma pystr_eqb_sym (a b : pystr) : pystr_eqb a b = pystr_eqb b a.
Proof.
  destruct (pystr_eqb a b) eqn:E1, (pystr_eqb b a) eqn:E2; try reflexivity.
  - apply pystr_eqb_eq in E1. subst. rewrite pystr_eqb_refl in E2.
    discriminate.
  - apply pystr_eqb_eq in E2. subst. rewrite pystr_eqb_refl in E1.
    discriminate.
Qed.

(** After the renaming of a format, the columns labelled timestamp are
    those that carried the time label of the format and those that were
    labelled timestamp already. *)
Lemma count_timestamp_renamed (time lat lon ele : pystr) (cols : list pystr) :
  pystr_eqb (str "timestamp") (str "lat") = false ->
  pystr_eqb lat (str "timestamp") = false ->
  pystr_eqb lon (str "timestamp") = false ->
  pystr_eqb ele (str "timestamp") = false ->
  pystr_eqb time (str "timestamp") = false ->
  count_label
    (rename [(time, str "timestamp"); (lat, str "lat"); (lon, str "lon");
             (ele, str "ele")] cols) (str "timestamp")
  = (count_label cols time + count_label cols (str "timestamp"))%nat.
Proof.
  intros _ Hlat Hlon Hele Htime.
  rewrite count_label_rename. unfold count_label.
  rewrite <- count_label_filter.
  - apply filter_ext_length. intros c. cbn [lookup].
    destruct (pystr_eqb time c) eqn:E1.
    { apply pystr_eqb_eq in E1. subst c.
      rewrite pystr_eqb_refl. reflexivity. }
    destruct (pystr_eqb lat c) eqn:E2.
    { apply pystr_eqb_eq in E2. subst c.
      rewrite (pystr_eqb_sym _ lat), Hlat. reflexivity. }
    destruct (pystr_eqb lon c) eqn:E3.
    { apply pystr_eqb_eq in E3. subst c.
      rewrite (pystr_eqb_sym _ lon), Hlon. reflexivity. }
    destruct (pystr_eqb ele c) eqn:E4.
    { apply pystr_eqb_eq in E4. subst c.
      rewrite (pystr_eqb_sym _ ele), Hele. reflexivity. }
    reflexivity.
  - intros c. destruct (pystr_eqb time c) eqn:E1; [|reflexivity].
    apply pystr_eqb_eq in E1. subst c.
    rewrite (pystr_eqb_sym _ time), Htime. reflexivity.
Qed.

Section NormalizerOutcome.

Variable parse_number : pystr -> option float.

Lemma to_numeric_number (c : cell) :
  one_number [to_numeric parse_number c].
Proof.
  destruct c as [x|n|s]; simpl; [left; eauto | right; eauto |].
  destruct (parse_number s); left; eauto.
Qed.

(** What the normalizer returns on a recognised frame. *)
Lemma standardize_returns df filename std fmt :
  snd (standardize_dataframe parse_number df filename)
  = Ok (Some (std, fmt)) ->
  let cols := List.map strip (columns df) in
  ((fmt = Variflight
    /\ columns std
       = rename [(str "Time", str "timestamp"); (str "Latitude", str "lat");
                 (str "Longitude", str "lon"); (str "Height", str "ele")]
           cols
    /\ In (str "Latitude") cols /\ In (str "Longitude") cols)
   \/ (fmt = Footprint
       /\ columns std
          = rename [(str "dataTime", str "timestamp");
                    (str "latitude", str "lat");
                    (str "longitude", str "lon");
                    (str "altitude", str "ele")] cols
       /\ In (str "latitude") cols /\ In (str "longitude") cols))
  /\ count_label (columns std) (str "timestamp") = 1%nat
  /\ rows std
     = List.map (update (columns std) (str "timestamp")
                   (to_numeric parse_number)) (rows df).
Proof.
  intros H cols. revert H. fold cols.
  assert (Hc : forall d s,
            coerce_timestamp parse_number d = Ok s ->
            columns s = columns d
            /\ count_label (columns d) (str "timestamp") = 1%nat
            /\ rows s = List.map (update (columns d) (str "timestamp")
                                    (to_numeric parse_number)) (rows d)).
  { intros d s. unfold coerce_timestamp.
    destruct (count_label (columns d) (str "timestamp")) as [|[|k]];
      intros H; inv_ok. auto. }
  destruct (contains cols (str "Time") && contains cols (str "Latitude")
            && contains cols (str "Longitude")) eqn:HA;
    [|destruct (contains cols (str "dataTime")
                && contains cols (str "latitude")
                && contains cols (str "longitude")) eqn:HB].
  - rewrite (standardize_variflight parse_number df filename HA).
    cbn [snd]. intros H.
    destruct (coerce_timestamp _ _) as [d|] eqn:E; [|discriminate].
    injection H as <- <-. apply Hc in E as (E1 & E2 & E3).
    cbn [columns rows] in *. rewrite E1. fold cols.
    apply includes_iff in HA as (_ & H2 & H3).
    split; [left; auto | split; assumption].
  - rewrite (standardize_footprint parse_number df filename HA HB).
    cbn [snd]. intros H.
    destruct (coerce_timestamp _ _) as [d|] eqn:E; [|discriminate].
    injection H as <- <-. apply Hc in E as (E1 & E2 & E3).
    cbn [columns rows] in *. rewrite E1. fold cols.
    apply includes_iff in HB as (_ & H2 & H3).
    split; [right; auto | split; assumption].
  - rewrite (standardize_unrecognized parse_number df filename HA HB).
    discriminate.
Qed.

(** On a recognised frame the normalizer keeps the number of columns and
    the rows: the frame it returns has one column labelled timestamp, whose
    cells are the numbers that the cells of the raw frame are or read as
    (NaN where they do not), and columns lat and lon; the cells of every
    other column, those of lat and lon among them, are the raw ones, texts
    included. *)
Theorem normalizer_changes_timestamps_only df filename std fmt :
  snd (standardize_dataframe parse_number df filename)
  = Ok (Some (std, fmt)) ->
  List.length (columns std) = List.length (columns df)
  /\ count_label (columns std) (str "timestamp") = 1%nat
  /\ In (str "lat") (columns std) /\ In (str "lon") (columns std)
  /\ Forall2
       (fun raw row =>
          List.length row = List.length raw
          /\ (forall label, label <> str "timestamp" ->
              select (columns std) label row
              = select (columns std) label raw)
          /\ select (columns std) (str "timestamp") row
             = List.map (to_numeric parse_number)
                 (select (columns std) (str "timestamp") raw)
          /\ Forall (fun c => one_number [c])
               (select (columns std) (str "timestamp") row))
       (rows df) (rows std).
Proof.
  intros H.
  destruct (standardize_returns _ _ _ _ H) as (Hfmt & Hcount & Hrows).
  assert (Hlabels : List.length (columns std) = List.length (columns df)
                    /\ In (str "lat") (columns std)
                    /\ In (str "lon") (columns std)).
  { destruct Hfmt as [(_ & -> & Hlat & Hlon) | (_ & -> & Hlat & Hlon)];
      (split; [unfold rename; rewrite !length_map; reflexivity|]);
      split.
    - apply (rename_In _ _ (str "Latitude")); [reflexivity | exact Hlat].
    - apply (rename_In _ _ (str "Longitude")); [reflexivity | exact Hlon].
    - apply (rename_In _ _ (str "latitude")); [reflexivity | exact Hlat].
    - apply (rename_In _ _ (str "longitude")); [reflexivity | exact Hlon]. }
  destruct Hlabels as (Hlen & Hlat & Hlon).
  repeat (split; [assumption|]).
  rewrite Hrows. clear. induction (rows df) as [|raw rows0 IH];
    constructor; [|exact IH].
  split; [apply length_update|].
  split; [intros label Hne; apply select_update_other; exact Hne|].
  split; [apply select_update|].
  rewrite select_update. apply Forall_forall. intros c Hc.
  apply in_map_iff in Hc as (c0 & <- & _). apply to_numeric_number.
Qed.

Lemma coerce_timestamp_raises (d : DataFrame) (n : nat) (e : exn) :
  count_label (columns d) (str "timestamp") = n -> (1 <= n)%nat ->
  coerce_timestamp parse_number d = Raise e
  <-> e = TypeError /\ (2 <= n)%nat.
Proof.
  intros Hn Hpos. unfold coerce_timestamp. rewrite Hn.
  destruct n as [|[|k]]; [lia | |].
  - split; [discriminate | intros [_ ?]; lia].
  - split; [intros E; injection E as <-; split; [reflexivity | lia]
           | intros [-> _]; reflexivity].
Qed.

(** The normalizer raises on no frame but one that it recognises and that
    has, once renamed, several columns labelled timestamp: the time column
    of the format more than once, or next to a column that is labelled
    timestamp already. What it raises is the TypeError of [pd.to_numeric]. *)
Theorem normalizer_raises_exactly df filename e :
  let cols := List.map strip (columns df) in
  let A := In (str "Time") cols /\ In (str "Latitude") cols
           /\ In (str "Longitude") cols in
  let B := In (str "dataTime") cols /\ In (str "latitude") cols
           /\ In (str "longitude") cols in
  snd (standardize_dataframe parse_number df filename) = Raise e
  <-> e = TypeError
      /\ ((A /\ (2 <= count_label cols (str "Time")
                      + count_label cols (str "timestamp"))%nat)
          \/ (~ A /\ B
              /\ (2 <= count_label cols (str "dataTime")
                       + count_label cols (str "timestamp"))%nat)).
Proof.
  intros cols A B.
  destruct (contains cols (str "Time") && contains cols (str "Latitude")
            && contains cols (str "Longitude")) eqn:HA;
    [|destruct (contains cols (str "dataTime")
                && contains cols (str "latitude")
                && contains cols (str "longitude")) eqn:HB].
  - rewrite (standardize_variflight parse_number df filename HA).
    fold cols. cbn [snd].
    assert (Ha : A) by (apply includes_iff; exact HA).
    pose proof (count_label_In _ _ (proj1 Ha)) as Hpos.
    match goal with
    | |- context [coerce_timestamp parse_number ?d] => set (D := d)
    end.
    pose proof (coerce_timestamp_raises D _ e
                  (count_timestamp_renamed (str "Time") (str "Latitude")
                     (str "Longitude") (str "Height") cols eq_refl eq_refl
                     eq_refl eq_refl eq_refl) ltac:(lia)) as Hc.
    destruct (coerce_timestamp parse_number D) as [d|e0] eqn:E.
    + split; [discriminate|].
      intros [He [[_ Hn] | [Hna _]]]; [|contradiction].
      pose proof (proj2 Hc (conj He Hn)) as X. discriminate X.
    + split.
      * intros E'. injection E' as ->.
        destruct (proj1 Hc eq_refl) as [He Hn]. auto.
      * intros [He [[_ Hn] | [Hna _]]]; [|contradiction].
        pose proof (proj2 Hc (conj He Hn)) as X. injection X as ->.
        reflexivity.
  - rewrite (standardize_footprint parse_number df filename HA HB).
    fold cols. cbn [snd].
    assert (Ha : ~ A) by (apply includes_false; exact HA).
    assert (Hb : B) by (apply includes_iff; exact HB).
    pose proof (count_label_In _ _ (proj1 Hb)) as Hpos.
    match goal with
    | |- context [coerce_timestamp parse_number ?d] => set (D := d)
    end.
    pose proof (coerce_timestamp_raises D _ e
                  (count_timestamp_renamed (str "dataTime") (str "latitude")
                     (str "longitude") (str "altitude") cols eq_refl eq_refl
                     eq_refl eq_refl eq_refl) ltac:(lia)) as Hc.
    destruct (coerce_timestamp parse_number D) as [d|e0] eqn:E.
    + split; [discriminate|].
      intros [He [[Hya _] | (_ & _ & Hn)]]; [contradiction|].
      pose proof (proj2 Hc (conj He Hn)) as X. discriminate X.
    + split.
      * intros E'. injection E' as ->.
        destruct (proj1 Hc eq_refl) as [He Hn]. auto.
      * intros [He [[Hya _] | (_ & _ & Hn)]]; [contradiction|].
        pose proof (proj2 Hc (conj He Hn)) as X. injection X as ->.
        reflexivity.
  - rewrite (standardize_unrecognized parse_number df filename HA HB).
    cbn [snd].
    assert (Ha : ~ A) by (apply includes_false; exact HA).
    assert (Hb : ~ B) by (apply includes_false; exact HB).
    split; [discriminate | tauto].
Qed.

End NormalizerOutcome.

(* ================================================================== *)
(** ** Decimal digits *)

Lemma read_digits_app (s1 s2 : pystr) :
  read_digits (s1 ++ s2)
  = fold_left (fun acc c => 10 * acc + (Z.of_N c - 48)) s2 (read_digits s1).
Proof. unfold read_digits. apply fold_left_app. Qed.

Lemma read_digits_snoc (s : pystr) (c : N) :
  read_digits (s ++ [c]) = 10 * read_digits s + (Z.of_N c - 48).
Proof. rewrite read_digits_app. reflexivity. Qed.

Lemma digit_of_mod (n : Z) :
  0 <= n ->
  is_digit (Z.to_N (48 + n mod 10)) = true
  /\ Z.of_N (Z.to_N (48 + n mod 10)) - 48 = n mod 10.
Proof.
  intros Hn. pose proof (Z.mod_pos_bound n 10 ltac:(lia)) as Hm.
  unfold is_digit. rewrite andb_true_iff, !N.leb_le. lia.
Qed.

Lemma digits_from_spec (fuel : nat) :
  forall n acc, 0 <= n ->
  exists ds,
    digits_from fuel n acc = ds ++ acc
    /\ ds <> [] /\ forallb is_digit ds = true
    /\ (forall k, (1 <= k)%nat -> n < 10 ^ Z.of_nat k ->
        (List.length ds <= k)%nat)
    /\ (n < 10 ^ (Z.of_nat fuel + 1) -> read_digits ds = n).
Proof.
  assert (Hone : forall n acc, 0 <= n ->
            exists ds,
              Z.to_N (48 + n mod 10) :: acc = ds ++ acc
              /\ ds <> [] /\ forallb is_digit ds = true
              /\ (forall k, (1 <= k)%nat -> n < 10 ^ Z.of_nat k ->
                  (List.length ds <= k)%nat)
              /\ (n < 10 -> read_digits ds = n)).
  { intros n acc Hn. destruct (digit_of_mod n Hn) as [Hd Hv].
    exists [Z.to_N (48 + n mod 10)]. split; [reflexivity|].
    split; [discriminate|]. split; [cbn [forallb]; rewrite Hd; reflexivity|].
    split; [intros k Hk _; simpl; lia|].
    intros Hlt. unfold read_digits. cbn [fold_left]. rewrite Hv.
    rewrite Z.mod_small by lia. lia. }
  induction fuel as [|fuel IH]; intros n acc Hn.
  - destruct (Hone n acc Hn) as (ds & E & H1 & H2 & H3 & H4).
    exists ds. simpl. repeat split; try assumption.
  - cbn [digits_from]. destruct (Z.ltb_spec n 10) as [Hlt | Hge].
    + destruct (Hone n acc Hn) as (ds & E & H1 & H2 & H3 & H4).
      exists ds. repeat split; try assumption. intros _. apply H4. exact Hlt.
    + destruct (digit_of_mod n Hn) as [Hd Hv].
      destruct (IH (n / 10) (Z.to_N (48 + n mod 10) :: acc)
                  ltac:(apply Z.div_pos; lia))
        as (ds & E & H1 & H2 & H3 & H4).
      exists (ds ++ [Z.to_N (48 + n mod 10)]).
      split; [rewrite E, <- app_assoc; reflexivity|].
      split; [destruct ds; discriminate|].
      split; [rewrite forallb_app, H2; cbn [forallb]; rewrite Hd; reflexivity|].
      split.
      * intros k Hk Hpow. destruct k as [|[|k]]; [lia | simpl in Hpow; lia|].
        rewrite length_app. simpl List.length.
        assert (List.length ds <= S k)%nat; [|lia].
        apply H3; [lia|].
        rewrite (Nat2Z.inj_succ (S k)), Z.pow_succ_r in Hpow by lia.
        apply Z.div_lt_upper_bound; lia.
      * intros Hpow. rewrite read_digits_snoc, Hv, H4.
        -- pose proof (Z.div_mod n 10 ltac:(lia)). lia.
        -- rewrite Nat2Z.inj_succ in Hpow.
           replace (Z.succ (Z.of_nat fuel) + 1)
             with (Z.succ (Z.of_nat fuel + 1)) in Hpow by lia.
           rewrite Z.pow_succ_r in Hpow by lia.
           apply Z.div_lt_upper_bound; lia.
Qed.

(** The digits of a natural number: no more than it needs, and they read
    as the number. *)
Lemma digits_spec (n : Z) :
  0 <= n ->
  digits n <> [] /\ forallb is_digit (digits n) = true
  /\ read_digits (digits n) = n
  /\ (forall k, (1 <= k)%nat -> n < 10 ^ Z.of_nat k ->
      (List.length (digits n) <= k)%nat).
Proof.
  intros Hn. unfold digits.
  destruct (digits_from_spec (Z.to_nat (Z.log2 n)) n [] Hn)
    as (ds & E & H1 & H2 & H3 & H4).
  rewrite app_nil_r in E. rewrite E.
  repeat split; try assumption. apply H4.
  rewrite Z2Nat.id by apply Z.log2_nonneg.
  destruct (Z.eq_dec n 0) as [-> | Hne]; [reflexivity|].
  pose proof (Z.log2_spec n ltac:(lia)) as [_ Hlog].
  pose proof (Z.log2_nonneg n).
  assert (2 ^ (Z.log2 n + 1) <= 10 ^ (Z.log2 n + 1))
    by (apply Z.pow_le_mono_l; lia).
  replace (Z.succ (Z.log2 n)) with (Z.log2 n + 1) in Hlog by lia. lia.
Qed.

Lemma read_digits_zeros (k : nat) (s : pystr) :
  read_digits (repeat 48%N k ++ s) = read_digits s.
Proof.
  rewrite read_digits_app. unfold read_digits at 2.
  replace (read_digits (repeat 48%N k)) with 0; [reflexivity|].
  induction k as [|k IH]; [reflexivity|].
  change (repeat 48%N (S k)) with ([48%N] ++ repeat 48%N k).
  rewrite read_digits_app. exact IH.
Qed.

(** A number written in a field of [width] digits. *)
Lemma field_spec (width : nat) (n : Z) :
  (1 <= width)%nat -> 0 <= n < 10 ^ Z.of_nat width ->
  numeral width (zfill width (digits n))
  /\ read_digits (zfill width (digits n)) = n.
Proof.
  intros Hw [Hn Hlt].
  destruct (digits_spec n Hn) as (_ & Hd & Hv & Hlen).
  specialize (Hlen width Hw Hlt). unfold zfill, numeral.
  rewrite read_digits_zeros, length_app, repeat_length, forallb_app, Hd.
  repeat split; [lia | | exact Hv].
  rewrite andb_true_r. apply forallb_forall. intros c Hc.
  apply repeat_spec in Hc. subst c. reflexivity.
Qed.

Lemma field_inj (width : nat) (a b : Z) :
  (1 <= width)%nat ->
  0 <= a < 10 ^ Z.of_nat width -> 0 <= b < 10 ^ Z.of_nat width ->
  zfill width (digits a) = zfill width (digits b) -> a = b.
Proof.
  intros Hw Ha Hb E.
  rewrite <- (proj2 (field_spec width a Hw Ha)).
  rewrite <- (proj2 (field_spec width b Hw Hb)), E. reflexivity.
Qed.

Lemma app_inj_length {A} (a a' b b' : list A) :
  List.length a = List.length a' -> a ++ b = a' ++ b' -> a = a' /\ b = b'.
Proof.
  revert a'. induction a as [|x a IH]; intros [|y a'] Hlen E;
    try discriminate; [auto|].
  simpl in E. injection E as -> E. simpl in Hlen.
  destruct (IH a' ltac:(lia) E) as [-> ->]. auto.
Qed.

(* ================================================================== *)
(** ** The text of an instant *)

Lemma forall_from_spec (len : nat) :
  forall start p, forall_from len start p = true ->
  forall x, start <= x < start + Z.of_nat len -> p x = true.
Proof.
  induction len as [|len IH]; intros start p H x Hx; [lia|].
  cbn [forall_from] in H. destruct (p start) eqn:E; [|discriminate].
  destruct (Z.eq_dec x start) as [-> | Hne]; [exact E|].
  apply (IH (start + 1) p H). lia.
Qed.

(** The year, month and day that [strftime] computes for a day of the
    400-year era: by running the computation on every day of the era. *)
Lemma civil_of_era_day (doe : Z) :
  0 <= doe < 146097 ->
  let yoe := (doe - doe / 1460 + doe / 36524 - doe / 146096) / 365 in
  let doy := doe - (365 * yoe + yoe / 4 - yoe / 100) in
  let mp := (5 * doy + 2) / 153 in
  let d := doy - (153 * mp + 2) / 5 + 1 in
  0 <= yoe < 400 /\ 0 <= mp <= 11 /\ 1 <= d <= 31.
Proof.
  intros Hdoe.
  assert (Hall : forall_from (Z.to_nat 146097) 0
            (fun doe =>
               let yoe := (doe - doe / 1460 + doe / 36524 - doe / 146096)
                          / 365 in
               let doy := doe - (365 * yoe + yoe / 4 - yoe / 100) in
               let mp := (5 * doy + 2) / 153 in
               let d := doy - (153 * mp + 2) / 5 + 1 in
               (0 <=? yoe) && (yoe <? 400) && (0 <=? mp) && (mp <=? 11)
               && (1 <=? d) && (d <=? 31))
            = true) by (vm_compute; reflexivity).
  pose proof (forall_from_spec _ _ _ Hall doe ltac:(lia)) as H.
  cbv zeta in H |- *. clear Hall.
  rewrite !andb_true_iff, !Z.leb_le, Z.ltb_lt in H. tauto.
Qed.

Lemma civil_round_trip (days : Z) :
  let z := days + 719468 in
  let era := z / 146097 in
  let doe := z mod 146097 in
  let yoe := (doe - doe / 1460 + doe / 36524 - doe / 146096) / 365 in
  let doy := doe - (365 * yoe + yoe / 4 - yoe / 100) in
  let mp := (5 * doy + 2) / 153 in
  let d := doy - (153 * mp + 2) / 5 + 1 in
  let m := if mp <? 10 then mp + 3 else mp - 9 in
  let y := yoe + era * 400 + (if m <=? 2 then 1 else 0) in
  1 <= m <= 12 /\ 1 <= d <= 31
  /\ era * 400 <= y <= era * 400 + 400
  /\ days_from_civil y m d = days.
Proof.
  intros z era doe.
  pose proof (Z.mod_pos_bound z 146097 ltac:(lia)) as Hdoe. fold doe in Hdoe.
  pose proof (Z.div_mod z 146097 ltac:(lia)) as Hz. fold era doe in Hz.
  pose proof (civil_of_era_day doe Hdoe) as H. cbv zeta in H.
  cbv zeta.
  set (yoe := (doe - doe / 1460 + doe / 36524 - doe / 146096) / 365) in *.
  set (doy := doe - (365 * yoe + yoe / 4 - yoe / 100)) in *.
  set (mp := (5 * doy + 2) / 153) in *.
  set (d := doy - (153 * mp + 2) / 5 + 1) in *.
  destruct H as (Hyoe & Hmp & Hd).
  set (m := if mp <? 10 then mp + 3 else mp - 9).
  assert (Hm : 1 <= m <= 12 /\ (if 2 <? m then m - 3 else m + 9) = mp
               /\ ((m <=? 2) = true <-> 10 <= mp)).
  { unfold m. destruct (Z.ltb_spec mp 10).
    - destruct (Z.ltb_spec 2 (mp + 3)); [|lia].
      destruct (Z.leb_spec (mp + 3) 2); [lia|].
      repeat split; try lia; discriminate.
    - destruct (Z.ltb_spec 2 (mp - 9)); [lia|].
      destruct (Z.leb_spec (mp - 9) 2); [|lia].
      repeat split; try lia. }
  destruct Hm as (Hm & Hmp' & Hjan).
  split; [exact Hm|]. split; [exact Hd|].
  unfold days_from_civil. rewrite Hmp'.
  destruct (m <=? 2) eqn:E.
  - replace (yoe + era * 400 + 1 - 1) with (yoe + era * 400) by lia.
    rewrite Z.div_add, Z.mod_add, Z.div_small, Z.mod_small by lia.
    split; [lia|]. unfold d, doy. lia.
  - rewrite Z.add_0_r.
    rewrite Z.div_add, Z.mod_add, Z.div_small, Z.mod_small by lia.
    split; [lia|]. unfold d, doy. lia.
Qed.

(** The fields of the text of an instant of [Timestamp]: each is written
    with its width, and together they stand for the second of the
    instant. *)
Lemma strftime_fields (t : Z) :
  in_timestamp_range t ->
  exists y m d hh mi ss,
    strftime t
    = zfill 4 (digits y) ++ str "-" ++ zfill 2 (digits m) ++ str "-"
      ++ zfill 2 (digits d) ++ str "T" ++ zfill 2 (digits hh)
      ++ str ":" ++ zfill 2 (digits mi) ++ str ":"
      ++ zfill 2 (digits ss) ++ str "Z"
    /\ 1600 <= y <= 2400 /\ 1 <= m <= 12 /\ 1 <= d <= 31
    /\ 0 <= hh < 24 /\ 0 <= mi < 60 /\ 0 <= ss < 60
    /\ seconds_of_fields y m d hh mi ss = t / NS.
Proof.
  intros Ht. unfold in_timestamp_range in Ht.
  set (secs := t / NS). set (days := secs / 86400).
  set (sod := secs mod 86400).
  assert (Hsecs : -9223372037 <= secs <= 9223372036).
  { unfold secs, NS. change (2 ^ 63) with 9223372036854775808 in Ht.
    clear - Ht. Z.div_mod_to_equations. lia. }
  assert (Hrange : -106752 <= days <= 106751).
  { unfold days. clear - Hsecs. Z.div_mod_to_equations. lia. }
  assert (Hera : 4 <= (days + 719468) / 146097 <= 5).
  { clear - Hrange. Z.div_mod_to_equations. lia. }
  assert (Hsod : 0 <= sod < 86400)
    by (apply Z.mod_pos_bound; reflexivity).
  assert (Hfields : 0 <= sod / 3600 < 24 /\ 0 <= sod / 60 mod 60 < 60
                    /\ 0 <= sod mod 60 < 60
                    /\ (sod / 3600 * 60 + sod / 60 mod 60) * 60 + sod mod 60
                       = sod).
  { clear - Hsod. Z.div_mod_to_equations. lia. }
  assert (Hsplit : secs = 86400 * days + sod)
    by (apply Z.div_mod; discriminate).
  pose proof (civil_round_trip days) as H. cbv zeta in H.
  destruct H as (Hm & Hd & Hy & Hdays).
  set (era := (days + 719468) / 146097) in *.
  match type of Hy with _ <= ?y <= _ => set (year := y) in * end.
  assert (Hyear : 1600 <= year <= 2400) by (clear - Hy Hera; lia).
  eexists _, _, _, (sod / 3600), (sod / 60 mod 60), (sod mod 60).
  split; [reflexivity|].
  split; [exact Hyear|]. split; [exact Hm|]. split; [exact Hd|].
  split; [tauto|]. split; [tauto|]. split; [tauto|].
  unfold seconds_of_fields. destruct Hfields as (_ & _ & _ & Hf).
  match type of Hdays with
  | ?lhs = _ =>
      change (((lhs * 24 + sod / 3600) * 60 + sod / 60 mod 60) * 60
              + sod mod 60 = secs)
  end.
  rewrite Hdays. clear - Hf Hsplit. lia.
Qed.

(** The text of an instant of [Timestamp] has the form
    YYYY-MM-DDThh:mm:ssZ, each field with its digits, month, day, hour,
    minute and second in their ranges; read back, the fields give the
    instant, truncated to the second. *)
Theorem time_text_reads_back (t : Z) :
  in_timestamp_range t ->
  exists Y M D h m s,
    strftime t
    = Y ++ str "-" ++ M ++ str "-" ++ D ++ str "T" ++ h ++ str ":" ++ m
      ++ str ":" ++ s ++ str "Z"
    /\ numeral 4 Y /\ numeral 2 M /\ numeral 2 D
    /\ numeral 2 h /\ numeral 2 m /\ numeral 2 s
    /\ 1 <= read_digits M <= 12 /\ 1 <= read_digits D <= 31
    /\ 0 <= read_digits h < 24 /\ 0 <= read_digits m < 60
    /\ 0 <= read_digits s < 60
    /\ seconds_of_fields (read_digits Y) (read_digits M) (read_digits D)
         (read_digits h) (read_digits m) (read_digits s)
       = t / NS.
Proof.
  intros Ht.
  destruct (strftime_fields t Ht)
    as (y & mo & d & hh & mi & ss & E & Hy & Hmo & Hd & Hhh & Hmi & Hss & Hs).
  destruct (field_spec 4 y ltac:(lia) ltac:(simpl; lia)) as [Ny Vy].
  destruct (field_spec 2 mo ltac:(lia) ltac:(simpl; lia)) as [Nmo Vmo].
  destruct (field_spec 2 d ltac:(lia) ltac:(simpl; lia)) as [Nd Vd].
  destruct (field_spec 2 hh ltac:(lia) ltac:(simpl; lia)) as [Nhh Vhh].
  destruct (field_spec 2 mi ltac:(lia) ltac:(simpl; lia)) as [Nmi Vmi].
  destruct (field_spec 2 ss ltac:(lia) ltac:(simpl; lia)) as [Nss Vss].
  eexists _, _, _, _, _, _. split; [exact E|].
  rewrite Vy, Vmo, Vd, Vhh, Vmi, Vss.
  split; [exact Ny|]. split; [exact Nmo|]. split; [exact Nd|].
  split; [exact Nhh|]. split; [exact Nmi|]. split; [exact Nss|].
  split; [exact Hmo|]. split; [exact Hd|]. split; [exact Hhh|].
  split; [exact Hmi|]. split; [exact Hss | exact Hs].
Qed.

Lemma time_text_reads_back_witness :
  exists Y M D h m s,
    strftime 1709210096999999999
    = Y ++ str "-" ++ M ++ str "-" ++ D ++ str "T" ++ h ++ str ":" ++ m
      ++ str ":" ++ s ++ str "Z"
    /\ seconds_of_fields (read_digits Y) (read_digits M) (read_digits D)
         (read_digits h) (read_digits m) (read_digits s)
       = 1709210096.
Proof.
  destruct (time_text_reads_back 1709210096999999999
              ltac:(vm_compute; split; reflexivity))
    as (Y & M & D & h & m & s & E & _ & _ & _ & _ & _ & _ & _ & _ & _ & _
        & _ & Hs).
  exists Y, M, D, h, m, s. split; [exact E | exact Hs].
Defined.

(** Two instants of [Timestamp] have the same text exactly where they lie
    in the same second. *)
Theorem time_text_identifies_second (t1 t2 : Z) :
  in_timestamp_range t1 -> in_timestamp_range t2 ->
  strftime t1 = strftime t2 <-> t1 / NS = t2 / NS.
Proof.
  intros H1 H2. split.
  - intros E.
    destruct (strftime_fields t1 H1)
      as (y1 & mo1 & d1 & hh1 & mi1 & ss1 & E1 & Hy1 & Hmo1 & Hd1 & Hhh1
          & Hmi1 & Hss1 & <-).
    destruct (strftime_fields t2 H2)
      as (y2 & mo2 & d2 & hh2 & mi2 & ss2 & E2 & Hy2 & Hmo2 & Hd2 & Hhh2
          & Hmi2 & Hss2 & <-).
    rewrite E1, E2 in E.
    assert (L4 : forall a b, 0 <= a < 10 ^ 4 -> 0 <= b < 10 ^ 4 ->
              List.length (zfill 4 (digits a))
              = List.length (zfill 4 (digits b))).
    { intros a b Ha Hb.
      rewrite (proj1 (proj1 (field_spec 4 a ltac:(lia) Ha))).
      rewrite (proj1 (proj1 (field_spec 4 b ltac:(lia) Hb))). reflexivity. }
    assert (L2 : forall a b, 0 <= a < 10 ^ 2 -> 0 <= b < 10 ^ 2 ->
              List.length (zfill 2 (digits a))
              = List.length (zfill 2 (digits b))).
    { intros a b Ha Hb.
      rewrite (proj1 (proj1 (field_spec 2 a ltac:(lia) Ha))).
      rewrite (proj1 (proj1 (field_spec 2 b ltac:(lia) Hb))). reflexivity. }
    apply app_inj_length in E as [Ey E]; [|apply L4; simpl; lia].
    apply (app_inj_length (str "-") (str "-")) in E as [_ E];
      [|reflexivity].
    apply app_inj_length in E as [Emo E]; [|apply L2; simpl; lia].
    apply (app_inj_length (str "-") (str "-")) in E as [_ E];
      [|reflexivity].
    apply app_inj_length in E as [Ed E]; [|apply L2; simpl; lia].
    apply (app_inj_length (str "T") (str "T")) in E as [_ E];
      [|reflexivity].
    apply app_inj_length in E as [Ehh E]; [|apply L2; simpl; lia].
    apply (app_inj_length (str ":") (str ":")) in E as [_ E];
      [|reflexivity].
    apply app_inj_length in E as [Emi E]; [|apply L2; simpl; lia].
    apply (app_inj_length (str ":") (str ":")) in E as [_ E];
      [|reflexivity].
    apply app_inj_length in E as [Ess _]; [|apply L2; simpl; lia].
    apply field_inj in Ey, Emo, Ed, Ehh, Emi, Ess; simpl; try lia.
    subst. reflexivity.
  - intros E. unfold strftime. rewrite E. reflexivity.
Qed.

Lemma time_text_identifies_second_witness :
  strftime 1709210096000000000 = strftime 1709210096999999999
  <-> 1709210096000000000 / NS = 1709210096999999999 / NS.
Proof.
  apply time_text_identifies_second; vm_compute; split; reflexivity.
Defined.

(* ================================================================== *)
(** ** The text of a coordinate *)

Lemma is_infinity_spec (x : float) :
  PrimFloat.is_infinity x = true <-> exists s, Prim2SF x = S754_infinity s.
Proof.
  unfold PrimFloat.is_infinity. rewrite eqb_spec, abs_spec.
  change (Prim2SF infinity) with (S754_infinity false).
  destruct (Prim2SF x) as [s|s| |s m e]; simpl; split;
    try discriminate; try (intros [s' H]; discriminate); eauto.
Qed.

Lemma fixed_shape (prec : nat) (q : Z) :
  (1 <= prec)%nat -> 0 <= q ->
  exists ip fp,
    fixed prec q = ip ++ str "." ++ fp
    /\ ip <> [] /\ forallb is_digit ip = true /\ numeral prec fp.
Proof.
  intros Hp Hq. unfold fixed.
  assert (Hunit : 0 < 10 ^ Z.of_nat prec) by (apply Z.pow_pos_nonneg; lia).
  destruct (digits_spec (q / 10 ^ Z.of_nat prec)
              ltac:(apply Z.div_pos; lia)) as (H1 & H2 & _).
  destruct (field_spec prec (q mod 10 ^ Z.of_nat prec) Hp
              ltac:(apply Z.mod_pos_bound; lia)) as [H3 _].
  eexists _, _. split; [reflexivity|]. auto.
Qed.

Lemma round_half_even_nonneg (num den : Z) :
  0 <= num -> 0 < den -> 0 <= round_half_even num den.
Proof.
  intros Hn Hd. unfold round_half_even.
  pose proof (Z.div_pos num den Hn Hd).
  destruct (_ || _); lia.
Qed.

(** The text of a float with [prec] decimals: nan for NaN, inf or -inf for
    the infinities, and for every other float an optional minus sign, at
    least one digit, a point and exactly [prec] digits; never an
    exponent. *)
Theorem decimal_text_shape (prec : nat) (x : float) :
  (1 <= prec)%nat ->
  if PrimFloat.is_nan x then format_f prec x = str "nan"
  else if PrimFloat.is_infinity x
       then format_f prec x = str "inf" \/ format_f prec x = str "-inf"
       else exists sign ip fp,
              format_f prec x = sign ++ ip ++ str "." ++ fp
              /\ (sign = [] \/ sign = str "-")
              /\ ip <> [] /\ forallb is_digit ip = true
              /\ numeral prec fp.
Proof.
  intros Hp.
  destruct (PrimFloat.is_nan x) eqn:Hnan; [apply format_f_nan; exact Hnan|].
  assert (Hn : Prim2SF x <> S754_nan).
  { intros E. apply is_nan_spec in E. congruence. }
  destruct (PrimFloat.is_infinity x) eqn:Hinf.
  { apply is_infinity_spec in Hinf as [s E]. unfold format_f. rewrite E.
    destruct s; [right | left]; reflexivity. }
  assert (Hi : forall s, Prim2SF x <> S754_infinity s).
  { intros s E.
    assert (PrimFloat.is_infinity x = true)
      by (apply is_infinity_spec; eauto).
    congruence. }
  assert (Hsign : forall (s : bool) q, 0 <= q ->
            exists sign ip fp,
              (if s then str "-" else []) ++ fixed prec q
              = sign ++ ip ++ str "." ++ fp
              /\ (sign = [] \/ sign = str "-")
              /\ ip <> [] /\ forallb is_digit ip = true
              /\ numeral prec fp).
  { intros s q Hq. destruct (fixed_shape prec q Hp Hq)
      as (ip & fp & -> & H1 & H2 & H3).
    exists (if s then str "-" else []), ip, fp.
    split; [reflexivity|]. split; [destruct s; auto | auto]. }
  unfold format_f.
  destruct (Prim2SF x) as [s|s| |s m e];
    [|exfalso; apply (Hi s); reflexivity | congruence|].
  - apply Hsign. lia.
  - cbv zeta. apply Hsign.
    assert (0 <= Z.pos m * 10 ^ Z.of_nat prec).
    { apply Z.mul_nonneg_nonneg; [lia | apply Z.pow_nonneg; lia]. }
    destruct (Z.leb_spec 0 e).
    + apply Z.mul_nonneg_nonneg; [assumption | apply Z.pow_nonneg; lia].
    + apply round_half_even_nonneg; [assumption|].
      apply Z.pow_pos_nonneg; lia.
Qed.

Lemma decimal_text_shape_witness :
  exists sign ip fp,
    format_f 6 (-12.5)%float = sign ++ ip ++ str "." ++ fp
    /\ (sign = [] \/ sign = str "-")
    /\ ip <> [] /\ forallb is_digit ip = true
    /\ numeral 6 fp.
Proof.
  apply (decimal_text_shape 6 (-12.5)%float). lia.
Defined.

(* ================================================================== *)
(** ** Rows of equal instants and the sort *)

(** A list of instants has one sorted arrangement. *)
Lemma sorted_keys_unique (l1 : list (option Z)) :
  forall l2,
  Permutation l1 l2 ->
  StronglySorted (fun a b => key_le a b = true) l1 ->
  StronglySorted (fun a b => key_le a b = true) l2 -> l1 = l2.
Proof.
  induction l1 as [|x l1 IH]; intros l2 Hp H1 H2.
  - apply Permutation_nil in Hp. subst. reflexivity.
  - destruct l2 as [|y l2].
    { apply Permutation_sym, Permutation_nil in Hp. discriminate. }
    inversion H1 as [|? ? Hs1 Hx]; subst.
    inversion H2 as [|? ? Hs2 Hy]; subst.
    assert (Hyin : In y (x :: l1)).
    { apply (Permutation_in _ (Permutation_sym Hp)). simpl; auto. }
    assert (Hxin : In x (y :: l2)).
    { apply (Permutation_in _ Hp). simpl; auto. }
    assert (E : x = y).
    { destruct Hyin as [E | Hyin]; [exact E|].
      destruct Hxin as [E | Hxin]; [symmetry; exact E|].
      apply key_le_antisym.
      - apply (proj1 (Forall_forall _ _) Hx y Hyin).
      - apply (proj1 (Forall_forall _ _) Hy x Hxin). }
    subst y. f_equal. apply IH; try assumption.
    apply Permutation_cons_inv in Hp. exact Hp.
Qed.

Section TieFacts.

(** The properties hold at either resolution of [total_seconds]. *)
Context {res : resolution}.

Lemma advance_instants (a1 b1 a2 b2 : TrackPoint) (st1 st2 : builder) :
  pt_time a1 = pt_time a2 -> pt_time b1 = pt_time b2 ->
  state_instants st1 = state_instants st2 ->
  state_instants (advance a1 b1 st1) = state_instants (advance a2 b2 st2).
Proof.
  intros Ha Hb E. unfold state_instants, instants in *.
  injection E as E1 E2 E3. unfold advance. rewrite Ha, Hb.
  destruct (total_seconds (pt_time b2 - pt_time a2)
            >? MAX_GAP_SECONDS * NS).
  { cbn [trk trkseg count_generated]. rewrite !map_app. cbn [List.map].
    rewrite !map_app. cbn [List.map]. unfold segment in *. congruence. }
  destruct (total_seconds (pt_time b2 - pt_time a2)
            <=? INTERPOLATION_STEP * NS);
    cbn [trk trkseg count_generated]; rewrite !map_app.
  - cbn [List.map]. unfold segment in *. congruence.
  - rewrite !map_map. cbn [interp_point pt_time]. rewrite Ha.
    unfold segment in *. congruence.
Qed.

Lemma advance_all_instants (ps1 : list TrackPoint) :
  forall ps2 st1 st2,
  List.map pt_time ps1 = List.map pt_time ps2 ->
  state_instants st1 = state_instants st2 ->
  state_instants (advance_all ps1 st1) = state_instants (advance_all ps2 st2).
Proof.
  induction ps1 as [|a1 ps1 IH]; intros [|a2 ps2] st1 st2 E Hst;
    try discriminate; [exact Hst|].
  injection E as Ha E.
  destruct ps1 as [|b1 rest1], ps2 as [|b2 rest2]; try discriminate;
    [exact Hst|].
  rewrite !advance_all_step. apply IH; [exact E|].
  injection E as Hb _. apply advance_instants; assumption.
Qed.

Lemma iloc_last_instant (ps1 : list TrackPoint) :
  forall ps2 l1,
  List.map pt_time ps1 = List.map pt_time ps2 -> iloc_last ps1 = Ok l1 ->
  exists l2, iloc_last ps2 = Ok l2 /\ pt_time l2 = pt_time l1.
Proof.
  induction ps1 as [|a1 ps1 IH]; intros [|a2 ps2] l1 E Hl;
    try discriminate.
  injection E as Ha E.
  destruct ps1 as [|b1 rest1], ps2 as [|b2 rest2]; try discriminate.
  - simpl in Hl. injection Hl as <-. exists a2. auto.
  - apply (IH (b2 :: rest2) l1 E Hl).
Qed.

(** The instants of the document and the counter depend on the instants of
    the rows only. *)
Lemma document_instants ps1 ps2 track1 n1 :
  List.map pt_time ps1 = List.map pt_time ps2 ->
  document ps1 = Ok (track1, n1) ->
  exists track2,
    document ps2 = Ok (track2, n1) /\ instants track2 = instants track1.
Proof.
  intros E H. unfold document in *.
  apply rbind_Ok in H as (l1 & Hl1 & H). cbv zeta in H.
  destruct (iloc_last_instant _ _ _ E Hl1) as (l2 & Hl2 & Ht).
  rewrite Hl2. cbn [rbind].
  pose proof (advance_all_instants ps1 ps2 (mkBuilder [] [] 0)
                (mkBuilder [] [] 0) E eq_refl) as Hst.
  unfold state_instants in Hst. injection Hst as H1 H2 H3.
  injection H as <- <-. eexists. split; [rewrite H3; reflexivity|].
  unfold instants in *. rewrite !map_app. cbn [List.map].
  rewrite !map_app. cbn [List.map]. unfold segment in *. congruence.
Qed.

Lemma prepare_any_sort sort1 df cols rs1 :
  prepare sort1 df = Ok (cols, rs1) ->
  exists rs0,
    rs1 = List.filter (notna_row cols) (sort1 rs0)
    /\ forall sort2,
         prepare sort2 df
         = Ok (cols, List.filter (notna_row cols) (sort2 rs0)).
Proof.
  unfold prepare, sort_then_drop, dropna. intros H.
  destruct (contains (columns df) (str "ele")); cbn [columns rows] in *.
  - destruct (with_datetime (columns df) (rows df)) as [rs0|];
      [|discriminate].
    cbn [rbind] in *.
    destruct (2 <=? count_label (columns df) (str "dt_object"))%nat;
      [discriminate|].
    destruct (contains (columns df) (str "lat")
              && contains (columns df) (str "lon")
              && contains (columns df) (str "timestamp"));
      [|discriminate].
    cbn [rbind] in H. injection H as <- <-. exists rs0. auto.
  - destruct (with_datetime _ _) as [rs0|]; [|discriminate].
    cbn [rbind] in *.
    destruct (2 <=? count_label _ (str "dt_object"))%nat; [discriminate|].
    destruct (contains _ (str "lat") && contains _ (str "lon")
              && contains _ (str "timestamp")); [|discriminate].
    cbn [rbind] in H. injection H as <- <-. exists rs0. auto.
Qed.

(** Whatever order the sort gives to rows of equal instants, the function
    returns on the same frames, with the same counter and a document of
    the same instants in the same segments; only the coordinates of points
    at equal instants depend on it. Where the instants of the rows are
    pairwise distinct, the document is the same. *)
Theorem ties_leave_the_instants_alone sort1 sort2 df output_path track1 n :
  sorts sort1 -> sorts sort2 ->
  process_and_generate_gpx sort1 df output_path
  = ([Written output_path track1], Ok n) ->
  exists track2,
    process_and_generate_gpx sort2 df output_path
    = ([Written output_path track2], Ok n)
    /\ instants track2 = instants track1
    /\ (forall cols rs,
          prepare sort1 df = Ok (cols, rs) ->
          NoDup (List.map dt_object rs) -> track2 = track1).
Proof.
  intros Hs1 Hs2 H. apply process_and_generate_gpx_inv in H.
  unfold build_track in H. apply rbind_Ok in H as ([cols rs1] & Hp1 & He).
  cbn [fst snd] in He.
  destruct (prepare_any_sort _ _ _ _ Hp1) as (rs0 & -> & Hprep).
  set (rs1 := List.filter (notna_row cols) (sort1 rs0)) in *.
  set (rs2 := List.filter (notna_row cols) (sort2 rs0)).
  assert (Hperm : Permutation rs1 rs2).
  { unfold rs1, rs2.
    rewrite <- (Permutation_filter _ _ _ (proj1 (Hs1 rs0))).
    apply Permutation_filter, (proj1 (Hs2 rs0)). }
  assert (Hsorted1 : StronglySorted key_order rs1).
  { apply StronglySorted_filter, Sorted_StronglySorted;
      [apply key_order_trans | apply Hs1]. }
  assert (Hsorted2 : StronglySorted key_order rs2).
  { apply StronglySorted_filter, Sorted_StronglySorted;
      [apply key_order_trans | apply Hs2]. }
  destruct (emit_track_inv _ _ _ He) as (ps1 & Hps1 & Hdoc1).
  assert (Hall : Forall (fun r => exists p, point_of cols r = Ok p) rs2).
  { apply (Permutation_Forall Hperm). apply points_of_returns. eauto. }
  apply points_of_returns in Hall as (ps2 & Hps2).
  assert (Hkeys : List.map dt_object rs1 = List.map dt_object rs2).
  { apply sorted_keys_unique.
    - apply Permutation_map. exact Hperm.
    - apply (StronglySorted_map key_order); [auto | exact Hsorted1].
    - apply (StronglySorted_map key_order); [auto | exact Hsorted2]. }
  assert (Htimes : List.map pt_time ps1 = List.map pt_time ps2).
  { rewrite (points_of_instants _ _ _ Hps1) in Hkeys.
    rewrite (points_of_instants _ _ _ Hps2) in Hkeys.
    revert Hkeys. generalize (List.map pt_time ps1) as l1.
    generalize (List.map pt_time ps2) as l2.
    induction l2 as [|y l2 IH]; intros [|x l1] E; try discriminate;
      [reflexivity|].
    simpl in E. injection E as -> E. f_equal. apply IH. exact E. }
  destruct (document_instants _ _ _ _ Htimes Hdoc1) as (track2 & Hdoc2 & Hi).
  exists track2.
  assert (Hb2 : build_track sort2 df = Ok (track2, n)).
  { unfold build_track. rewrite (Hprep sort2). cbn [rbind fst snd].
    fold rs2. rewrite (emit_track_document _ _ _ Hps2). exact Hdoc2. }
  split; [rewrite process_and_generate_gpx_run, Hb2; reflexivity|].
  split; [exact Hi|].
  intros cols' rs Hp Hnd. rewrite Hp1 in Hp. injection Hp as <- <-.
  assert (E : rs1 = rs2)
    by (apply sorting_unique; assumption).
  rewrite <- E in Hps2. rewrite Hps1 in Hps2. injection Hps2 as <-.
  rewrite Hdoc1 in Hdoc2. injection Hdoc2 as ->. reflexivity.
Qed.

End TieFacts.

(* ================================================================== *)
(** ** The name of the track *)

Lemma startswith_app (old b : pystr) : startswith old (old ++ b) = true.
Proof.
  induction old as [|c old IH]; [reflexivity|].
  simpl. rewrite N.eqb_refl. exact IH.
Qed.

Lemma startswith_true (old : pystr) :
  forall s, startswith old s = true -> exists b, s = old ++ b.
Proof.
  induction old as [|c old IH]; intros s H; [exists s; reflexivity|].
  destruct s as [|d s]; [discriminate|]. simpl in H.
  apply andb_true_iff in H as [Hc H]. apply N.eqb_eq in Hc. subst d.
  destruct (IH s H) as (b & ->). exists b. reflexivity.
Qed.

Lemma replace_from_length (old : pystr) (s : pystr) :
  forall skip,
  (List.length (replace_from old [] skip s) <= List.length s - skip)%nat.
Proof.
  induction s as [|c s IH]; intros skip; [simpl; lia|].
  cbn [replace_from]. destruct skip as [|k].
  - destruct (startswith old (c :: s)).
    + cbn [app List.length]. specialize (IH (List.length old - 1)%nat). lia.
    + cbn [List.length]. specialize (IH 0%nat). lia.
  - cbn [List.length]. specialize (IH k). lia.
Qed.

(** Where [old] is not found, nothing is replaced; where it is found and
    nothing is put for it, the text gets shorter. *)
Lemma str_replace_occurs (old s : pystr) :
  old <> [] ->
  (~ occurs old s -> str_replace old [] s = s)
  /\ (occurs old s ->
      (List.length (str_replace old [] s) < List.length s)%nat).
Proof.
  intros Hold. unfold str_replace. induction s as [|c s [IH1 IH2]].
  - split; [reflexivity|]. intros (a & b & E).
    destruct a; [destruct old; [congruence | discriminate] | discriminate].
  - cbn [replace_from]. destruct (startswith old (c :: s)) eqn:Hs.
    + split.
      * intros Hno. exfalso. apply Hno.
        apply startswith_true in Hs as (b & ->). exists [], b. reflexivity.
      * intros _. cbn [app List.length].
        pose proof (replace_from_length old s (List.length old - 1)). lia.
    + split.
      * intros Hno. f_equal. apply IH1. intros (a & b & ->).
        apply Hno. exists (c :: a), b. reflexivity.
      * intros (a & b & E). cbn [List.length].
        destruct a as [|c' a].
        { simpl in E. rewrite E, startswith_app in Hs. discriminate. }
        simpl in E. injection E as -> ->.
        specialize (IH2 (ex_intro _ a (ex_intro _ b eq_refl))). lia.
Qed.

(** The end of [.gpx] is not its start: no occurrence of it straddles the
    place where it is appended. *)
Lemma startswith_gpx_app (s : pystr) :
  s <> [] ->
  startswith (str ".gpx") (s ++ str ".gpx") = startswith (str ".gpx") s.
Proof.
  intros Hs. change (str ".gpx") with [46; 103; 112; 120]%N.
  destruct s as [|a [|b [|c [|d s]]]]; [congruence | | | |];
    cbn [app startswith].
  - change (103 =? 46)%N with false. cbn [andb]. reflexivity.
  - change (112 =? 46)%N with false. cbn [andb]. reflexivity.
  - change (120 =? 46)%N with false. cbn [andb]. reflexivity.
  - reflexivity.
Qed.

Lemma replace_from_gpx_app (s : pystr) :
  forall skip, (skip <= List.length s)%nat ->
  replace_from (str ".gpx") [] skip (s ++ str ".gpx")
  = replace_from (str ".gpx") [] skip s.
Proof.
  induction s as [|c s IH]; intros skip Hskip.
  - destruct skip; [reflexivity | simpl in Hskip; lia].
  - cbn [app replace_from]. destruct skip as [|k].
    + change ((c :: s) ++ str ".gpx") with (c :: s ++ str ".gpx").
      rewrite <- (startswith_gpx_app (c :: s)) by discriminate.
      change ((c :: s) ++ str ".gpx") with (c :: s ++ str ".gpx").
      destruct (startswith (str ".gpx") (c :: s ++ str ".gpx")) eqn:E.
      * cbn [app]. apply IH.
        change (c :: s ++ str ".gpx") with ((c :: s) ++ str ".gpx") in E.
        rewrite startswith_gpx_app in E by discriminate.
        apply startswith_true in E as (b & E).
        apply (f_equal (@List.length N)) in E. simpl in E.
        change (List.length (str ".gpx")) with 4%nat. lia.
      * f_equal. apply IH. lia.
    + apply IH. simpl in Hskip. lia.
Qed.

Lemma basename_join (folder name : pystr) :
  ~ In 47%N name -> basename (folder ++ str "/" ++ name) = name.
Proof.
  intros Hno. unfold basename.
  rewrite !rev_app_distr, <- app_assoc. change (rev (str "/")) with [47%N].
  assert (Hrev : ~ In 47%N (rev name)) by (rewrite <- in_rev; exact Hno).
  rewrite <- (rev_involutive name) at 2. f_equal.
  induction (rev name) as [|c r IH]; [reflexivity|].
  cbn [app]. destruct (N.eqb_spec c 47) as [-> | _].
  - exfalso. apply Hrev. simpl; auto.
  - f_equal. apply IH. intros H. apply Hrev. simpl; auto.
Qed.

(** The name of the track is the name of the input file without its
    extension [.csv] and without any [.gpx] in it: it is the name without
    the extension exactly where that has no [.gpx]. *)
Theorem track_name_of_input (name : pystr) :
  csv_glob name = true -> ~ In 47%N name ->
  exists root,
    name = root ++ str ".csv"
    /\ track_name (output_path_of name) = str_replace (str ".gpx") [] root
    /\ (track_name (output_path_of name) = root
        <-> ~ occurs (str ".gpx") root).
Proof.
  intros Hglob Hno. apply csv_glob_root in Hglob as (c & root & -> & Hc).
  exists (c :: root). split; [reflexivity|].
  assert (E : track_name (output_path_of ((c :: root) ++ str ".csv"))
              = str_replace (str ".gpx") [] (c :: root)).
  { rewrite (output_path_of_csv c root Hc). unfold track_name.
    change (str "output/") with (OUTPUT_FOLDER ++ str "/").
    rewrite <- app_assoc, basename_join.
    - apply replace_from_gpx_app. lia.
    - intros Hin. apply in_app_or in Hin as [Hin | Hin].
      + apply Hno. apply in_or_app. left. exact Hin.
      + simpl in Hin. intuition discriminate. }
  split; [exact E|]. rewrite E.
  destruct (str_replace_occurs (str ".gpx") (c :: root) ltac:(discriminate))
    as [H1 H2].
  split.
  - intros Heq Hocc. apply H2 in Hocc. rewrite Heq in Hocc. lia.
  - exact H1.
Qed.

Lemma track_name_of_input_witness :
  exists root,
    str "a.gpx.csv" = root ++ str ".csv"
    /\ track_name (output_path_of (str "a.gpx.csv"))
       = str_replace (str ".gpx") [] root.
Proof.
  destruct (track_name_of_input (str "a.gpx.csv") eq_refl
              ltac:(simpl; intuition discriminate))
    as (root & H1 & H2 & _).
  exists root. split; assumption.
Defined.

(* ================================================================== *)
(** ** The folders *)

(** After [ensure_folders_exist] the two folders exist and every path that
    existed still does; a folder is announced exactly where it did not
    exist; run again, the function prints nothing and changes nothing. *)
Theorem ensure_folders_exist_idempotent (fs : list pystr) :
  let (log, fs') := ensure_folders_exist fs in
  contains fs' INPUT_FOLDER = true /\ contains fs' OUTPUT_FOLDER = true
  /\ (forall p, In p fs -> In p fs')
  /\ (In InputCreated log <-> contains fs INPUT_FOLDER = false)
  /\ (In OutputCreated log <-> contains fs OUTPUT_FOLDER = false)
  /\ ensure_folders_exist fs' = ([], fs').
Proof.
  assert (Hrun : forall l,
            contains l INPUT_FOLDER = true ->
            contains l OUTPUT_FOLDER = true ->
            ensure_folders_exist l = ([], l)).
  { intros l H1 H2. unfold ensure_folders_exist. rewrite H1, H2.
    reflexivity. }
  assert (Hhead : forall p l, contains (p :: l) p = true).
  { intros p l. unfold contains. cbn [existsb]. rewrite pystr_eqb_refl.
    reflexivity. }
  assert (Htail : forall p q l,
            contains l p = true -> contains (q :: l) p = true).
  { intros p q l H. unfold contains in *. cbn [existsb]. rewrite H.
    apply orb_true_r. }
  assert (Hother : contains (INPUT_FOLDER :: fs) OUTPUT_FOLDER
                   = contains fs OUTPUT_FOLDER) by reflexivity.
  unfold ensure_folders_exist at 1.
  destruct (contains fs INPUT_FOLDER) eqn:Hi.
  - destruct (contains fs OUTPUT_FOLDER) eqn:Ho.
    + repeat split; auto; simpl; try tauto; discriminate.
    + repeat split; auto; simpl; try tauto; try discriminate;
        intuition discriminate.
  - rewrite Hother. destruct (contains fs OUTPUT_FOLDER) eqn:Ho.
    + repeat split; auto; simpl; try tauto; try discriminate;
        try (rewrite Hother; exact Ho);
        try (apply Hrun; [apply Hhead | rewrite Hother; exact Ho]);
        intuition discriminate.
    + repeat split; auto; simpl; try tauto; try discriminate;
        intuition discriminate.
Qed.

(* ================================================================== *)
(** ** Runs of the further properties on the sample frames *)

Lemma segments_and_endpoints_witness :
  exists last p segs seg,
    iloc_last [row_100; row_103; row_104; row_500] = Ok last
    /\ point_of [str "timestamp"; str "lat"; str "lon"; str "ele"] last
       = Ok p
    /\ [[mkTrackPoint (Float64 1) (Float64 10) (Float64 3) 100000000000;
         mkTrackPoint (Float64 0x1.5555555555555p+0)
           (Float64 0x1.aaaaaaaaaaaaap+3) (Float64 4) 101000000000;
         mkTrackPoint (Float64 0x1.aaaaaaaaaaaaap+0)
           (Float64 0x1.0aaaaaaaaaaaap+4) (Float64 5) 102000000000;
         mkTrackPoint (Float64 2) (Float64 20) (Float64 6) 103000000000;
         mkTrackPoint (Float64 3) (Float64 30) (Float64 7) 104000000000];
        [mkTrackPoint (Float64 5) (Float64 50) (Float64 9) 500000000000]]
       = segs ++ [seg ++ [p]].
Proof.
  refine (proj2 (proj2
    (segments_and_endpoints (res := Microseconds) stable_sort frame_std
       (str "output/std.gpx") _ _ _ 4 _ _))).
  - vm_compute. reflexivity.
  - vm_compute. reflexivity.
Defined.

Lemma every_row_is_emitted_witness :
  exists rs track n,
    prepare stable_sort frame_std
    = Ok ([str "timestamp"; str "lat"; str "lon"; str "ele"], rs)
    /\ process_and_generate_gpx (res := Microseconds) stable_sort frame_std
         (str "output/std.gpx")
       = ([Written (str "output/std.gpx") track], Ok n)
    /\ Z.of_nat (List.length rs) <= Z.of_nat (List.length (List.concat track))
    /\ 0 <= n < Z.of_nat (List.length (List.concat track)).
Proof.
  eexists _, _, _. split; [vm_compute; reflexivity|].
  split; [vm_compute; reflexivity|].
  match goal with
  | |- Z.of_nat (List.length ?rs) <= Z.of_nat (List.length (List.concat ?tr))
       /\ 0 <= ?n < _ =>
      destruct (every_row_is_emitted (res := Microseconds) stable_sort
                  frame_std
                  (str "output/std.gpx")
                  [str "timestamp"; str "lat"; str "lon"; str "ele"]
                  rs tr n ltac:(vm_compute; reflexivity)
                  ltac:(vm_compute; reflexivity))
        as (_ & HB & _ & HD)
  end.
  split; assumption.
Defined.

Lemma segments_are_dense_witness :
  exists track n,
    process_and_generate_gpx (res := Microseconds) stable_sort frame_std
         (str "output/std.gpx")
    = ([Written (str "output/std.gpx") track], Ok n)
    /\ Forall (chain within_two_steps) track.
Proof.
  eexists _, _. split; [vm_compute; reflexivity|].
  eapply (segments_are_dense (res := Microseconds) stable_sort
            stable_sort_sorts frame_std (str "output/std.gpx")).
  vm_compute. reflexivity.
Defined.

Lemma distinct_instants_stay_distinct_witness :
  exists cols rs track n,
    prepare stable_sort frame_std = Ok (cols, rs)
    /\ process_and_generate_gpx (res := Microseconds) stable_sort frame_std
         (str "output/std.gpx")
       = ([Written (str "output/std.gpx") track], Ok n)
    /\ (NoDup (List.map dt_object rs)
        <-> NoDup (List.map pt_time (List.concat track))).
Proof.
  eexists _, _, _, _. split; [vm_compute; reflexivity|].
  split; [vm_compute; reflexivity|].
  eapply proj1,
    (distinct_instants_stay_distinct (res := Microseconds) stable_sort
       stable_sort_sorts frame_std (str "output/std.gpx")).
  - vm_compute. reflexivity.
  - vm_compute. reflexivity.
Defined.

Lemma ties_leave_the_instants_alone_witness :
  exists track1 n track2,
    process_and_generate_gpx (res := Microseconds) stable_sort frame_ties
      (str "output/t.gpx")
    = ([Written (str "output/t.gpx") track1], Ok n)
    /\ process_and_generate_gpx (res := Microseconds) reversing_sort
         frame_ties (str "output/t.gpx")
       = ([Written (str "output/t.gpx") track2], Ok n)
    /\ instants track2 = instants track1.
Proof.
  eexists _, _.
  destruct (ties_leave_the_instants_alone (res := Microseconds)
              stable_sort reversing_sort frame_ties (str "output/t.gpx")
              _ _ stable_sort_sorts
              reversing_sort_sorts ltac:(vm_compute; reflexivity))
    as (track2 & H1 & H2 & _).
  exists track2. split; [vm_compute; reflexivity|]. split; assumption.
Defined.

Lemma no_output_is_overwritten_witness :
  outputs (main (res := Microseconds) parse_digits stable_sort
             [mkCsv (str "a.csv") (Ok frame_a);
              mkCsv (str "b.csv") (Ok frame_b)])
  = written (main (res := Microseconds) parse_digits stable_sort
               [mkCsv (str "a.csv") (Ok frame_a);
                mkCsv (str "b.csv") (Ok frame_b)]).
Proof.
  apply (no_output_is_overwritten (res := Microseconds) parse_digits
           stable_sort
           [mkCsv (str "a.csv") (Ok frame_a);
            mkCsv (str "b.csv") (Ok frame_b)]).
  - repeat constructor; simpl; intuition discriminate.
  - repeat constructor.
Defined.

Lemma normalizer_changes_timestamps_only_witness :
  exists std,
    snd (standardize_dataframe parse_digits frame_text_timestamp
           (str "t.csv"))
    = Ok (Some (std, Footprint))
    /\ List.length (columns std) = List.length (columns frame_text_timestamp)
    /\ count_label (columns std) (str "timestamp") = 1%nat.
Proof.
  eexists. split; [vm_compute; reflexivity|].
  match goal with
  | |- List.length (columns ?std) = _ /\ _ =>
      destruct (normalizer_changes_timestamps_only parse_digits
                  frame_text_timestamp (str "t.csv") std Footprint
                  ltac:(vm_compute; reflexivity))
        as (H1 & H2 & _)
  end.
  split; assumption.
Defined.
